(** * SINK: optimistic-message reconciliation, ordering and upload state

    A shallow embedding of the message engine of the SINK chat client.
    The repository carries the application object [SinkApp] twice:
    - the first driver, [src/app.js];
    - the second driver, the [SinkApp] object found in
      [src/services/uploadService.js] after the upload service itself
      ([validateFileSize], [uploadFile]).
    Both are embedded, in [Driver1] and [Driver2], over one state record.

    Modelling conventions.
    - JS numbers that hold timestamps, sizes and symbol indices are [Z].
    - JS objects used as dictionaries are [gmap string _], JS [Set]s of
      strings are [gset string], arrays are lists; an array slot that can
      hold [null] is an [option].  A [gmap] holds the properties of the
      object's own; where a key comes from the network, the members a
      plain object inherits are added to the look-up ([Table]).
    - [Math.random], [Date.now] and the results of awaited network calls
      are inputs of the functions that consume them.
    - An [async] function is cut at the [await]s at which another handler
      can observe its effects: every piece is a function on the state and
      a task record holding the locals that survive the [await].
    - The DOM is kept as the list of message bubbles that carry the
      [data-message-id], [data-temp-id] and [data-status] attributes. *)

From Stdlib Require Import ZArith Ascii String List Bool Lia.
From Stdlib Require DecimalString.
From stdpp Require Import gmap strings list fin_maps sorting.

Open Scope string_scope.
Open Scope Z_scope.
Open Scope list_scope.

(** ** JavaScript string helpers *)

Module Js.

(** [a || b] on an optional string: [undefined] and [""] are falsy. *)
Definition or_str (a : option string) (b : string) : string :=
  match a with
  | Some s => if String.eqb s "" then b else s
  | None => b
  end.

(** Truthiness of an optional string. *)
Definition truthy (a : option string) : bool :=
  match a with
  | Some s => negb (String.eqb s "")
  | None => false
  end.

(** [s.startsWith(p)] *)
Definition startsWith (s p : string) : bool := String.prefix p s.

(** [s.includes(p)] *)
Definition includes (s p : string) : bool :=
  match String.index 0 p s with
  | Some _ => true
  | None => false
  end.

(** White space removed by [String.prototype.trim], restricted to the
    one-byte characters: TAB, LF, VT, FF, CR and SPACE. *)
Definition is_space (c : ascii) : bool :=
  let n := nat_of_ascii c in
  ((9 <=? n)%nat && (n <=? 13)%nat) || (n =? 32)%nat.

Fixpoint trimStart (s : string) : string :=
  match s with
  | EmptyString => EmptyString
  | String c r => if is_space c then trimStart r else s
  end.

Fixpoint rev_string (s acc : string) : string :=
  match s with
  | EmptyString => acc
  | String c r => rev_string r (String c acc)
  end.

Definition trimEnd (s : string) : string :=
  rev_string (trimStart (rev_string s EmptyString)) EmptyString.

Definition trim (s : string) : string := trimEnd (trimStart s).

End Js.

(** ** Identifier generator ([genTempId], both drivers) *)

Module PushId.

Definition PUSH_CHARS : string :=
  "-0123456789ABCDEFGHIJKLMNOPQRSTUVWXYZ_abcdefghijklmnopqrstuvwxyz".

(** The numbers the generator stores in [_lastRandChars]: an integer, or
    the [NaN] that [undefined++] leaves behind. *)
Inductive jsnum : Type :=
  | Num (z : Z)
  | NaN.

Definition jsnum_eqb (a : jsnum) (z : Z) : bool :=
  match a with
  | Num x => x =? z
  | NaN => false
  end.

(** [x++] on an array slot; an absent slot reads [undefined], and
    [undefined + 1] is [NaN]. *)
Definition js_incr (a : option jsnum) : jsnum :=
  match a with
  | Some (Num z) => Num (z + 1)
  | Some NaN => NaN
  | None => NaN
  end.

(** [PUSH_CHARS.charAt(v)]: the position is converted to an integer
    ([undefined] and [NaN] become 0); out of range gives [""]. *)
Definition charAt (s : string) (v : option jsnum) : string :=
  let p := match v with Some (Num z) => z | _ => 0 end in
  if p <? 0 then ""
  else match String.get (Z.to_nat p) s with
       | Some c => String c EmptyString
       | None => ""
       end.

(** The array object [_lastRandChars]: its properties by (integer) key.
    [new Array(12).fill(0)] has the keys 0..11. *)
Definition fill0 : gmap Z jsnum :=
  list_to_map (map (fun i => (Z.of_nat i, Num 0)) (seq 0 12)).

Record state : Type := mkState {
  _lastPushTime : Z;
  _lastRandChars : gmap Z jsnum
}.

Definition init : state := mkState 0 fill0.

(** [for (let i = 7; i >= 0; i--) { timeStampChars[i] = PUSH_CHARS.charAt(now % 64);
     now = Math.floor(now / 64); }] followed by [join('')].
    [%] is the truncating remainder. *)
Fixpoint timeStampChars (n : nat) (now : Z) (acc : string) : string :=
  match n with
  | O => acc
  | S k =>
      timeStampChars k (now / 64)
        (charAt PUSH_CHARS (Some (Num (Z.rem now 64))) +:+ acc)
  end.

(** [for (let i = 0; i < 12; i++) this._lastRandChars[i] = Math.floor(Math.random() * 64);]
    where [rnd i] is the i-th draw. *)
Fixpoint redraw (rnd : nat -> Z) (n : nat) (a : gmap Z jsnum) : gmap Z jsnum :=
  match n with
  | O => a
  | S k => <[Z.of_nat k := Num (rnd k)]> (redraw rnd k a)
  end.

(** [for (; i >= 0 && this._lastRandChars[i] === 63; i--) this._lastRandChars[i] = 0;]
    returns the index at which the loop stops and the array. *)
Fixpoint carry (fuel : nat) (i : Z) (a : gmap Z jsnum) : Z * gmap Z jsnum :=
  match fuel with
  | O => (i, a)
  | S f =>
      if (0 <=? i) && (match a !! i with Some v => jsnum_eqb v 63 | None => false end)
      then carry f (i - 1) (<[i := Num 0]> a)
      else (i, a)
  end.

(** The same-millisecond step: the carry loop from index 11, then
    [this._lastRandChars[i]++] at the index the loop stopped at. *)
Definition increment (a : gmap Z jsnum) : Z * gmap Z jsnum :=
  let '(i, a') := carry 13 11 a in
  (i, <[i := js_incr (a' !! i)]> a').

Fixpoint randChars (n : nat) (i : Z) (a : gmap Z jsnum) : string :=
  match n with
  | O => ""
  | S k => charAt PUSH_CHARS (a !! i) +:+ randChars k (i + 1) a
  end.

(** [genTempId()], with the clock reading [now] and the random draws [rnd]. *)
Definition genTempId (now : Z) (rnd : nat -> Z) (st : state) : string * state :=
  let duplicateTime := now =? _lastPushTime st in
  let id := timeStampChars 8 now "" in
  let a :=
    if negb duplicateTime then redraw rnd 12 (_lastRandChars st)
    else snd (increment (_lastRandChars st)) in
  ("-" +:+ id +:+ randChars 12 0 a, mkState now a).

(** The suffix array holds a symbol index at each of its twelve slots. *)
Definition in_range (a : gmap Z jsnum) : Prop :=
  forall i, 0 <= i < 12 -> exists v, a !! i = Some (Num v) /\ 0 <= v <= 63.

(** All twelve symbols are at the maximum. *)
Definition maxed_out (a : gmap Z jsnum) : Prop :=
  forall i, 0 <= i < 12 -> a !! i = Some (Num 63).

(** A symbol of the push alphabet. *)
Definition in_alphabet (c : ascii) : bool :=
  existsb (Ascii.eqb c) (list_ascii_of_string PUSH_CHARS).

(** A key as Firebase accepts it: 21 symbols of the alphabet, the first
    of which is ['-']. *)
Definition key_shape (k : string) : bool :=
  (String.length k =? 21)%nat && String.prefix "-" k
  && forallb in_alphabet (list_ascii_of_string k).

(** The index written by [this._lastRandChars[i]++] in a same-millisecond call. *)
Definition incremented_index (st : state) : Z := fst (increment (_lastRandChars st)).

End PushId.

(** ** Data model shared by the two drivers *)

(** A call that reads a property of [null] or [undefined] raises a
    [TypeError]; such a call is [Throw].  What a handler had already done
    when the error escaped is not tracked. *)
Inductive res (A : Type) : Type :=
  | Ret (a : A)
  | Throw.
Arguments Ret {A} a.
Arguments Throw {A}.

#[global] Instance res_ret : MRet res := fun A a => Ret a.
#[global] Instance res_bind : MBind res := fun A B k r =>
  match r with
  | Ret a => k a
  | Throw => Throw
  end.

(** [finalMessage.file] *)
Record FileRef : Type := mkFileRef {
  f_url : string;
  f_name : string;
  f_size : Z;
  f_mimeType : string
}.

(** A browser [File]. *)
Record File : Type := mkFile {
  file_name : string;
  file_type : string;
  file_size : Z
}.

(** [pendingAttachment]: [{ file, name, size, type }] when picked,
    [{ file }] when restored by [retryUpload]. *)
Record Attachment : Type := mkAttachment {
  a_file : option File;
  a_type : option string
}.

(** [window.auth.currentUser] *)
Record User : Type := mkUser {
  uid : string;
  displayName : option string;
  email : option string
}.

(** What [getUserProfile] resolves to (second driver). *)
Record Profile : Type := mkProfile {
  p_displayName : option string;
  p_name : option string
}.

(** A message object.  The fields are the union of those of a placeholder,
    of a record written to the log and of a formatted message; a field
    the object does not have is [None].  Presentation-only fields
    ([time], [avatar], preview URLs) are left out. *)
Record Message : Type := mkMessage {
  m_id : string;
  m_tempId : option string;
  m_type : string;
  m_status : option string;
  m_progress : option Z;
  m_text : option string;
  m_senderId : option string;
  m_senderName : option string;
  m_sender : option string;
  m_createdAt : Z;
  m_image : option string;
  m_video : option string;
  m_file : option FileRef;
  m_fileName : option string;
  m_fileType : option string;
  m_fileSize : option Z
}.

(** The message handed to the thread listener by [listenForMessages]
    ([firebaseService.js]).  [r_createdAt] is [Some t] for the number [t]
    and [None] when the property is missing; [listenForMessages] itself
    never sets [tempId]. *)
Record RawMessage : Type := mkRaw {
  r_id : string;
  r_tempId : option string;
  r_senderId : option string;
  r_senderName : option string;
  r_text : option string;
  r_createdAt : option Z;
  r_image : option string;
  r_video : option string;
  r_file : option FileRef
}.

(** A message bubble of the DOM with its data attributes; [b_retry] is
    the [.upload-error] block holding the Retry button. *)
Record Bubble : Type := mkBubble {
  b_message_id : string;
  b_temp_id : string;
  b_status : string;
  b_firebase_id : option string;
  b_retry : bool
}.

(** The value kept in [failedUploads] for a retry. *)
Record FailedUpload : Type := mkFailed {
  fu_threadType : string;
  fu_threadId : string;
  fu_caption : string;
  fu_currentUser : User;
  fu_file : File
}.

(** A [saveMessage(threadType, threadId, message)] call that was issued. *)
Record Write : Type := mkWrite {
  w_threadType : string;
  w_threadId : string;
  w_message : Message
}.

(** What a handler reads from outside the application object. *)
Record Env : Type := mkEnv {
  currentUser : option User;          (* window.auth?.currentUser *)
  now : Z;                            (* Date.now() / new Date().getTime() *)
  random : nat -> Z;                  (* successive Math.floor(Math.random() * 64) *)
  profileOf : string -> Profile;      (* what getUserProfile resolves to *)
  saveMessageReady : bool;            (* firebaseService.saveMessage usable *)
  uploadServiceReady : bool           (* window.uploadService.uploadFile present *)
}.

(** The [SinkApp] object, with the part of the DOM the handlers touch and
    the log of the writes they issued. *)
Record State : Type := mkS {
  messagesCache : gmap string (list (option Message));
  processedMessageIds : gmap string (gset string);
  isUploading : bool;
  isSending : bool;
  pendingAttachment : option Attachment;
  sentMessageIds : gset string;
  pendingMessages : gmap string Message;
  failedUploads : gmap string FailedUpload;
  pushState : PushId.state;
  currentView : option string;
  rooms : list string;
  composer : option string;      (* value of #floatingComposer, if the element exists *)
  container : bool;              (* '.messages > div' exists *)
  bubbles : list Bubble;
  remoteWrites : list Write
}.

(** Field updates. *)
Definition set_messagesCache (v : gmap string (list (option Message))) (s : State) : State :=
  mkS v (processedMessageIds s) (isUploading s) (isSending s) (pendingAttachment s) (sentMessageIds s) (pendingMessages s) (failedUploads s) (pushState s) (currentView s) (rooms s) (composer s) (container s) (bubbles s) (remoteWrites s).
Definition set_processedMessageIds (v : gmap string (gset string)) (s : State) : State :=
  mkS (messagesCache s) v (isUploading s) (isSending s) (pendingAttachment s) (sentMessageIds s) (pendingMessages s) (failedUploads s) (pushState s) (currentView s) (rooms s) (composer s) (container s) (bubbles s) (remoteWrites s).
Definition set_isUploading (v : bool) (s : State) : State :=
  mkS (messagesCache s) (processedMessageIds s) v (isSending s) (pendingAttachment s) (sentMessageIds s) (pendingMessages s) (failedUploads s) (pushState s) (currentView s) (rooms s) (composer s) (container s) (bubbles s) (remoteWrites s).
Definition set_isSending (v : bool) (s : State) : State :=
  mkS (messagesCache s) (processedMessageIds s) (isUploading s) v (pendingAttachment s) (sentMessageIds s) (pendingMessages s) (failedUploads s) (pushState s) (currentView s) (rooms s) (composer s) (container s) (bubbles s) (remoteWrites s).
Definition set_pendingAttachment (v : option Attachment) (s : State) : State :=
  mkS (messagesCache s) (processedMessageIds s) (isUploading s) (isSending s) v (sentMessageIds s) (pendingMessages s) (failedUploads s) (pushState s) (currentView s) (rooms s) (composer s) (container s) (bubbles s) (remoteWrites s).
Definition set_pendingMessages (v : gmap string Message) (s : State) : State :=
  mkS (messagesCache s) (processedMessageIds s) (isUploading s) (isSending s) (pendingAttachment s) (sentMessageIds s) v (failedUploads s) (pushState s) (currentView s) (rooms s) (composer s) (container s) (bubbles s) (remoteWrites s).
Definition set_failedUploads (v : gmap string FailedUpload) (s : State) : State :=
  mkS (messagesCache s) (processedMessageIds s) (isUploading s) (isSending s) (pendingAttachment s) (sentMessageIds s) (pendingMessages s) v (pushState s) (currentView s) (rooms s) (composer s) (container s) (bubbles s) (remoteWrites s).
Definition set_pushState (v : PushId.state) (s : State) : State :=
  mkS (messagesCache s) (processedMessageIds s) (isUploading s) (isSending s) (pendingAttachment s) (sentMessageIds s) (pendingMessages s) (failedUploads s) v (currentView s) (rooms s) (composer s) (container s) (bubbles s) (remoteWrites s).
Definition set_composer (v : option string) (s : State) : State :=
  mkS (messagesCache s) (processedMessageIds s) (isUploading s) (isSending s) (pendingAttachment s) (sentMessageIds s) (pendingMessages s) (failedUploads s) (pushState s) (currentView s) (rooms s) v (container s) (bubbles s) (remoteWrites s).
Definition set_container (v : bool) (s : State) : State :=
  mkS (messagesCache s) (processedMessageIds s) (isUploading s) (isSending s) (pendingAttachment s) (sentMessageIds s) (pendingMessages s) (failedUploads s) (pushState s) (currentView s) (rooms s) (composer s) v (bubbles s) (remoteWrites s).
Definition set_bubbles (v : list Bubble) (s : State) : State :=
  mkS (messagesCache s) (processedMessageIds s) (isUploading s) (isSending s) (pendingAttachment s) (sentMessageIds s) (pendingMessages s) (failedUploads s) (pushState s) (currentView s) (rooms s) (composer s) (container s) v (remoteWrites s).
Definition set_remoteWrites (v : list Write) (s : State) : State :=
  mkS (messagesCache s) (processedMessageIds s) (isUploading s) (isSending s) (pendingAttachment s) (sentMessageIds s) (pendingMessages s) (failedUploads s) (pushState s) (currentView s) (rooms s) (composer s) (container s) (bubbles s) v.

(** ** [Array.prototype.sort] with a comparator [(a, b) => key(a) - key(b)]

    The sort is stable and ascending; it is embedded as the insertion sort
    that computes the same array. *)

Section StableSort.
Context {A : Type} (key : A -> Z).

(** [x] goes before the first element that is not earlier than it. *)
Fixpoint insert_by (x : A) (l : list A) : list A :=
  match l with
  | [] => [x]
  | y :: r => if key x <=? key y then x :: l else y :: insert_by x r
  end.

Definition sort_by (l : list A) : list A := foldr insert_by [] l.

(** The order of the keys. *)
Definition le_key (a b : A) : Prop := key a <= key b.

(** Non-decreasing keys along the list. *)
Fixpoint sorted_by (l : list A) : bool :=
  match l with
  | [] => true
  | x :: r =>
      match r with
      | [] => true
      | y :: _ => (key x <=? key y) && sorted_by r
      end
  end.
End StableSort.

(** ** Arrays of messages *)

Module Arr.

(** [arr.findIndex(m => p(m))] where [p] reads properties of [m]: a [null]
    slot met before a match raises. *)
Fixpoint findIndex (p : Message -> bool) (l : list (option Message)) : res (option nat) :=
  match l with
  | [] => Ret None
  | None :: _ => Throw
  | Some m :: r =>
      if p m then Ret (Some O)
      else match findIndex p r with
           | Ret i => Ret (S <$> i)
           | Throw => Throw
           end
  end.

(** [arr.some(m => p(m))] *)
Fixpoint some (p : Message -> bool) (l : list (option Message)) : res bool :=
  match l with
  | [] => Ret false
  | None :: _ => Throw
  | Some m :: r => if p m then Ret true else some p r
  end.

(** The messages of an array without [null] slots. *)
Fixpoint objs (l : list (option Message)) : option (list Message) :=
  match l with
  | [] => Some []
  | None :: _ => None
  | Some m :: r => cons m <$> objs r
  end.

Definition sortMessages (l : list Message) : list Message := sort_by m_createdAt l.

(** [arr.sort((a, b) => timeA - timeB)] with [timeA], [timeB] the
    [createdAt] numbers: stable, ascending.  The comparator is not called
    on arrays shorter than two; otherwise it reads every element, and a
    [null] slot raises. *)
Definition sort (l : list (option Message)) : res (list (option Message)) :=
  match l with
  | [] | [_] => Ret l
  | _ => match objs l with
         | Some ms => Ret (Some <$> sortMessages ms)
         | None => Throw
         end
  end.

End Arr.

(** ** DOM helpers *)

Module Dom.

(** [querySelector] for an attribute selector: the first bubble in
    document order. *)
Definition querySelector (p : Bubble -> bool) (l : list Bubble) : option Bubble :=
  List.find p l.

(** [setAttribute]s on the element [querySelector] returned. *)
Fixpoint update (p : Bubble -> bool) (f : Bubble -> Bubble) (l : list Bubble) : list Bubble :=
  match l with
  | [] => []
  | b :: r => if p b then f b :: r else b :: update p f r
  end.

Definition by_message_id (i : string) (b : Bubble) : bool := String.eqb (b_message_id b) i.
Definition by_temp_id (i : string) (b : Bubble) : bool := String.eqb (b_temp_id b) i.

Definition set_status (st : string) (b : Bubble) : Bubble :=
  mkBubble (b_message_id b) (b_temp_id b) st (b_firebase_id b) (b_retry b).
Definition set_retry (r : bool) (b : Bubble) : Bubble :=
  mkBubble (b_message_id b) (b_temp_id b) (b_status b) (b_firebase_id b) r.
(** [data-message-id], [data-firebase-id] := [i]; [data-status] := ['delivered']. *)
Definition confirm (i : string) (b : Bubble) : Bubble :=
  mkBubble i (b_temp_id b) "delivered" (Some i) (b_retry b).

(** The attributed element produced by [outgoingMessageHTML] or
    [uploadingMessageHTML]; [incomingMessageHTML] carries no data
    attribute, and other types render nothing. *)
Definition bubble_of (m : Message) : list Bubble :=
  if String.eqb (m_type m) "outgoing" then
    [mkBubble (m_id m) (Js.or_str (m_tempId m) (m_id m)) (Js.or_str (m_status m) "delivered") None false]
  else if String.eqb (m_type m) "uploading" then
    [mkBubble (m_id m) (Js.or_str (m_tempId m) (m_id m)) (Js.or_str (m_status m) "uploading") None false]
  else [].

(** [appendMessage(message)]: nothing without the messages container. *)
Definition appendMessage (m : Message) (s : State) : State :=
  if container s then set_bubbles (bubbles s ++ bubble_of m) s else s.

(** [updateMessageStatus(tempId, status)]: the bubble is looked up by
    [data-message-id]; ['failed'] adds the error block with the Retry
    button. *)
Definition updateMessageStatus (tempId status : string) (s : State) : State :=
  set_bubbles
    (update (by_message_id tempId)
       (fun b => let b' := set_status status b in
                 if String.eqb status "failed" then set_retry true b' else b')
       (bubbles s)) s.

End Dom.

(** ** The upload service ([uploadService.js]) *)

Module UploadService.

(** [FILE_SIZE_LIMITS], in MB. *)
Definition limit_image : Z := 10.
Definition limit_video : Z := 100.
Definition limit_document : Z := 20.
Definition limit_other : Z := 25.

Definition sizeLimit (type : string) : Z :=
  if Js.startsWith type "image/" then limit_image
  else if Js.startsWith type "video/" then limit_video
  else if String.eqb type "application/pdf" || Js.includes type "document"
          || Js.includes type "msword" || Js.includes type "officedocument"
  then limit_document
  else limit_other.

(** [validateFileSize(file)]: [true] when it returns, [false] when it
    throws.  [file.size / 1024 / 1024 > sizeLimit] is exact on integers
    (division by a power of two), hence the integer comparison. *)
Definition validateFileSize (f : File) : bool :=
  negb (sizeLimit (file_type f) * 1024 * 1024 <? file_size f).

(** How the XHR ends: [onload] with a 2xx status and the uploaded URL, or
    an error, an abort or another status. *)
Inductive Network : Type :=
  | NetOk (url : string)
  | NetFail.

(** How the promise of [uploadFile] settles. *)
Inductive Outcome : Type :=
  | Resolved (url : string) (size : Z) (mimeType : string)
  | Rejected.

(** [uploadFile(file, onProgress)]: the promise rejects at once when
    [validateFileSize] throws; otherwise it settles as the XHR does,
    resolving to [{ url, size: file.size, mimeType: file.type }]. *)
Definition uploadFile (f : File) (network : Network) : Outcome :=
  if validateFileSize f then
    match network with
    | NetOk url => Resolved url (file_size f) (file_type f)
    | NetFail => Rejected
    end
  else Rejected.

End UploadService.

(** ** What the two drivers share *)

Module Common.

(** [email.split('@')[0]] *)
Definition before_at (s : string) : string :=
  match String.index 0 "@" s with
  | Some n => String.substring 0 n s
  | None => s
  end.

(** [currentUser.displayName || currentUser.email?.split('@')[0] || 'User'] *)
Definition senderNameOf (u : User) : string :=
  Js.or_str (displayName u) (Js.or_str (before_at <$> email u) "User").

(** [x === k] for a property [x] that may be missing. *)
Definition opt_eqb (x : option string) (k : string) : bool :=
  match x with
  | Some v => String.eqb v k
  | None => false
  end.

(** [{ ...pending, ...formatted, status: 'delivered' }], for [formatted]
    built by [formatMessage], whose properties are [id], [type], [sender],
    [text], [createdAt], [image], [video] and [file]. *)
Definition mergeDelivered (p fm : Message) : Message :=
  mkMessage (m_id fm) (m_tempId p) (m_type fm) (Some "delivered") (m_progress p)
    (m_text fm) (m_senderId p) (m_senderName p) (m_sender fm) (m_createdAt fm)
    (m_image fm) (m_video fm) (m_file fm) (m_fileName p) (m_fileType p) (m_fileSize p).

Definition set_m_status (st : string) (m : Message) : Message :=
  mkMessage (m_id m) (m_tempId m) (m_type m) (Some st) (m_progress m)
    (m_text m) (m_senderId m) (m_senderName m) (m_sender m) (m_createdAt m)
    (m_image m) (m_video m) (m_file m) (m_fileName m) (m_fileType m) (m_fileSize m).

Definition set_m_progress (p : Z) (m : Message) : Message :=
  mkMessage (m_id m) (m_tempId m) (m_type m) (m_status m) (Some p)
    (m_text m) (m_senderId m) (m_senderName m) (m_sender m) (m_createdAt m)
    (m_image m) (m_video m) (m_file m) (m_fileName m) (m_fileType m) (m_fileSize m).

(** The locals of [uploadAndSendAttachment] that outlive its [await]s.
    [t_fromComposer] tells whether [sendMessageFromComposer] is waiting
    for it. *)
Record UploadTask : Type := mkTask {
  t_tempId : string;
  t_threadType : string;
  t_threadId : string;
  t_caption : string;
  t_user : User;
  t_senderName : string;
  t_file : File;
  t_fromComposer : bool
}.

(** The [await] at which an asynchronous command is suspended. *)
Inductive Pending : Type :=
  | TextSave (tempId : string)                (* sendMessageFromComposer, at saveMessage *)
  | Upload (t : UploadTask)                   (* uploadAndSendAttachment, at uploadFile *)
  | UploadSave (t : UploadTask) (url : string). (* uploadAndSendAttachment, at saveMessage *)

(** How a command leaves the turn it runs in: it returned, its promise
    was rejected by an error nobody caught, or it is suspended. *)
Inductive Step : Type :=
  | Settled (s : State)
  | Escaped (s : State)
  | Await (s : State) (p : Pending).

Definition state_of (st : Step) : State :=
  match st with
  | Settled s | Escaped s | Await s _ => s
  end.

(** The text placeholder of [sendMessageFromComposer]. *)
Definition textPlaceholder (tempId text : string) (u : User) (name : string) (t : Z) : Message :=
  mkMessage tempId (Some tempId) "outgoing" (Some "sending") None
    (Some text) (Some (uid u)) (Some name) None t None None None None None None.

(** [messageToSave] of [sendMessageFromComposer]. *)
Definition textToSave (tempId text : string) (u : User) (name : string) (t : Z) : Message :=
  mkMessage tempId (Some tempId) "text" (Some "sent") None
    (Some text) (Some (uid u)) (Some name) None t None None None None None None.

(** The placeholder of [uploadAndSendAttachment]. *)
Definition uploadPlaceholder (tk : UploadTask) (t : Z) : Message :=
  mkMessage (t_tempId tk) (Some (t_tempId tk)) "uploading" (Some "uploading") (Some 0)
    (Some (t_caption tk)) (Some (uid (t_user tk))) (Some (t_senderName tk)) None t
    None None None
    (Some (file_name (t_file tk))) (Some (file_type (t_file tk))) (Some (file_size (t_file tk))).

(** [finalMessage] of [uploadAndSendAttachment]. *)
Definition finalMessage (tk : UploadTask) (url : string) (size : Z) (mime : string) (t : Z) : Message :=
  let f := t_file tk in
  let isImage := Js.startsWith (file_type f) "image/" in
  let isVideo := Js.startsWith (file_type f) "video/" in
  mkMessage (t_tempId tk) (Some (t_tempId tk))
    (if isImage then "image" else if isVideo then "video" else "file")
    (Some "sent") None
    (if String.eqb (t_caption tk) "" then None else Some (t_caption tk))
    (Some (uid (t_user tk))) (Some (t_senderName tk)) None t
    (if isImage then Some url else None)
    (if isImage then None else if isVideo then Some url else None)
    (if isImage || isVideo then None else Some (mkFileRef url (file_name f) size mime))
    None None None.

(** The [catch] block of [uploadAndSendAttachment]. *)
Definition uploadFailed (tk : UploadTask) (s : State) : State :=
  let s1 := Dom.updateMessageStatus (t_tempId tk) "failed" s in
  let s2 := set_failedUploads
              (<[t_tempId tk := mkFailed (t_threadType tk) (t_threadId tk) (t_caption tk)
                                  (t_user tk) (t_file tk)]> (failedUploads s1)) s1 in
  set_pendingAttachment None s2.

(** The [onProgress] callback handed to [uploadFile]. *)
Definition onProgress (tempId : string) (pct : Z) (s : State) : State :=
  match pendingMessages s !! tempId with
  | Some p => set_pendingMessages (<[tempId := set_m_progress pct p]> (pendingMessages s)) s
  | None => s
  end.

(** [cancelFileUpload()], the same in both drivers. *)
Definition cancelFileUpload (s : State) : State :=
  set_pendingAttachment None (set_isUploading false s).

(** [this.currentView === viewId] *)
Definition viewing (viewId : string) (s : State) : bool :=
  opt_eqb (currentView s) viewId.

End Common.

(** ** First driver: [src/app.js] *)

Module Driver1.
Import Common.

(** [formatMessage(rawMessage)]; [null] is [None]. *)
Definition formatMessage (env : Env) (raw : RawMessage) : option Message :=
  match currentUser env with
  | None => None
  | Some u =>
      let isOutgoing := opt_eqb (r_senderId raw) (uid u) in
      let createdAtTimestamp :=
        match r_createdAt raw with
        | Some t => t
        | None => now env
        end in
      Some (mkMessage (r_id raw) None
              (if isOutgoing then "outgoing" else "incoming") None None
              (Some (Js.or_str (r_text raw) "")) None None
              (Some (Js.or_str (r_senderName raw) "Unknown"))
              createdAtTimestamp
              (Some (Js.or_str (r_image raw) "")) (Some (Js.or_str (r_video raw) ""))
              (r_file raw) None None None)
  end.

(** [renderChat(messages, name)] replaces the chat view: the bubbles of
    a sorted copy inside a fresh messages container, and a fresh, empty
    composer. *)
Definition renderChat (messages : list (option Message)) (s : State) : res State :=
  sorted ← Arr.sort messages;
  match Arr.objs sorted with
  | Some ms =>
      Ret (set_composer (Some "")
             (set_container true (set_bubbles (flat_map Dom.bubble_of ms) s)))
  | None => Throw
  end.

(** [cache[i] = m] if an index was found, [cache.push(m)] otherwise. *)
Definition replaceOrPush (i : option nat) (m : Message) (cache : list (option Message))
  : list (option Message) :=
  match i with
  | Some k => <[k := Some m]> cache
  | None => cache ++ [Some m]
  end.

(** The callback that [openRoom] (with [threadKey = "room:" + viewId]) and
    [openChat] (with ["dm:" + viewId]) hand to [listenForMessages], where
    the test [this.pendingMessages[matchId]] finds a placeholder of the
    table's own or nothing; [Table.callback] adds the members that the
    table, a plain object, inherits. *)
Definition listener (viewId threadKey : string) (env : Env) (raw : RawMessage) (s : State)
  : res State :=
  match formatMessage env raw with
  | None => Ret s
  | Some formattedMessage =>
      match messagesCache s !! threadKey with
      | None => Throw
      | Some cache =>
          let matchId := Js.or_str (m_tempId formattedMessage) (m_id formattedMessage) in
          match pendingMessages s !! matchId with
          | Some p =>
              (* 1. merge into the pending placeholder *)
              let s1 := set_pendingMessages
                          (<[matchId := mergeDelivered p formattedMessage]> (pendingMessages s)) s in
              let s2 := set_bubbles
                          (Dom.update (Dom.by_temp_id matchId) (Dom.confirm (m_id formattedMessage))
                             (bubbles s1)) s1 in
              cacheIndex ← Arr.findIndex
                 (fun m => opt_eqb (m_tempId m) matchId || String.eqb (m_id m) matchId) cache;
              let s3 := set_messagesCache
                          (<[threadKey := replaceOrPush cacheIndex formattedMessage cache]>
                             (messagesCache s2)) s2 in
              Ret (set_pendingMessages (delete matchId (pendingMessages s3)) s3)
          | None =>
              (* 2. a bubble with this tempId is in the DOM *)
              let backup :=
                match m_tempId formattedMessage with
                | Some t =>
                    if Js.truthy (Some t)
                    then match Dom.querySelector (Dom.by_temp_id t) (bubbles s) with
                         | Some _ => Some t
                         | None => None
                         end
                    else None
                | None => None
                end in
              match backup with
              | Some t =>
                  let s2 := set_bubbles
                              (Dom.update (Dom.by_temp_id t) (Dom.confirm (m_id formattedMessage))
                                 (bubbles s)) s in
                  cacheIndex ← Arr.findIndex (fun m => opt_eqb (m_tempId m) t) cache;
                  Ret (set_messagesCache
                         (<[threadKey := replaceOrPush cacheIndex formattedMessage cache]>
                            (messagesCache s2)) s2)
              | None =>
                  (* 3. already in the cache *)
                  exists_ ← Arr.some (fun m => String.eqb (m_id m) (m_id formattedMessage)) cache;
                  if (exists_ : bool) then Ret s
                  (* 4. legacy sentMessageIds *)
                  else if bool_decide (m_id formattedMessage ∈ sentMessageIds s) then Ret s
                  else
                    (* a new message: push, then sort *)
                    sorted ← Arr.sort (cache ++ [Some formattedMessage]);
                    let s1 := set_messagesCache (<[threadKey := sorted]> (messagesCache s)) s in
                    if viewing viewId s1 then
                      if (length sorted =? 1)%nat then renderChat sorted s1
                      else Ret (Dom.appendMessage formattedMessage s1)
                    else Ret s1
              end
          end
      end
  end.

(** [uploadAndSendAttachment(threadType, threadId, caption, currentUser)]
    up to [await uploadFile(...)].  The errors raised before the [try]
    ("No file to upload", and the [TypeError] of
    [attachment.type.startsWith] when the attachment has no [type])
    escape to the caller. *)
Definition uploadAndSendAttachment (env : Env) (threadType threadId caption : string)
    (u : User) (fromComposer : bool) (s : State) : Step :=
  match pendingAttachment s with
  | None => Escaped s
  | Some attachment =>
      match a_file attachment with
      | None => Escaped s
      | Some f =>
          let '(tempId, ps) := PushId.genTempId (now env) (random env) (pushState s) in
          let s1 := set_pushState ps s in
          match a_type attachment with
          | None => Escaped s1
          | Some _ =>
              let tk := mkTask tempId threadType threadId caption u (senderNameOf u) f fromComposer in
              let placeholder := uploadPlaceholder tk (now env) in
              let s2 := set_pendingMessages (<[tempId := placeholder]> (pendingMessages s1)) s1 in
              let s3 := Dom.appendMessage placeholder s2 in
              if uploadServiceReady env then Await s3 (Upload tk)
              else Settled (uploadFailed tk s3)
          end
      end
  end.

(** After [await uploadFile(...)]: build [finalMessage] and call
    [saveMessage], or run the [catch] block. *)
Definition uploadSettled (env : Env) (o : UploadService.Outcome) (tk : UploadTask) (s : State)
  : Step :=
  match o with
  | UploadService.Rejected => Settled (uploadFailed tk s)
  | UploadService.Resolved url size mime =>
      if saveMessageReady env then
        Await (set_remoteWrites
                 (remoteWrites s ++
                    [mkWrite (t_threadType tk) (t_threadId tk) (finalMessage tk url size mime (now env))]) s)
              (UploadSave tk url)
      else Settled (uploadFailed tk s)
  end.

(** After [await saveMessage(...)] in [uploadAndSendAttachment]. *)
Definition uploadSaved (ok : bool) (tk : UploadTask) (s : State) : State :=
  if ok then set_pendingAttachment None (Dom.updateMessageStatus (t_tempId tk) "sent" s)
  else uploadFailed tk s.

(** [sendMessageFromComposer()] up to its first [await]. *)
Definition sendMessageFromComposer (env : Env) (s : State) : Step :=
  match composer s with
  | None => Settled s
  | Some value =>
      let text := Js.trim value in
      let hasPendingAttachment := bool_decide (is_Some (pendingAttachment s)) in
      let hasText := (0 <? String.length text)%nat in
      if negb hasPendingAttachment && negb hasText then Settled s
      else
        let s1 := set_composer (Some "") s in
        match currentUser env with
        | None => Settled s1
        | Some u =>
            let currentViewId := Js.or_str (currentView s1) "" in
            if String.eqb currentViewId "" then Settled s1
            else
              let threadType :=
                if existsb (String.eqb currentViewId) (rooms s1) then "room" else "dm" in
              if hasPendingAttachment then
                match uploadAndSendAttachment env threadType currentViewId text u true s1 with
                | Escaped s' => Settled s'
                | st => st
                end
              else
                let '(tempId, ps) := PushId.genTempId (now env) (random env) (pushState s1) in
                let s2 := set_pushState ps s1 in
                let placeholder := textPlaceholder tempId text u (senderNameOf u) (now env) in
                let s3 := set_pendingMessages (<[tempId := placeholder]> (pendingMessages s2)) s2 in
                let s4 := Dom.appendMessage placeholder s3 in
                if saveMessageReady env then
                  Await (set_remoteWrites
                           (remoteWrites s4 ++
                              [mkWrite threadType currentViewId
                                 (textToSave tempId text u (senderNameOf u) (now env))]) s4)
                        (TextSave tempId)
                else Settled s4
        end
  end.

(** After [await saveMessage(...)] in [sendMessageFromComposer]: step 6,
    or the [catch] block (a toast). *)
Definition textSaved (ok : bool) (tempId : string) (s : State) : State :=
  if ok then
    match Dom.querySelector (Dom.by_message_id tempId) (bubbles s) with
    | Some _ =>
        let s1 := set_bubbles
                    (Dom.update (Dom.by_message_id tempId) (Dom.set_status "sent") (bubbles s)) s in
        match pendingMessages s1 !! tempId with
        | Some p => set_pendingMessages (<[tempId := set_m_status "sent" p]> (pendingMessages s1)) s1
        | None => s1
        end
    | None => s
    end
  else s.

(** [retryUpload(tempId)] up to the first [await] of the upload it starts. *)
Definition retryUpload (env : Env) (tempId : string) (s : State) : Step :=
  match failedUploads s !! tempId with
  | None => Settled s
  | Some uploadData =>
      let s1 := set_failedUploads (delete tempId (failedUploads s)) s in
      let s2 := set_bubbles
                  (Dom.update (Dom.by_message_id tempId)
                     (fun b => Dom.set_status "uploading" (Dom.set_retry false b)) (bubbles s1)) s1 in
      let s3 := set_pendingAttachment (Some (mkAttachment (Some (fu_file uploadData)) None)) s2 in
      uploadAndSendAttachment env (fu_threadType uploadData) (fu_threadId uploadData)
        (fu_caption uploadData) (fu_currentUser uploadData) false s3
  end.

Definition cancelFileUpload := Common.cancelFileUpload.

End Driver1.

(** ** Second driver: the [SinkApp] of [src/services/uploadService.js] *)

Module Driver2.
Import Common.

(** [formatMessage(rawMessage)]: as in the first driver, with the sender
    taken from the profile that is looked up when [senderId] is set.
    The avatar URL is left out; the source builds it, for a sender
    without avatar, with [encodeURIComponent] on the initials of the
    name, which throws when a word of the name starts with a character
    outside the Basic Multilingual Plane: the definition is for the
    other senders. *)
Definition formatMessage (env : Env) (raw : RawMessage) : option Message :=
  match currentUser env with
  | None => None
  | Some u =>
      let isOutgoing := opt_eqb (r_senderId raw) (uid u) in
      let senderProfile :=
        match r_senderId raw with
        | Some sid => if String.eqb sid "" then None else Some (profileOf env sid)
        | None => None
        end in
      let createdAtTimestamp :=
        match r_createdAt raw with
        | Some t => t
        | None => now env
        end in
      let sender :=
        Js.or_str (senderProfile ≫= p_displayName)
          (Js.or_str (senderProfile ≫= p_name) (Js.or_str (r_senderName raw) "Unknown")) in
      Some (mkMessage (r_id raw) None
              (if isOutgoing then "outgoing" else "incoming") None None
              (Some (Js.or_str (r_text raw) "")) None None
              (Some sender)
              createdAtTimestamp
              (Some (Js.or_str (r_image raw) "")) (Some (Js.or_str (r_video raw) ""))
              (r_file raw) None None None)
  end.

(** [renderChat(messages, name)] replaces the chat view, composer
    included; the empty state has no messages container. *)
Definition renderChat (messages : list (option Message)) (s : State) : res State :=
  match messages with
  | [] => Ret (set_composer (Some "") (set_container false (set_bubbles [] s)))
  | _ =>
      sorted ← Arr.sort messages;
      match Arr.objs sorted with
      | Some ms =>
          Ret (set_composer (Some "")
                 (set_container true (set_bubbles (flat_map Dom.bubble_of ms) s)))
      | None => Throw
      end
  end.

(** [this.processedMessageIds[threadKey].add(id)] *)
Definition markProcessed (threadKey id : string) (s : State) : State :=
  set_processedMessageIds
    (<[threadKey := {[id]} ∪ default ∅ (processedMessageIds s !! threadKey)]>
       (processedMessageIds s)) s.

(** The [async] callback of [openRoom] and [openChat], run without another
    handler in between its [await]s, where the test
    [this.pendingMessages[matchId]] finds a placeholder of the table's
    own or nothing. *)
Definition listener (viewId threadKey : string) (env : Env) (raw : RawMessage) (s : State)
  : res State :=
  (* STEP 1: deduplicate *)
  let ledger := default ∅ (processedMessageIds s !! threadKey) in
  let s0 := set_processedMessageIds (<[threadKey := ledger]> (processedMessageIds s)) s in
  if bool_decide (r_id raw ∈ ledger) then Ret s0
  else
    let matchId := Js.or_str (r_tempId raw) (r_id raw) in
    match messagesCache s0 !! threadKey with
    | None => Throw
    | Some cache =>
        match pendingMessages s0 !! matchId with
        | Some _ =>
            (* STEP 2: our own placeholder coming back *)
            let s1 := set_bubbles
                        (Dom.update (Dom.by_temp_id matchId) (Dom.confirm (r_id raw)) (bubbles s0)) s0 in
            let formattedMessage := formatMessage env raw in
            cacheIndex ← Arr.findIndex
               (fun m => opt_eqb (m_tempId m) matchId || String.eqb (m_id m) matchId) cache;
            let cache' :=
              match cacheIndex with
              | Some k => <[k := formattedMessage]> cache
              | None => cache
              end in
            let s2 := set_messagesCache (<[threadKey := cache']> (messagesCache s1)) s1 in
            let s3 := set_pendingMessages (delete matchId (pendingMessages s2)) s2 in
            Ret (markProcessed threadKey (r_id raw) s3)
        | None =>
            (* STEP 3: a new message *)
            existsInCache ← Arr.some (fun m => String.eqb (m_id m) (r_id raw)) cache;
            if (existsInCache : bool) then Ret (markProcessed threadKey (r_id raw) s0)
            else
              match formatMessage env raw with
              | None => Ret s0
              | Some formattedMessage =>
                  sorted ← Arr.sort (cache ++ [Some formattedMessage]);
                  let s1 := set_messagesCache (<[threadKey := sorted]> (messagesCache s0)) s0 in
                  let s2 := markProcessed threadKey (r_id raw) s1 in
                  if viewing viewId s2 then renderChat sorted s2 else Ret s2
              end
        end
    end.

(** [profile?.displayName || profile?.name || currentUser.displayName
     || currentUser.email?.split('@')[0] || 'User'] *)
Definition senderNameOf (env : Env) (u : User) : string :=
  let pr := profileOf env (uid u) in
  Js.or_str (p_displayName pr) (Js.or_str (p_name pr) (Common.senderNameOf u)).

(** The [finally] of [uploadAndSendAttachment], followed, when the
    composer awaited the upload, by the reset of its own latch. *)
Definition finish (tk : UploadTask) (s : State) : State :=
  let s1 := set_isUploading false s in
  if t_fromComposer tk then set_isSending false s1 else s1.

(** [uploadAndSendAttachment(threadType, threadId, caption, currentUser,
    attachment = null)] up to [await uploadFile(...)]; the awaited profile
    and preview reads are folded in. *)
Definition uploadAndSendAttachment (env : Env) (threadType threadId caption : string)
    (u : User) (attachment : option Attachment) (fromComposer : bool) (s : State) : Step :=
  if isUploading s then Settled s
  else
    let s0 := set_isUploading true s in
    let attachmentToUse :=
      match attachment with
      | Some a => Some a
      | None => pendingAttachment s0
      end in
    match attachmentToUse ≫= a_file with
    | None => Escaped (set_isUploading false s0)
    | Some f =>
        let '(tempId, ps) := PushId.genTempId (now env) (random env) (pushState s0) in
        let s1 := set_pushState ps s0 in
        let tk := mkTask tempId threadType threadId caption u (senderNameOf env u) f fromComposer in
        let placeholder := uploadPlaceholder tk (now env) in
        let s2 := set_pendingMessages (<[tempId := placeholder]> (pendingMessages s1)) s1 in
        let s3 := Dom.appendMessage placeholder s2 in
        if uploadServiceReady env then Await s3 (Upload tk)
        else Settled (set_isUploading false (uploadFailed tk s3))
    end.

(** After [await uploadFile(...)]. *)
Definition uploadSettled (env : Env) (o : UploadService.Outcome) (tk : UploadTask) (s : State)
  : Step :=
  match o with
  | UploadService.Rejected => Settled (finish tk (uploadFailed tk s))
  | UploadService.Resolved url size mime =>
      if saveMessageReady env then
        Await (set_remoteWrites
                 (remoteWrites s ++
                    [mkWrite (t_threadType tk) (t_threadId tk) (finalMessage tk url size mime (now env))]) s)
              (UploadSave tk url)
      else Settled (finish tk (uploadFailed tk s))
  end.

(** After [await saveMessage(...)] in [uploadAndSendAttachment]. *)
Definition uploadSaved (ok : bool) (tk : UploadTask) (s : State) : State :=
  finish tk
    (if ok then set_pendingAttachment None (Dom.updateMessageStatus (t_tempId tk) "sent" s)
     else uploadFailed tk s).

(** [sendMessageFromComposer()] up to its first [await] that follows the
    placeholder; the awaited profile read is folded in. *)
Definition sendMessageFromComposer (env : Env) (s : State) : Step :=
  if isSending s then Settled s
  else
    let s0 := set_isSending true s in
    match composer s0 with
    | None => Settled (set_isSending false s0)
    | Some value =>
        let text := Js.trim value in
        let hasPendingAttachment := bool_decide (is_Some (pendingAttachment s0)) in
        let hasText := (0 <? String.length text)%nat in
        if negb hasPendingAttachment && negb hasText then Settled (set_isSending false s0)
        else
          let s1 := set_composer (Some "") s0 in
          match currentUser env with
          | None => Settled (set_isSending false s1)
          | Some u =>
              let currentViewId := Js.or_str (currentView s1) "" in
              if String.eqb currentViewId "" then Settled (set_isSending false s1)
              else
                let threadType :=
                  if existsb (String.eqb currentViewId) (rooms s1) then "room" else "dm" in
                if hasPendingAttachment then
                  let attachmentToSend := pendingAttachment s1 in
                  let s2 := set_pendingAttachment None s1 in
                  match uploadAndSendAttachment env threadType currentViewId text u
                          attachmentToSend true s2 with
                  | Settled s' => Settled (set_isSending false s')
                  | Escaped s' => Settled (set_isSending false s')
                  | Await s' p => Await s' p
                  end
                else
                  let '(tempId, ps) := PushId.genTempId (now env) (random env) (pushState s1) in
                  let s2 := set_pushState ps s1 in
                  let name := senderNameOf env u in
                  let placeholder := textPlaceholder tempId text u name (now env) in
                  let s3 := set_pendingMessages (<[tempId := placeholder]> (pendingMessages s2)) s2 in
                  let s4 := Dom.appendMessage placeholder s3 in
                  if saveMessageReady env then
                    Await (set_remoteWrites
                             (remoteWrites s4 ++
                                [mkWrite threadType currentViewId
                                   (textToSave tempId text u name (now env))]) s4)
                          (TextSave tempId)
                  else Settled (set_isSending false s4)
          end
    end.

(** After [await saveMessage(...)] in [sendMessageFromComposer]; the
    [finally] resets the latch. *)
Definition textSaved (ok : bool) (tempId : string) (s : State) : State :=
  set_isSending false (Driver1.textSaved ok tempId s).

(** [retryUpload(tempId)]: the upload is started without an attachment
    argument and falls back to [pendingAttachment]. *)
Definition retryUpload (env : Env) (tempId : string) (s : State) : Step :=
  match failedUploads s !! tempId with
  | None => Settled s
  | Some uploadData =>
      let s1 := set_failedUploads (delete tempId (failedUploads s)) s in
      let s2 := set_bubbles
                  (Dom.update (Dom.by_message_id tempId)
                     (fun b => Dom.set_status "uploading" (Dom.set_retry false b)) (bubbles s1)) s1 in
      let s3 := set_pendingAttachment (Some (mkAttachment (Some (fu_file uploadData)) None)) s2 in
      uploadAndSendAttachment env (fu_threadType uploadData) (fu_threadId uploadData)
        (fu_caption uploadData) (fu_currentUser uploadData) None false s3
  end.

Definition cancelFileUpload := Common.cancelFileUpload.

End Driver2.

(** ** The message queue of the second driver
    ([queueMessage], [processMessageQueue])

    No caller of [queueMessage] exists in the sources; the queue is
    embedded on its own, with the callback's effect recorded as the list
    of items it was called for. *)

Module Queue.

(** An entry [{ rawMessage, callback, timestamp }]. *)
Record QItem : Type := mkItem {
  q_raw : RawMessage;
  q_callback : bool;       (* a callback was given *)
  q_timestamp : Z
}.

(** [messageQueue] and [isProcessingQueue], with three observers:
    [running], the items whose [await this.formatMessage(...)] has not
    settled; [taken], the items shifted from the buffer, in order;
    [applied], the items whose callback was called, in order. *)
Record Q : Type := mkQ {
  messageQueue : list QItem;
  isProcessingQueue : bool;
  running : list QItem;
  taken : list QItem;
  applied : list QItem
}.

Definition init : Q := mkQ [] false [] [] [].

(** One turn of the [while] loop of [processMessageQueue] up to the
    [await]: [shift()] the head and start its enrichment; leave the loop
    and reset the flag when the buffer is empty. *)
Definition next (q : Q) : Q :=
  match messageQueue q with
  | [] => mkQ [] false (running q) (taken q) (applied q)
  | it :: rest => mkQ rest (isProcessingQueue q) (running q ++ [it]) (taken q ++ [it]) (applied q)
  end.

(** [processMessageQueue()] up to its first [await]. *)
Definition processMessageQueue (q : Q) : Q :=
  if isProcessingQueue q || bool_decide (messageQueue q = []) then q
  else next (mkQ (messageQueue q) true (running q) (taken q) (applied q)).

(** [rawMessage.createdAt || Date.now()] *)
Definition timestampOf (raw : RawMessage) (now : Z) : Z :=
  match r_createdAt raw with
  | Some t => if t =? 0 then now else t
  | None => now
  end.

(** [queueMessage(rawMessage, callback)] up to its first [await]. *)
Definition queueMessage (now : Z) (raw : RawMessage) (callback : bool) (q : Q) : Q :=
  let pushed := messageQueue q ++ [mkItem raw callback (timestampOf raw now)] in
  let q1 := mkQ (sort_by q_timestamp pushed) (isProcessingQueue q)
                (running q) (taken q) (applied q) in
  if negb (isProcessingQueue q1) then processMessageQueue q1 else q1.

(** The awaited [formatMessage] of the running item settles: with a
    message, with [null], or by throwing ([Throw]; an exception of the
    callback is caught by the same [catch]).  The loop then goes on. *)
Definition settle (r : res (option Message)) (q : Q) : Q :=
  match running q with
  | [] => q
  | it :: others =>
      let called :=
        match r with
        | Ret (Some _) => q_callback it
        | _ => false
        end in
      next (mkQ (messageQueue q) (isProcessingQueue q) others (taken q)
              (if called then applied q ++ [it] else applied q))
  end.

(** What a schedule is made of. *)
Inductive event : Type :=
  | Arrive (now : Z) (raw : RawMessage) (callback : bool)
  | Settle (r : res (option Message)).

Definition step (e : event) (q : Q) : Q :=
  match e with
  | Arrive now raw cb => queueMessage now raw cb q
  | Settle r => settle r q
  end.

Definition run (evs : list event) (q : Q) : Q := foldl (fun q e => step e q) q evs.

(** The entries a schedule pushes, in order of arrival. *)
Definition items (evs : list event) : list QItem :=
  flat_map (fun e => match e with
                     | Arrive now raw cb => [mkItem raw cb (timestampOf raw now)]
                     | Settle _ => []
                     end) evs.

(** A schedule is timely from [q] when no event arrives with a
    timestamp earlier than that of an item already taken from the
    buffer. *)
Fixpoint timely (evs : list event) (q : Q) : bool :=
  match evs with
  | [] => true
  | e :: r =>
      match e with
      | Arrive now raw _ => forallb (fun it => q_timestamp it <=? timestampOf raw now) (taken q)
      | Settle _ => true
      end && timely r (step e q)
  end.

(** The invariant of the processing loop. *)
Record Inv (q : Q) : Prop := mkInv {
  inv_single : (length (running q) <= 1)%nat;
  inv_sorted : StronglySorted (le_key q_timestamp) (messageQueue q);
  inv_flag : isProcessingQueue q = true <-> running q <> [];
  inv_busy : running q = [] -> messageQueue q = []
}.

(** What timely schedules keep in addition. *)
Record Ord (q : Q) : Prop := mkOrd {
  ord_taken : StronglySorted (le_key q_timestamp) (taken q);
  ord_buffer : forall x y, x ∈ taken q -> y ∈ messageQueue q -> (le_key q_timestamp) x y;
  ord_applied : StronglySorted (le_key q_timestamp) (applied q);
  ord_sub : forall x, x ∈ applied q -> x ∈ taken q;
  ord_running : forall x y, x ∈ applied q -> y ∈ running q -> (le_key q_timestamp) x y;
  ord_run_taken : forall x, x ∈ running q -> x ∈ taken q
}.

(** A schedule in which every event comes with a callback and every
    enrichment returns a message. *)
Definition succeeds (evs : list event) : bool :=
  forallb (fun e => match e with
                    | Arrive _ _ cb => cb
                    | Settle (Ret (Some _)) => true
                    | Settle _ => false
                    end) evs.

(** What a settled enrichment hands to the callback of its item. *)
Definition handed (r : res (option Message)) (it : QItem) : list QItem :=
  match r with
  | Ret (Some _) => if q_callback it then [it] else []
  | _ => []
  end.

(** Every item in the buffer or being enriched has a callback. *)
Definition withCallback (q : Q) : Prop :=
  Forall (fun it => q_callback it = true) (messageQueue q ++ running q).

(** What is applied was taken, and came with a callback. *)
Definition appliedOk (q : Q) : Prop :=
  (forall x, x ∈ running q -> x ∈ taken q) /\
  (forall x, x ∈ applied q -> x ∈ taken q /\ q_callback x = true).

End Queue.

(** ** Fixtures: a signed-in user in the room "general" *)

Module Fixture.
Import Common.

Definition T : Z := 1700000000000.

Definition alice : User := mkUser "u1" (Some "Alice") (Some "alice@sink.in").

Definition envAt (t : Z) (draw : Z) : Env :=
  mkEnv (Some alice) t (fun _ => draw) (fun _ => mkProfile (Some "Alice") None) true true.

Definition env0 : Env := envAt T 7.

(** The application object once [openRoom("general")] has run for the
    first time: the cache of the thread is empty and [renderChatLoading]
    shows the spinner, without composer or messages container. *)
Definition loading : State :=
  mkS {["room:general" := []]} ∅ false false None ∅ ∅ ∅ PushId.init
      (Some "general") ["general"] None false [] [].

Definition typed (text : string) (s : State) : State := set_composer (Some text) s.

Definition picked (f : File) (s : State) : State :=
  set_pendingAttachment (Some (mkAttachment (Some f) (Some (file_type f)))) s.

(** The record [listenForMessages] delivers for a write: [tempId] is not
    among the properties it copies. *)
Definition echo (w : Write) : RawMessage :=
  let m := w_message w in
  mkRaw (m_id m) None (m_senderId m) (m_senderName m) (m_text m) (Some (m_createdAt m))
        (m_image m) (m_video m) (m_file m).

(** A message of another user. *)
Definition fromBob (i : string) (t : Z) : RawMessage :=
  mkRaw i None (Some "u2") (Some "Bob") (Some "hi") (Some t) None None None.

Definition settled (r : res State) : State :=
  match r with
  | Ret s => s
  | Throw => loading
  end.

(** The room once its history, one message of Bob sent a minute before
    [T], has been delivered: the chat view is rendered. *)
Definition opened1 : State :=
  settled (Driver1.listener "general" "room:general" env0 (fromBob "-bob" (T - 60000)) loading).
Definition opened2 : State :=
  settled (Driver2.listener "general" "room:general" env0 (fromBob "-bob" (T - 60000)) loading).

Definition ids (l : list (option Message)) : list (option string) :=
  map (option_map m_id) l.

Definition photo : File := mkFile "cat.png" "image/png" 1048576.
Definition bigPhoto : File := mkFile "big.png" "image/png" 11534336.

End Fixture.

(** ** Scenarios *)

Module Scenario.
Import Common Fixture.

Definition room : string := "general".
Definition key : string := "room:general".

(** The identifier the generator issues at [T] with every draw equal to 7. *)
Definition K : string := "--NjEtLV-666666666666".

(** The record written for the text "hello". *)
Definition helloWrite : Write := mkWrite "room" room (textToSave K "hello" alice "Alice" T).

(** Alice sends "hello": the command is suspended at [saveMessage]. *)
Definition sent1 : State := state_of (Driver1.sendMessageFromComposer env0 (typed "hello" opened1)).
Definition sent2 : State := state_of (Driver2.sendMessageFromComposer env0 (typed "hello" opened2)).

(** The first driver after a message of Bob, stamped [T + 100], was
    applied to the room. *)
Definition bobOnce : State :=
  settled (Driver1.listener room key env0 (fromBob "-bob" (T + 100)) loading).

(** Alice then sends "hello" at [T]: Bob's clock runs ahead of hers. *)
Definition sentAfterBob : State :=
  state_of (Driver1.sendMessageFromComposer env0 (typed "hello" bobOnce)).

(** Alice picks a file and sends it: the command is suspended at
    [uploadFile]. *)
Definition uploading1 (f : File) : Step :=
  Driver1.sendMessageFromComposer env0 (picked f opened1).
Definition uploading2 (f : File) : Step :=
  Driver2.sendMessageFromComposer env0 (picked f opened2).

Definition photoTask (fromComposer : bool) : UploadTask :=
  mkTask K "room" room "" alice "Alice" photo fromComposer.

(** The environment of a later turn. *)
Definition env1 : Env := envAt (T + 5000) 9.

(** The identifier issued at [T + 5000] with every draw equal to 9. *)
Definition K' : string := "--NjEtMi7888888888888".

(** Both drivers: the transfer of [photo] fails, the user presses Retry. *)
Definition failed2 : State :=
  state_of (Driver2.uploadSettled env0 (UploadService.uploadFile photo UploadService.NetFail)
              (photoTask true) (state_of (uploading2 photo))).
Definition failed1 : State :=
  state_of (Driver1.uploadSettled env0 (UploadService.uploadFile photo UploadService.NetFail)
              (photoTask true) (state_of (uploading1 photo))).

(** The generator after a call at [T] in which every draw was 63. *)
Definition maxed : string * PushId.state := PushId.genTempId T (fun _ => 63) PushId.init.

(** Scenario D: three historical events with the timestamps [T + 30],
    [T + 10], [T + 20] are queued in this order, then the three
    enrichments settle one after the other. *)
Definition enriched (raw : RawMessage) : res (option Message) :=
  Ret (Driver2.formatMessage env0 raw).

Definition scenarioD : list Queue.event :=
  [Queue.Arrive T (fromBob "-m30" (T + 30)) true;
   Queue.Arrive T (fromBob "-m10" (T + 10)) true;
   Queue.Arrive T (fromBob "-m20" (T + 20)) true;
   Queue.Settle (enriched (fromBob "-m30" (T + 30)));
   Queue.Settle (enriched (fromBob "-m10" (T + 10)));
   Queue.Settle (enriched (fromBob "-m20" (T + 20)))].

(** The same events, delivered oldest first. *)
Definition inOrder : list Queue.event :=
  [Queue.Arrive T (fromBob "-m10" (T + 10)) true;
   Queue.Arrive T (fromBob "-m20" (T + 20)) true;
   Queue.Settle Throw;
   Queue.Arrive T (fromBob "-m30" (T + 30)) true;
   Queue.Settle (enriched (fromBob "-m20" (T + 20)));
   Queue.Settle (enriched (fromBob "-m30" (T + 30)))].

(** The same events as [inOrder], every enrichment returning a message. *)
Definition oldestFirst : list Queue.event :=
  [Queue.Arrive T (fromBob "-m10" (T + 10)) true;
   Queue.Arrive T (fromBob "-m20" (T + 20)) true;
   Queue.Settle (enriched (fromBob "-m10" (T + 10)));
   Queue.Arrive T (fromBob "-m30" (T + 30)) true;
   Queue.Settle (enriched (fromBob "-m20" (T + 20)));
   Queue.Settle (enriched (fromBob "-m30" (T + 30)))].

End Scenario.

(** ** Predicates used in the statements *)

Module Spec.
Import Common.

(** Sending the attachment [f] from [s] creates the placeholder and
    suspends at the transfer; however the network behaves, the transfer
    is then rejected and the [catch] block runs: nothing is written to the
    log, the cache is as before, the placeholder stays registered, the
    retry data is stored and the bubble shows 'failed' with the Retry
    button. *)
Definition fails_after_placeholder
    (send : Env -> State -> Step)
    (settled : Env -> UploadService.Outcome -> UploadTask -> State -> Step)
    (env : Env) (s : State) (f : File) : Prop :=
  exists s1 tk,
    send env s = Await s1 (Upload tk) /\ t_file tk = f /\
    is_Some (pendingMessages s1 !! t_tempId tk) /\
    forall env' net, exists s2,
      settled env' (UploadService.uploadFile f net) tk s1 = Settled s2 /\
      remoteWrites s2 = remoteWrites s /\
      messagesCache s2 = messagesCache s /\
      is_Some (pendingMessages s2 !! t_tempId tk) /\
      is_Some (failedUploads s2 !! t_tempId tk) /\
      exists b, In b (bubbles s2) /\ b_message_id b = t_tempId tk /\
                b_status b = "failed" /\ b_retry b = true.

(** A cache as the listeners build it: no [null] slot, formatted messages
    only (they carry no [tempId]), and no id twice. *)
Definition wf_cache (l : list (option Message)) : Prop :=
  exists ms, Arr.objs l = Some ms /\
             Forall (fun m => m_tempId m = None) ms /\
             NoDup (map m_id ms).

(** A cache that iterates in non-decreasing [createdAt] order. *)
Definition sorted_cache (l : list (option Message)) : Prop :=
  exists ms, Arr.objs l = Some ms /\ sorted_by m_createdAt ms = true.

(** [m => m.id === rawMessage.id] *)
Definition same_id (raw : RawMessage) (m : Message) : bool := String.eqb (m_id m) (r_id raw).

End Spec.

(** ** Runs of the identifier generator *)

Module PushRun.
Import PushId.

(** The keys returned by successive calls of [genTempId], each call with
    its clock reading and its random draws. *)
Fixpoint issue (calls : list (Z * (nat -> Z))) (st : state) : list string :=
  match calls with
  | [] => []
  | (now, rnd) :: rest =>
      fst (genTempId now rnd st) :: issue rest (snd (genTempId now rnd st))
  end.

(** The clock never goes back and stays below [64^8] milliseconds, the
    draws are symbol indices, and no call falls into a millisecond whose
    twelve suffix symbols are all at the maximum. *)
Fixpoint steady (calls : list (Z * (nat -> Z))) (st : state) : Prop :=
  match calls with
  | [] => True
  | (now, rnd) :: rest =>
      _lastPushTime st <= now < 64 ^ 8 /\
      (forall i, 0 <= rnd i <= 63) /\
      (now = _lastPushTime st -> ~ maxed_out (_lastRandChars st)) /\
      steady rest (snd (genTempId now rnd st))
  end.

(** Each key is strictly below the next in the order of the strings. *)
Fixpoint increasing (keys : list string) : bool :=
  match keys with
  | [] => true
  | k :: rest =>
      match rest with
      | [] => true
      | k' :: _ => String.ltb k k' && increasing rest
      end
  end.

(** The key spelled by the state of the generator. *)
Definition spelled (st : state) : string :=
  "-" +:+ timeStampChars 8 (_lastPushTime st) "" +:+ randChars 12 0 (_lastRandChars st).

End PushRun.

(** ** Router ([getRouteFromHash], [applyRoute], [navigateTo]; the same in
    both drivers) *)

Module Router.

(** The route objects: [{ type: 'welcome', id: null }],
    [{ type: 'room', id }] and [{ type: 'chat', id }]. *)
Inductive Route : Type :=
  | Welcome
  | Room (id : string)
  | Chat (id : string).

(** [s.split(sep)] for a one-character separator: the pieces between the
    separators, empty pieces included; [''.split(sep)] is [['']]. *)
Fixpoint split (sep : ascii) (s : string) : list string :=
  match s with
  | EmptyString => [EmptyString]
  | String c r =>
      if Ascii.eqb c sep then EmptyString :: split sep r
      else match split sep r with
           | x :: xs => String c x :: xs
           | [] => [String c EmptyString]
           end
  end.

(** [s.slice(1)] *)
Definition slice1 (s : string) : string :=
  match s with
  | EmptyString => EmptyString
  | String _ r => r
  end.

(** [getRouteFromHash()], as a function of [window.location.hash]. *)
Definition getRouteFromHash (locationHash : string) : Route :=
  let hash := slice1 locationHash in
  if String.eqb hash "" then Welcome
  else
    let parts := split "/" hash in
    let routeType := parts !! 0%nat in
    let routeId := parts !! 1%nat in
    if Common.opt_eqb routeType "room" && Js.truthy routeId then Room (Js.or_str routeId "")
    else if Common.opt_eqb routeType "chat" && Js.truthy routeId then Chat (Js.or_str routeId "")
    else Welcome.

(** [navigateTo(routeType, id)]: the string assigned to
    [window.location.hash]; [assignHash] below is what the browser makes
    of it. *)
Definition navigateTo (routeType id : string) : string :=
  if String.eqb routeType "room" then "#room/" +:+ id
  else if String.eqb routeType "chat" then "#chat/" +:+ id
  else "".

(** What [applyRoute(route)] calls. *)
Inductive View : Type :=
  | OpenRoom (id : string)
  | OpenChat (id : string)
  | ShowWelcome.

Definition applyRoute (route : Route) : View :=
  match route with
  | Room id => if String.eqb id "" then ShowWelcome else OpenRoom id
  | Chat id => if String.eqb id "" then ShowWelcome else OpenChat id
  | Welcome => ShowWelcome
  end.

(** The text of [id] up to its first ['/']. *)
Fixpoint upToSlash (id : string) : string :=
  match id with
  | EmptyString => EmptyString
  | String c r => if Ascii.eqb c "/" then EmptyString else String c (upToSlash r)
  end.

(** What [window.location.hash] reads after the assignment
    [window.location.hash = value], as the URL Standard has it (hash
    setter, fragment state): one leading number sign of [value] is set
    aside, tabs and newlines are removed, and every byte of the fragment
    percent-encode set (the C0 controls, the space, the double quote,
    the angle brackets, the backquote and every byte above the tilde) is
    written as a percent sign and two upper-case hexadecimal digits; a
    fragment that is not empty is read back behind a number sign. *)
Definition hexDigit (n : nat) : ascii :=
  if (n <? 10)%nat then ascii_of_nat (48 + n) else ascii_of_nat (55 + n).

Definition percent (c : ascii) : string :=
  let n := nat_of_ascii c in
  String "%" (String (hexDigit (n / 16)) (String (hexDigit (n mod 16)) EmptyString)).

Definition dropped (c : ascii) : bool :=
  let n := nat_of_ascii c in
  (n =? 9)%nat || (n =? 10)%nat || (n =? 13)%nat.

Definition encoded (c : ascii) : bool :=
  let n := nat_of_ascii c in
  (n <=? 31)%nat || (127 <=? n)%nat || (n =? 32)%nat || (n =? 34)%nat || (n =? 60)%nat
  || (n =? 62)%nat || (n =? 96)%nat.

Fixpoint fragment (input : string) : string :=
  match input with
  | EmptyString => EmptyString
  | String c r =>
      if dropped c then fragment r
      else if encoded c then percent c +:+ fragment r
      else String c (fragment r)
  end.

Definition assignHash (value : string) : string :=
  let input :=
    match value with
    | String c r => if Ascii.eqb c "#" then r else value
    | EmptyString => value
    end in
  if String.eqb (fragment input) "" then "" else String "#" (fragment input).

(** A character of an id that the assignment and [split('/')] leave as
    it is. *)
Definition plain (c : ascii) : bool :=
  negb (dropped c) && negb (encoded c) && negb (Ascii.eqb c "/").

(** A character that the assignment neither removes nor encodes. *)
Definition written (c : ascii) : bool := negb (dropped c) && negb (encoded c).

End Router.

(** ** Opening and leaving a thread (first driver; the second driver does
    the same up to the listener it attaches) *)

Module Nav.





(** A driver at rest on a thread: no placeholder is pending, and
    the cache of the thread holds the formatted messages [ms], none
    twice, in non-decreasing [createdAt] order. *)
Record Quiet (threadKey : string) (s : State) (ms : list Message) : Prop := mkQuiet {
  quiet_pending : pendingMessages s = ∅;
  quiet_cache : messagesCache s !! threadKey = Some (Some <$> ms);
  quiet_tempId : Forall (fun m => m_tempId m = None) ms;
  quiet_ids : NoDup (map m_id ms);
  quiet_sorted : sorted_by m_createdAt ms = true
}.

End Nav.

(** ** The thread listener of the first driver on its plain-object table

    [pendingMessages] is created as [{}]: the test
    [this.pendingMessages[matchId]] of the callback finds, besides the
    placeholders the table holds, every member the table inherits.
    [Driver1.listener] is the callback where the test finds a
    placeholder of the table's own or nothing; [callback] is the
    callback on every record. *)

Module Table.
Import Common.

(** The members of [Object.prototype]; all of them are truthy. *)
Definition objectMembers : list string :=
  ["constructor"; "__proto__"; "hasOwnProperty"; "isPrototypeOf"; "propertyIsEnumerable";
   "toLocaleString"; "toString"; "valueOf"; "__defineGetter__"; "__defineSetter__";
   "__lookupGetter__"; "__lookupSetter__"].

Definition objectMember (key : string) : bool :=
  existsb (String.eqb key) objectMembers.

(** The application object of the first driver together with the object
    that an assignment to [pendingMessages['__proto__']] has installed
    as the prototype of the table; [None] while the prototype is
    [Object.prototype]. *)
Record Session : Type := mkSession {
  app : State;
  pendingProto : option Message
}.

(** [m[key]] is truthy, for the object
    [{ ...formattedMessage, status: 'delivered' }] that the callback
    builds from a message [formatMessage] returned: its properties are
    [id], [type], [sender], [text], [time], [createdAt], [avatar],
    [image], [video], [file] and [status]; [time] is the empty text
    exactly when [createdAt] is 0, and [avatar] is never empty. *)
Definition fieldTruthy (m : Message) (key : string) : bool :=
  if String.eqb key "id" then Js.truthy (Some (m_id m))
  else if String.eqb key "type" then Js.truthy (Some (m_type m))
  else if String.eqb key "sender" then Js.truthy (m_sender m)
  else if String.eqb key "text" then Js.truthy (m_text m)
  else if String.eqb key "time" then negb (m_createdAt m =? 0)
  else if String.eqb key "createdAt" then negb (m_createdAt m =? 0)
  else if String.eqb key "avatar" then true
  else if String.eqb key "image" then Js.truthy (m_image m)
  else if String.eqb key "video" then Js.truthy (m_video m)
  else if String.eqb key "file" then bool_decide (is_Some (m_file m))
  else if String.eqb key "status" then Js.truthy (m_status m)
  else false.

(** [this.pendingMessages[key]] is truthy although the table has no
    property [key] of its own: [key] is ['__proto__'] (the prototype
    itself), or names a truthy property of the installed prototype, or
    a member of [Object.prototype]. *)
Definition inherited (proto : option Message) (key : string) : bool :=
  String.eqb key "__proto__"
  || match proto with
     | Some m => fieldTruthy m key
     | None => false
     end
  || objectMember key.

(** The callback.  On a member the table inherits it takes branch 1:
    the assignment [this.pendingMessages[matchId] = { ... }] creates a
    property that the [delete] at the end of the branch removes again,
    except for ['__proto__'], where it installs the merged object as the
    prototype and the [delete] finds nothing; the bubble carrying the id
    as [data-temp-id] is updated; the message replaces the cache entry
    with its id or is pushed behind the others, without sort or
    render. *)
Definition callback (viewId threadKey : string) (env : Env) (raw : RawMessage) (ss : Session)
  : res Session :=
  match Driver1.formatMessage env raw with
  | None => Ret ss
  | Some formattedMessage =>
      let s := app ss in
      let matchId := Js.or_str (m_tempId formattedMessage) (m_id formattedMessage) in
      if bool_decide (is_Some (pendingMessages s !! matchId))
         || negb (inherited (pendingProto ss) matchId)
      then
        s' ← Driver1.listener viewId threadKey env raw s;
        Ret (mkSession s' (pendingProto ss))
      else
        match messagesCache s !! threadKey with
        | None => Throw
        | Some cache =>
            let proto :=
              if String.eqb matchId "__proto__"
              then Some (set_m_status "delivered" formattedMessage)
              else pendingProto ss in
            let s2 := set_bubbles
                        (Dom.update (Dom.by_temp_id matchId)
                           (Dom.confirm (m_id formattedMessage)) (bubbles s)) s in
            cacheIndex ← Arr.findIndex
               (fun m => opt_eqb (m_tempId m) matchId || String.eqb (m_id m) matchId) cache;
            Ret (mkSession
                   (set_messagesCache
                      (<[threadKey := Driver1.replaceOrPush cacheIndex formattedMessage cache]>
                         (messagesCache s2)) s2)
                   proto)
        end
  end.

(** [listenForMessages] calls the callback once for every record of the
    thread, each call running to its end before the next. *)
Fixpoint deliver (viewId threadKey : string) (env : Env) (raws : list RawMessage) (ss : Session)
  : res Session :=
  match raws with
  | [] => Ret ss
  | raw :: rest =>
      ss1 ← callback viewId threadKey env raw ss;
      deliver viewId threadKey env rest ss1
  end.

(** The cache of a thread as ids and timestamps. *)
Definition entries (threadKey : string) (ss : Session) : list (option (string * Z)) :=
  map (option_map (fun m => (m_id m, m_createdAt m)))
      (default [] (messagesCache (app ss) !! threadKey)).

(** A record of Bob, stored without [createdAt]. *)
Definition undated : Message :=
  mkMessage "" None "text" None None (Some "hi") (Some "u2") (Some "Bob") None 0
            None None None None None None.

End Table.

(** ** The thread listener of the second driver, call by call

    The callback is [async] and [listenForMessages] does not wait for
    it: a call runs up to its [await this.formatMessage(rawMessage)],
    and goes on when the enrichment has settled, other calls having
    begun or ended in between.  [Driver2.listener] is a call that
    nothing interrupts.  What the enrichment settles with is given with
    the event: [formatMessage] reads the session, the clock and the
    profiles, and throws where [encodeURIComponent] does.  A call that
    throws rejects a promise nobody holds; the run stops there
    ([Throw]), except for a throw of the enrichment itself, after which
    the other calls go on. *)

Module Calls.
Import Common.

(** A call suspended at its [await]: in STEP 2 (the test
    [this.pendingMessages[matchId]] was truthy, for a placeholder or for
    a member the table inherits), or in STEP 3. *)
Inductive Waiting : Type :=
  | Echo (raw : RawMessage) (matchId : string)
  | Fresh (raw : RawMessage).

Definition rawOf (c : Waiting) : RawMessage :=
  match c with
  | Echo raw _ => raw
  | Fresh raw => raw
  end.

Definition idOf (c : Waiting) : string := r_id (rawOf c).

(** [rawMessage.tempId || rawMessage.id] *)
Definition matchIdOf (raw : RawMessage) : string := Js.or_str (r_tempId raw) (r_id raw).

(** The callback up to its [await], or to its end when it returns
    before. *)
Definition begin (threadKey : string) (raw : RawMessage) (s : State)
  : res (State * option Waiting) :=
  (* STEP 1 *)
  let ledger := default ∅ (processedMessageIds s !! threadKey) in
  let s0 := set_processedMessageIds (<[threadKey := ledger]> (processedMessageIds s)) s in
  if bool_decide (r_id raw ∈ ledger) then Ret (s0, None)
  else
    let matchId := matchIdOf raw in
    if bool_decide (is_Some (pendingMessages s0 !! matchId)) || Table.objectMember matchId
    then
      (* STEP 2 *)
      Ret (set_bubbles
             (Dom.update (Dom.by_temp_id matchId) (Dom.confirm (r_id raw)) (bubbles s0)) s0,
           Some (Echo raw matchId))
    else
      (* STEP 3 *)
      match messagesCache s0 !! threadKey with
      | None => Throw
      | Some cache =>
          existsInCache ← Arr.some (fun m => String.eqb (m_id m) (r_id raw)) cache;
          if (existsInCache : bool)
          then Ret (Driver2.markProcessed threadKey (r_id raw) s0, None)
          else Ret (s0, Some (Fresh raw))
      end.

(** The rest of the call, once [formatMessage] has settled: with a
    message, with [null], or by throwing ([Throw]), which ends the call
    where it stands. *)
Definition resume (viewId threadKey : string) (c : Waiting) (r : res (option Message))
    (s : State) : res State :=
  match r with
  | Throw => Ret s
  | Ret formattedMessage =>
      match c with
      | Echo raw matchId =>
          match messagesCache s !! threadKey with
          | None => Throw
          | Some cache =>
              cacheIndex ← Arr.findIndex
                 (fun m => opt_eqb (m_tempId m) matchId || String.eqb (m_id m) matchId) cache;
              let cache' :=
                match cacheIndex with
                | Some k => <[k := formattedMessage]> cache
                | None => cache
                end in
              let s2 := set_messagesCache (<[threadKey := cache']> (messagesCache s)) s in
              let s3 := set_pendingMessages (delete matchId (pendingMessages s2)) s2 in
              Ret (Driver2.markProcessed threadKey (r_id raw) s3)
          end
      | Fresh raw =>
          match formattedMessage with
          | None => Ret s
          | Some fm =>
              match messagesCache s !! threadKey with
              | None => Throw
              | Some cache =>
                  sorted ← Arr.sort (cache ++ [Some fm]);
                  let s1 := set_messagesCache (<[threadKey := sorted]> (messagesCache s)) s in
                  let s2 := Driver2.markProcessed threadKey (r_id raw) s1 in
                  if viewing viewId s2 then Driver2.renderChat sorted s2 else Ret s2
              end
          end
      end
  end.

(** The application object with the calls that are suspended. *)
Record World : Type := mkWorld {
  appOf : State;
  waiting : list Waiting
}.

(** What happens to the listener: a record is delivered, or the
    enrichment of the [k]-th suspended call settles. *)
Inductive event : Type :=
  | Deliver (raw : RawMessage)
  | Settle (k : nat) (r : res (option Message)).

Definition step (viewId threadKey : string) (e : event) (w : World) : res World :=
  match e with
  | Deliver raw =>
      b ← begin threadKey raw (appOf w);
      Ret (mkWorld (fst b) (waiting w ++ option_list (snd b)))
  | Settle k r =>
      match waiting w !! k with
      | None => Ret w
      | Some c =>
          s' ← resume viewId threadKey c r (appOf w);
          Ret (mkWorld s' (delete k (waiting w)))
      end
  end.

Fixpoint run (viewId threadKey : string) (evs : list event) (w : World) : res World :=
  match evs with
  | [] => Ret w
  | e :: rest =>
      w1 ← step viewId threadKey e w;
      run viewId threadKey rest w1
  end.

(** The enrichment of the call [c] settles as [formatMessage] can: by
    throwing, with [null], or with a message that carries the id of the
    record and no [tempId]. *)
Definition shaped (c : Waiting) (r : res (option Message)) : bool :=
  match r with
  | Ret (Some fm) => String.eqb (m_id fm) (idOf c) && bool_decide (m_tempId fm = None)
  | _ => true
  end.

(** An event of an orderly schedule: a record is delivered whose id
    names no member of [Object.prototype], while no call for a record
    with the same id is suspended; an enrichment settles as
    [formatMessage] can. *)
Definition orderlyEvent (e : event) (w : World) : bool :=
  match e with
  | Deliver raw =>
      negb (Table.objectMember (matchIdOf raw))
      && bool_decide (r_tempId raw = None)
      && negb (existsb (fun c => String.eqb (idOf c) (r_id raw)) (waiting w))
  | Settle k r =>
      match waiting w !! k with
      | Some c => shaped c r
      | None => true
      end
  end.

Fixpoint orderly (viewId threadKey : string) (evs : list event) (w : World) : bool :=
  match evs with
  | [] => true
  | e :: rest =>
      orderlyEvent e w &&
      match step viewId threadKey e w with
      | Ret w1 => orderly viewId threadKey rest w1
      | Throw => true
      end
  end.

(** Every enrichment of the schedule returns a message. *)
Definition succeeds (evs : list event) : bool :=
  forallb (fun e => match e with
                    | Settle _ (Ret (Some _)) => true
                    | Settle _ _ => false
                    | Deliver _ => true
                    end) evs.

(** The ids of the records a schedule delivers. *)
Definition delivered (evs : list event) : list string :=
  flat_map (fun e => match e with
                     | Deliver raw => [r_id raw]
                     | Settle _ _ => []
                     end) evs.

(** [this.processedMessageIds[threadKey]], an empty set while the thread
    has none. *)
Definition ledger (threadKey : string) (s : State) : gset string :=
  default ∅ (processedMessageIds s !! threadKey).

(** The second driver between two events of an orderly schedule: the
    thread is at rest on the messages [ms], the ledger names cached
    messages only, and the suspended calls are in STEP 3, for records
    with different ids, none of them cached. *)
Record Calm (threadKey : string) (w : World) (ms : list Message) : Prop := mkCalm {
  calm_quiet : Nav.Quiet threadKey (appOf w) ms;
  calm_ledger : forall x, x ∈ ledger threadKey (appOf w) -> x ∈ map m_id ms;
  calm_fresh : Forall (fun c => exists raw, c = Fresh raw) (waiting w);
  calm_apart : NoDup (map idOf (waiting w));
  calm_new : forall x, x ∈ map idOf (waiting w) -> x ∉ map m_id ms
}.

(** What [formatMessage] returns for a record in the session of the
    fixtures. *)
Definition enriched (raw : RawMessage) : res (option Message) :=
  Ret (Driver2.formatMessage Fixture.env0 raw).

(** Two records of Bob are delivered in one burst, the younger first,
    and their enrichments settle in the other order. *)
Definition burst : list event :=
  [Deliver (Fixture.fromBob "-b2" (Fixture.T + 2));
   Deliver (Fixture.fromBob "-b1" (Fixture.T + 1));
   Settle 1 (enriched (Fixture.fromBob "-b1" (Fixture.T + 1)));
   Settle 0 (enriched (Fixture.fromBob "-b2" (Fixture.T + 2)))].

(** One record is delivered twice in one burst. *)
Definition twice : list event :=
  [Deliver (Fixture.fromBob "-b1" (Fixture.T + 1));
   Deliver (Fixture.fromBob "-b1" (Fixture.T + 1));
   Settle 0 (enriched (Fixture.fromBob "-b1" (Fixture.T + 1)));
   Settle 0 (enriched (Fixture.fromBob "-b1" (Fixture.T + 1)))].

(** The ids in the cache of a thread. *)
Definition cached (threadKey : string) (w : World) : list (option string) :=
  map (option_map m_id) (default [] (messagesCache (appOf w) !! threadKey)).

End Calls.

(** ** [escapeHtml] (the same in both drivers) *)

Module Html.

Definition dquote : ascii := "034"%char.
Definition squote : ascii := "039"%char.

(** [htmlEscapeMap[char]] for the six characters the regular expression
    of [escapeHtml] matches: ampersand, less-than, greater-than, double
    quote (34), single quote (39) and slash. *)
Definition htmlEscapeMap (c : ascii) : option string :=
  if Ascii.eqb c "&" then Some "&amp;"
  else if Ascii.eqb c "<" then Some "&lt;"
  else if Ascii.eqb c ">" then Some "&gt;"
  else if Ascii.eqb c dquote then Some "&quot;"
  else if Ascii.eqb c squote then Some "&#39;"
  else if Ascii.eqb c "/" then Some "&#x2F;"
  else None.

(** [str.replace(regexp, (char) => htmlEscapeMap[char])] with the global
    flag: every matched character is replaced by its entity. *)
Fixpoint replaceAll (str : string) : string :=
  match str with
  | EmptyString => EmptyString
  | String c r =>
      match htmlEscapeMap c with
      | Some entity => entity +:+ replaceAll r
      | None => String c (replaceAll r)
      end
  end.

(** [escapeHtml(input)] for [null]/[undefined] ([None]) and strings. *)
Definition escapeHtml (input : option string) : string :=
  replaceAll (match input with
              | None => ""
              | Some s => s
              end).

(** The characters the regular expression matches. *)
Definition special (c : ascii) : bool :=
  match htmlEscapeMap c with
  | Some _ => true
  | None => false
  end.

(** The characters that can open or close a tag or an attribute value. *)
Definition markup (c : ascii) : bool :=
  Ascii.eqb c "<" || Ascii.eqb c ">" || Ascii.eqb c dquote || Ascii.eqb c squote
  || Ascii.eqb c "/".

End Html.

(** ** Number and time formatting (the same in both drivers) *)

Module Fmt.

(** [String(n)] for an integer. *)
Definition showN (n : N) : string :=
  DecimalString.NilZero.string_of_uint (N.to_uint n).
Definition showZ (z : Z) : string :=
  if z <? 0 then "-" +:+ showN (Z.to_N (- z)) else showN (Z.to_N z).

Fixpoint zeros (n : nat) : string :=
  match n with
  | O => ""
  | S k => String "0" (zeros k)
  end.

(** [s.padStart(len, '0')] *)
Definition padStart0 (len : nat) (s : string) : string :=
  zeros (len - String.length s) +:+ s.

(** [x.toFixed(f)] for the number [x = num / den] with [den] a power of
    two, so that [x] is the exact value of the double: the integer [n]
    nearest to [|x| * 10^f], the larger one on a tie, written with [f]
    digits after the point and the sign of [x] in front. *)
Definition toFixed (f : nat) (num : Z) (den : positive) : string :=
  let a := Z.to_N (Z.abs num) in
  let n := ((2 * a * 10 ^ N.of_nat f + Npos den) / (2 * Npos den))%N in
  let m := padStart0 (f + 1) (showN n) in
  let k := String.length m in
  (if num <? 0 then "-" else "") +:+
  (if (f =? 0)%nat then m
   else String.substring 0 (k - f) m +:+ "." +:+ String.substring (k - f) f m).

(** [formatFileSize(bytes)]; [None] is a missing size. *)
Definition formatFileSize (bytes : option Z) : string :=
  match bytes with
  | None => "0 B"
  | Some b =>
      if b =? 0 then "0 B"
      else if b <? 1024 * 1024 then toFixed 1 b 1024 +:+ " KB"
      else toFixed 2 b 1048576 +:+ " MB"
  end.

(** What the [Date] objects of the browser answer: the local calendar
    fields of an instant, the instant of a local midnight
    ([new Date(y, m, d).getTime()]), and the instant one calendar day
    earlier ([setDate(getDate() - 1)]). *)
Record Clock : Type := mkClock {
  getHours : Z -> Z;
  getMinutes : Z -> Z;
  getFullYear : Z -> Z;
  getMonth : Z -> Z;
  getDate : Z -> Z;
  midnightOf : Z -> Z -> Z -> Z;
  dayBefore : Z -> Z
}.

(** [formatTime(timestamp)], which [formatMessageTime] repeats. *)
Definition formatTime (cl : Clock) (timestamp : Z) : string :=
  if timestamp =? 0 then ""
  else
    let hours := getHours cl timestamp in
    let minutes := getMinutes cl timestamp in
    let ampm := if 12 <=? hours then "PM" else "AM" in
    let formattedHours := if Z.rem hours 12 =? 0 then 12 else Z.rem hours 12 in
    let formattedMinutes := if minutes <? 10 then "0" +:+ showZ minutes else showZ minutes in
    showZ formattedHours +:+ ":" +:+ formattedMinutes +:+ " " +:+ ampm.

(** A clock that reads the same time of day at every instant. *)
Definition reading (hours minutes : Z) : Clock :=
  mkClock (fun _ => hours) (fun _ => minutes) (fun _ => 1970) (fun _ => 0) (fun _ => 1)
          (fun _ _ _ => 0) (fun t => t).

(** [formatMessageDay(timestamp)] when the clock reads [today]. *)
Definition formatMessageDay (cl : Clock) (today : Z) (timestamp : Z) : string :=
  if timestamp =? 0 then ""
  else
    let yesterday := dayBefore cl today in
    let midnight t := midnightOf cl (getFullYear cl t) (getMonth cl t) (getDate cl t) in
    if midnight timestamp =? midnight today then "Today"
    else if midnight timestamp =? midnight yesterday then "Yesterday"
    else
      let day := padStart0 2 (showZ (getDate cl timestamp)) in
      let month := padStart0 2 (showZ (getMonth cl timestamp + 1)) in
      let year := showZ (getFullYear cl timestamp) in
      day +:+ "/" +:+ month +:+ "/" +:+ year.

(** A browser whose time zone is UTC: the proleptic Gregorian calendar. *)
Definition daysOf (t : Z) : Z := t / 86400000.

Definition civil (days : Z) : Z * Z * Z :=
  let z := days + 719468 in
  let era := z / 146097 in
  let doe := z - era * 146097 in
  let yoe := (doe - doe / 1460 + doe / 36524 - doe / 146096) / 365 in
  let doy := doe - (365 * yoe + yoe / 4 - yoe / 100) in
  let mp := (5 * doy + 2) / 153 in
  let d := doy - (153 * mp + 2) / 5 + 1 in
  let m := if mp <? 10 then mp + 3 else mp - 9 in
  let y := yoe + era * 400 + (if m <=? 2 then 1 else 0) in
  (y, m - 1, d).

Definition daysFromCivil (y m d : Z) : Z :=
  let m1 := m + 1 in
  let y' := if m1 <=? 2 then y - 1 else y in
  let era := y' / 400 in
  let yoe := y' - era * 400 in
  let doy := (153 * (if 2 <? m1 then m1 - 3 else m1 + 9) + 2) / 5 + d - 1 in
  let doe := yoe * 365 + yoe / 4 - yoe / 100 + doy in
  era * 146097 + doe - 719468.

Definition utc : Clock :=
  mkClock (fun t => (t mod 86400000) / 3600000)
          (fun t => (t mod 3600000) / 60000)
          (fun t => fst (fst (civil (daysOf t))))
          (fun t => snd (fst (civil (daysOf t))))
          (fun t => snd (civil (daysOf t)))
          (fun y m d => daysFromCivil y m d * 86400000)
          (fun t => t - 86400000).

End Fmt.

(** ** The chat view with its date separators ([renderChat],
    [appendMessage]; the same in both drivers for a non-empty cache) *)

Module Render.

(** The children of the messages container: a date separator
    ([messageDateHTML], class [date-separator]) with its text, a time
    separator ([messageTimeHTML]), or the bubble of a message. *)
Inductive Node : Type :=
  | DateSeparator (text : string)
  | TimeSeparator (text : string)
  | BubbleOf (m : Message).

(** A cached message whose type is not one of the separator types. *)
Definition ordinary (m : Message) : bool :=
  negb (String.eqb (m_type m) "date") && negb (String.eqb (m_type m) "time").

(** The types [appendMessage] renders. *)
Definition isBubble (m : Message) : bool :=
  String.eqb (m_type m) "incoming" || String.eqb (m_type m) "outgoing"
  || String.eqb (m_type m) "uploading".

(** The [switch (msg.type)] of [renderChat] on a cached message. *)
Definition nodeOf (m : Message) : list Node :=
  if String.eqb (m_type m) "date" then [DateSeparator (Js.or_str (m_text m) "")]
  else if String.eqb (m_type m) "time" then [TimeSeparator (Js.or_str (m_text m) "")]
  else if isBubble m then [BubbleOf m]
  else [].

(** The [forEach] of [renderChat]: [currentDay] is [None] for [null]. *)
Fixpoint withSeparators (day : Z -> string) (currentDay : option string) (ms : list Message)
  : list Node :=
  match ms with
  | [] => []
  | m :: rest =>
      let messageDay := day (m_createdAt m) in
      if Common.opt_eqb currentDay messageDay
      then nodeOf m ++ withSeparators day (Some messageDay) rest
      else DateSeparator messageDay :: nodeOf m ++ withSeparators day (Some messageDay) rest
  end.

(** [renderChat(messages, name)]: the children of the new messages
    container, for the clock [cl] reading [today]. *)
Definition renderChat (cl : Fmt.Clock) (today : Z) (messages : list Message) : list Node :=
  withSeparators (Fmt.formatMessageDay cl today) None (Arr.sortMessages messages).

(** The text of the last [.date-separator] of the container, trimmed;
    [None] when there is none. *)
Fixpoint lastDateText (nodes : list Node) (acc : option string) : option string :=
  match nodes with
  | [] => acc
  | DateSeparator t :: rest => lastDateText rest (Some (Js.trim t))
  | _ :: rest => lastDateText rest acc
  end.

(** [appendMessage(message)] on the children of an existing container. *)
Definition appendMessage (cl : Fmt.Clock) (today : Z) (message : Message) (nodes : list Node)
  : list Node :=
  let messageDay := Fmt.formatMessageDay cl today (m_createdAt message) in
  let nodes1 :=
    if Common.opt_eqb (lastDateText nodes None) messageDay then nodes
    else nodes ++ [DateSeparator messageDay] in
  if isBubble message then nodes1 ++ [BubbleOf message] else nodes1.

(** A text without white space. *)
Definition solid (s : string) : bool :=
  forallb (fun c => negb (Js.is_space c)) (list_ascii_of_string s).

(** Every bubble stands under a date separator that carries its day. *)
Fixpoint labelled (day : Z -> string) (current : option string) (nodes : list Node) : bool :=
  match nodes with
  | [] => true
  | DateSeparator t :: rest => labelled day (Some t) rest
  | TimeSeparator _ :: rest => labelled day current rest
  | BubbleOf m :: rest =>
      Common.opt_eqb current (day (m_createdAt m)) && labelled day current rest
  end.

(** The messages whose bubbles the container shows, in order. *)
Fixpoint shown (nodes : list Node) : list Message :=
  match nodes with
  | [] => []
  | BubbleOf m :: rest => m :: shown rest
  | _ :: rest => shown rest
  end.

(** No date separator is followed at once by another one or by the end. *)
Fixpoint noEmptyDay (nodes : list Node) : bool :=
  match nodes with
  | [] => true
  | DateSeparator _ :: rest =>
      match rest with
      | BubbleOf _ :: _ => noEmptyDay rest
      | _ => false
      end
  | _ :: rest => noEmptyDay rest
  end.

End Render.
(** ** The Firebase service ([src/services/firebaseService.js]) *)

Module FirebaseService.

(** [getThreadPath(threadType, threadId)] *)
Definition getThreadPath (threadType threadId : string) : res string :=
  if String.eqb threadType "room" then Ret ("messages/rooms/" +:+ threadId)
  else if String.eqb threadType "dm" then Ret ("messages/dms/" +:+ threadId)
  else Throw.

(** [messageObj] of [listenForMessages]: what the thread listener is
    called with for the record [messageData] stored under [key], when
    the clock reads [now]. *)
Definition messageObj (now : Z) (key : string) (messageData : Message) : RawMessage :=
  mkRaw key None
    (Some (Js.or_str (m_senderId messageData) ""))
    (Some (Js.or_str (m_senderName messageData) "Unknown"))
    (Some (Js.or_str (m_text messageData) ""))
    (Some (if m_createdAt messageData =? 0 then now else m_createdAt messageData))
    (if Js.truthy (m_image messageData) then m_image messageData else None)
    (if Js.truthy (m_video messageData) then m_video messageData else None)
    (m_file messageData).

(** A document of the Firestore collections [rooms] and [dms]; a missing
    [members] field reads as the empty list. *)
Record ThreadDoc : Type := mkThreadDoc {
  td_members : list string;
  td_lastMessage : option string;
  td_lastMessageTime : option Z;
  td_lastMessageSender : option string
}.

(** A document of the collection [threadMeta]; missing [unreadCounts] and
    [lastSeen] fields read as empty maps. *)
Record Meta : Type := mkMeta {
  mt_threadType : option string;
  mt_threadId : option string;
  mt_unreadCounts : gmap string Z;
  mt_lastSeen : gmap string Z;
  mt_createdAt : option Z;
  mt_lastUpdated : option Z
}.

(** The two databases: the children of every RTDB thread path by key,
    the thread documents by collection and id, and [threadMeta]. *)
Record Backend : Type := mkBackend {
  rtdb : gmap string (gmap string Message);
  threads : gmap (string * string) ThreadDoc;
  threadMeta : gmap string Meta
}.

(** Whether the calls to the RTDB and to Firestore succeed. *)
Record Net : Type := mkNet {
  rtdbOk : bool;
  firestoreOk : bool
}.

(** The document id [threadType_threadId]. *)
Definition docId (threadType threadId : string) : string :=
  threadType +:+ "_" +:+ threadId.

(** [markThreadRead(threadType, threadId, userId)] on the collection
    [threadMeta]; an error is caught and logged. *)
Definition markThreadRead (net : Net) (now : Z) (threadType threadId userId : string)
    (metas : gmap string Meta) : gmap string Meta :=
  if String.eqb userId "" then metas
  else if negb (firestoreOk net) then metas
  else
    match metas !! docId threadType threadId with
    | Some currentData =>
        <[docId threadType threadId :=
            mkMeta (mt_threadType currentData) (mt_threadId currentData)
                   (<[userId := 0]> (mt_unreadCounts currentData))
                   (<[userId := now]> (mt_lastSeen currentData))
                   (mt_createdAt currentData) (Some now)]> metas
    | None =>
        <[docId threadType threadId :=
            mkMeta (Some threadType) (Some threadId) {[userId := 0]} {[userId := now]}
                   (Some now) (Some now)]> metas
    end.

(** The [forEach] over [memberIds] when the document exists. *)
Definition bump (senderId : string) (unreadCounts : gmap string Z) (memberId : string)
  : gmap string Z :=
  if String.eqb memberId senderId then unreadCounts
  else <[memberId := default 0 (unreadCounts !! memberId) + 1]> unreadCounts.

(** The [forEach] over [memberIds] when the document is created. *)
Definition initial (senderId : string) (unreadCounts : gmap string Z) (memberId : string)
  : gmap string Z :=
  <[memberId := if String.eqb memberId senderId then 0 else 1]> unreadCounts.

(** [incrementUnreadCount(threadType, threadId, senderId, memberIds)] *)
Definition incrementUnreadCount (net : Net) (now : Z) (threadType threadId senderId : string)
    (memberIds : list string) (metas : gmap string Meta) : gmap string Meta :=
  match memberIds with
  | [] => metas
  | _ =>
      if negb (firestoreOk net) then metas
      else
        match metas !! docId threadType threadId with
        | Some currentData =>
            <[docId threadType threadId :=
                mkMeta (mt_threadType currentData) (mt_threadId currentData)
                       (foldl (bump senderId) (mt_unreadCounts currentData) memberIds)
                       (mt_lastSeen currentData)
                       (mt_createdAt currentData) (Some now)]> metas
        | None =>
            <[docId threadType threadId :=
                mkMeta (Some threadType) (Some threadId)
                       (foldl (initial senderId) ∅ memberIds) ∅
                       (Some now) (Some now)]> metas
        end
  end.

(** The sends of other users: who sent, to which member list, and when. *)
Definition sends (net : Net) (tt tid : string) (events : list (string * list string * Z))
    (metas : gmap string Meta) : gmap string Meta :=
  foldl (fun ms e => incrementUnreadCount net (snd e) tt tid (fst (fst e)) (snd (fst e)) ms)
        metas events.

(** The unread count [fetchRoomsAndChats] reads for the user [userId]
    from one [threadMeta] document: [unreadCounts[uid] || 0]. *)
Definition userUnread (userId : string) (meta : Meta) : Z :=
  default 0 (mt_unreadCounts meta !! userId).

(** The loop of [fetchRoomsAndChats] over the [threadMeta] snapshot, for
    the rooms: the document whose id is [room_] followed by the id of a
    room sets the [unread] of the first such room.  A room is its id and
    its [unread]. *)
Fixpoint setUnread (roomId : string) (n : Z) (rooms : list (string * Z)) : list (string * Z) :=
  match rooms with
  | [] => []
  | (i, u) :: rest =>
      if String.eqb i roomId then (i, n) :: rest else (i, u) :: setUnread roomId n rest
  end.

Definition applyMeta (prefix userId : string) (rooms : list (string * Z)) (doc : string * Meta)
  : list (string * Z) :=
  match List.find (fun r => String.eqb (fst doc) (prefix +:+ fst r)) rooms with
  | Some r => setUnread (fst r) (userUnread userId (snd doc)) rooms
  | None => rooms
  end.

Definition fetchUnread (prefix userId : string) (snapshot : list (string * Meta))
    (rooms : list (string * Z)) : list (string * Z) :=
  foldl (applyMeta prefix userId) rooms snapshot.

(** The message [saveMessage] writes. *)
Definition messageToSave (u : User) (now : Z) (message : Message) : Message :=
  mkMessage (Js.or_str (Some (m_id message)) (Js.or_str (m_tempId message) ""))
    (m_tempId message) (m_type message) (m_status message) (m_progress message)
    (m_text message)
    (Some (Js.or_str (m_senderId message) (Js.or_str (Some (uid u)) "unknown")))
    (Some (Js.or_str (m_senderName message) (Js.or_str (displayName u) "Anonymous")))
    (m_sender message)
    (if m_createdAt message =? 0 then now else m_createdAt message)
    (m_image message) (m_video message) (m_file message)
    (m_fileName message) (m_fileType message) (m_fileSize message).

(** The label stored as [lastMessage] for a message without text. *)
Definition attachmentLabel : string := "📎 Attachment".

(** [saveMessage(threadType, threadId, message)] for the user the
    service was initialised with; [now] and [later] are the two clock
    readings.  The record is set under its id; the updates of Firestore
    that follow are best effort ([updateDoc] fails on a document that
    does not exist). *)
Definition saveMessage (net : Net) (currentUser : option User) (now later : Z)
    (threadType threadId : string) (message : Message) (b : Backend)
  : res (Message * Backend) :=
  match currentUser with
  | None => Throw
  | Some u =>
      if negb (Js.truthy (Some (m_id message))) && negb (Js.truthy (m_tempId message)) then Throw
      else
        path ← getThreadPath threadType threadId;
        let saved := messageToSave u now message in
        if negb (rtdbOk net) then Throw
        else
          let b1 := mkBackend
                      (<[path := <[m_id saved := saved]> (default ∅ (rtdb b !! path))]> (rtdb b))
                      (threads b) (threadMeta b) in
          let collectionName := if String.eqb threadType "room" then "rooms" else "dms" in
          match (if firestoreOk net then threads b1 !! (collectionName, threadId) else None) with
          | None => Ret (saved, b1)
          | Some d =>
              let d' := mkThreadDoc (td_members d)
                          (Some (Js.or_str (m_text saved) attachmentLabel))
                          (Some (m_createdAt saved))
                          (m_senderId saved) in
              Ret (saved,
                   mkBackend (rtdb b1)
                     (<[(collectionName, threadId) := d']> (threads b1))
                     (incrementUnreadCount net later threadType threadId (uid u)
                        (td_members d) (threadMeta b1)))
          end
  end.

(** The legacy uploader [uploadToCloudinary]: its size limit. *)
Definition legacySizeLimit (type : string) : Z :=
  if Js.startsWith type "image/" then 10
  else if Js.startsWith type "video/" then 100
  else if String.eqb type "application/pdf" || Js.includes type "document"
          || Js.includes type "msword" || Js.includes type "officedocument"
          || Js.includes type "spreadsheet" || Js.includes type "presentation"
  then 20
  else 25.

(** Whether [uploadToCloudinary] gets past its size check. *)
Definition legacyAccepts (f : File) : bool :=
  negb (legacySizeLimit (file_type f) * 1024 * 1024 <? file_size f).

End FirebaseService.

(** ** The profile cache and the sidebar of the second driver *)

Module Sidebar.

(** The fields [getUserProfile] reads from a [user_profiles] document. *)
Record UserData : Type := mkUserData {
  ud_displayName : option string;
  ud_name : option string;
  ud_email : option string;
  ud_photoURL : option string;
  ud_avatar : option string;
  ud_profilePicture : option string;
  ud_status : option string;
  ud_username : option string
}.

(** The profile objects it builds; the fall-back object has no
    [username]. *)
Record UserProfile : Type := mkUserProfile {
  up_displayName : string;
  up_name : string;
  up_email : string;
  up_avatar : option string;
  up_photoURL : option string;
  up_profilePicture : option string;
  up_status : string;
  up_username : option string
}.

(** How [getDoc] on the profile document ends. *)
Inductive Lookup : Type :=
  | Found (userData : UserData)
  | Missing
  | Failed.

(** [a || b || c || null] on optional strings. *)
Definition firstTruthy (l : list (option string)) : option string :=
  List.find (fun s => negb (String.eqb s "")) (omap id l).

Definition profileOfData (userData : UserData) : UserProfile :=
  mkUserProfile
    (Js.or_str (ud_displayName userData) (Js.or_str (ud_name userData) "User"))
    (Js.or_str (ud_name userData) (Js.or_str (ud_displayName userData) "User"))
    (Js.or_str (ud_email userData) "")
    (firstTruthy [ud_photoURL userData; ud_avatar userData; ud_profilePicture userData])
    (firstTruthy [ud_photoURL userData; ud_avatar userData; ud_profilePicture userData])
    (firstTruthy [ud_profilePicture userData; ud_photoURL userData; ud_avatar userData])
    (Js.or_str (ud_status userData) "offline")
    (Some (Js.or_str (ud_username userData) "")).

Definition fallback : UserProfile :=
  mkUserProfile "User" "User" "" None None None "offline" None.

(** [getUserProfile(userId)]: the profile it resolves to and the cache
    it leaves, [firestore] telling how the look-up of a user ends; for a
    [userId] that names no member of [Object.prototype] (the cache is a
    plain object, and for such a name the source returns the inherited
    member without reading Firestore). *)
Definition getUserProfile (firestore : string -> Lookup) (userId : string)
    (userProfilesCache : gmap string UserProfile) : UserProfile * gmap string UserProfile :=
  match userProfilesCache !! userId with
  | Some profile => (profile, userProfilesCache)
  | None =>
      match firestore userId with
      | Found userData =>
          (profileOfData userData, <[userId := profileOfData userData]> userProfilesCache)
      | Missing => (fallback, <[userId := fallback]> userProfilesCache)
      | Failed => (fallback, userProfilesCache)
      end
  end.

(** [clearUserProfileCache()] *)
Definition clearUserProfileCache (userProfilesCache : gmap string UserProfile)
  : gmap string UserProfile := ∅.

(** The path [listenForLastMessage(threadType, threadId)] listens at. *)
Definition lastMessagePath (threadType threadId : string) : string :=
  if String.eqb threadType "room" then "rooms/" +:+ threadId +:+ "/messages"
  else "dms/" +:+ threadId +:+ "/messages".

(** The segments of an RTDB path. *)
Definition segments (path : string) : list string := Router.split "/" path.

(** A listener at [a] sees a write at [b] when one path lies on the
    other. *)
Definition related (a b : string) : Prop :=
  segments a `prefix_of` segments b \/ segments b `prefix_of` segments a.

End Sidebar.

(** ** The login form ([unnamed/part_000])

    Strings are the UTF-8 bytes of the JavaScript strings.  What the
    form asks of the string built-ins of the browser is an input, as the
    clock is for the timestamps. *)

Module Login.

(** [String.prototype.trim], [String.prototype.toLowerCase] and the
    [length] of a string, which counts UTF-16 code units. *)
Record Text : Type := mkText {
  trim : string -> string;
  toLowerCase : string -> string;
  length : string -> nat
}.

(** A character matched by the class of the username pattern: a lower
    case letter, a digit, a dot, an underscore or a hyphen. *)
Definition usernameChar (c : ascii) : bool :=
  let n := nat_of_ascii c in
  ((97 <=? n)%nat && (n <=? 122)%nat) || ((48 <=? n)%nat && (n <=? 57)%nat)
  || (n =? 46)%nat || (n =? 95)%nat || (n =? 45)%nat.

(** [validateUsername(username)]: the whole string is made of at least
    two such characters, each of them one byte. *)
Definition validateUsername (username : string) : bool :=
  (2 <=? String.length username)%nat && forallb usernameChar (list_ascii_of_string username).

(** [constructEmail(username)] *)
Definition constructEmail (tx : Text) (username : string) : string :=
  toLowerCase tx (trim tx username) +:+ "@sink.in".

(** How [handleLogin] leaves its checks: with one of its messages, or
    with the e-mail address and the password it signs in with. *)
Inductive Checked : Type :=
  | EmptyUsername
  | InvalidUsername
  | EmptyPassword
  | ShortPassword
  | SignIn (email password : string).

(** [handleLogin]: from the values of the two inputs to the call of
    [signInWithEmailAndPassword]. *)
Definition handleLogin (tx : Text) (usernameValue passwordValue : string) : Checked :=
  let username := toLowerCase tx (trim tx usernameValue) in
  let password := passwordValue in
  if String.eqb username "" then EmptyUsername
  else if negb (validateUsername username) then InvalidUsername
  else if String.eqb password "" then EmptyPassword
  else if (length tx password <? 6)%nat then ShortPassword
  else SignIn (constructEmail tx username) password.

(** The built-ins on strings of ASCII characters. *)
Definition lowerChar (c : ascii) : ascii :=
  let n := nat_of_ascii c in
  if (65 <=? n)%nat && (n <=? 90)%nat then ascii_of_nat (n + 32) else c.

Fixpoint lowerAscii (s : string) : string :=
  match s with
  | EmptyString => EmptyString
  | String c r => String (lowerChar c) (lowerAscii r)
  end.

Definition asciiText : Text := mkText Js.trim lowerAscii String.length.

End Login.

(** ** The seeding script ([src/scripts/seed-messages.js]) *)

Module Seed.

(** [generateDmThreadId(userId1, userId2)]: the two ids, sorted as
    strings, joined by an underscore. *)
Definition generateDmThreadId (userId1 userId2 : string) : string :=
  if String.ltb userId2 userId1 then userId2 +:+ "_" +:+ userId1
  else userId1 +:+ "_" +:+ userId2.

(** An id without underscore. *)
Definition plain (userId : string) : bool :=
  forallb (fun c => negb (Ascii.eqb c "_")) (list_ascii_of_string userId).

End Seed.

(** Goals about the scenarios are closed by running the embedding. *)
Ltac computed := vm_compute; first [reflexivity | eauto].

(** * Properties *)

(** ** The stable sort *)

Module SortFacts.

Section WithKey.
Context {A : Type} (key : A -> Z).

Lemma sorted_by_spec (l : list A) :
  sorted_by key l = true <-> Sorted (le_key key) l.
Proof.
  induction l as [|x r IH]; simpl.
  - split; [constructor | reflexivity].
  - destruct r as [|y r'].
    + split; [repeat constructor | reflexivity].
    + rewrite andb_true_iff, IH, Z.leb_le. split.
      * intros [Hxy Hs]. constructor; [assumption | constructor; assumption].
      * intros Hs. inversion Hs as [|? ? Hs' Hhd]; subst.
        inversion Hhd; subst. split; assumption.
Qed.

Lemma le_key_trans : Transitive (le_key key).
Proof. unfold le_key. intros a b c; lia. Qed.

Lemma sorted_by_strongly (l : list A) :
  sorted_by key l = true <-> StronglySorted (le_key key) l.
Proof.
  rewrite sorted_by_spec. split.
  - apply Sorted_StronglySorted, le_key_trans.
  - apply StronglySorted_Sorted.
Qed.

Lemma insert_by_perm (x : A) (l : list A) : insert_by key x l ≡ₚ x :: l.
Proof.
  induction l as [|y r IH]; simpl; [reflexivity|].
  destruct (key x <=? key y); [reflexivity|].
  rewrite IH. apply perm_swap.
Qed.

Lemma insert_by_sorted (x : A) (l : list A) :
  StronglySorted (le_key key) l -> StronglySorted (le_key key) (insert_by key x l).
Proof.
  induction l as [|y r IH]; simpl; intros Hs.
  - repeat constructor.
  - apply StronglySorted_cons in Hs as [Hall Hr].
    destruct (key x <=? key y) eqn:Hxy.
    + apply Z.leb_le in Hxy. constructor.
      * constructor; assumption.
      * constructor; [exact Hxy|].
        eapply Forall_impl; [exact Hall|]. unfold le_key in *. intros; lia.
    + apply Z.leb_gt in Hxy. constructor; [apply IH, Hr|].
      rewrite insert_by_perm. constructor; [unfold le_key; lia | exact Hall].
Qed.

Lemma sort_by_perm (l : list A) : sort_by key l ≡ₚ l.
Proof.
  induction l as [|x r IH]; simpl; [reflexivity|].
  rewrite insert_by_perm. now rewrite IH.
Qed.

Lemma sort_by_sorted (l : list A) : StronglySorted (le_key key) (sort_by key l).
Proof.
  induction l as [|x r IH]; simpl; [constructor|].
  apply insert_by_sorted, IH.
Qed.

End WithKey.

End SortFacts.

(** ** Arrays *)

Module ArrFacts.

Lemma some_after_replace (p q : Message -> bool) (m : Message) (l : list (option Message)) (k : nat) :
  (forall x, q x = true -> p x = true) -> q m = true ->
  Arr.findIndex p l = Ret (Some k) ->
  Arr.some q (<[k := Some m]> l) = Ret true.
Proof.
  intros Hqp Hm. revert k. induction l as [|[x|] r IH]; intros k; simpl; try discriminate.
  destruct (p x) eqn:Hp.
  - intros [= <-]. simpl. now rewrite Hm.
  - destruct (Arr.findIndex p r) as [[i|]|] eqn:Hr; simpl; try discriminate.
    intros [= <-]. simpl.
    destruct (q x) eqn:Hq; [apply Hqp in Hq; congruence|].
    now apply IH.
Qed.

Lemma some_after_push (p q : Message -> bool) (m : Message) (l : list (option Message)) :
  (forall x, q x = true -> p x = true) -> q m = true ->
  Arr.findIndex p l = Ret None ->
  Arr.some q (l ++ [Some m]) = Ret true.
Proof.
  intros Hqp Hm. induction l as [|[x|] r IH]; simpl; try discriminate.
  - now rewrite Hm.
  - destruct (p x) eqn:Hp; [discriminate|].
    destruct (Arr.findIndex p r) as [[i|]|] eqn:Hr; simpl; try discriminate.
    intros _. destruct (q x) eqn:Hq; [apply Hqp in Hq; congruence|].
    now apply IH.
Qed.

Lemma some_objs (q : Message -> bool) (ms : list Message) :
  Arr.some q (Some <$> ms) = Ret (existsb q ms).
Proof.
  induction ms as [|x r IH]; simpl; [reflexivity|].
  destruct (q x); [reflexivity | exact IH].
Qed.

Lemma objs_push (l : list (option Message)) (m : Message) (ms : list Message) :
  Arr.objs (l ++ [Some m]) = Some ms -> m ∈ ms.
Proof.
  revert ms. induction l as [|[x|] r IH]; intros ms; simpl; try discriminate.
  - intros [= <-]. left.
  - destruct (Arr.objs (r ++ [Some m])) as [ms'|] eqn:E; simpl; [|discriminate].
    intros [= <-]. right. now apply IH.
Qed.

Lemma some_after_sort (q : Message -> bool) (m : Message) (l sorted : list (option Message)) :
  q m = true ->
  Arr.sort (l ++ [Some m]) = Ret sorted ->
  Arr.some q sorted = Ret true.
Proof.
  intros Hm. unfold Arr.sort.
  destruct (l ++ [Some m]) as [|a [|b t]] eqn:E.
  - destruct l; discriminate.
  - destruct l as [|? [|? ?]]; try discriminate.
    injection E as <-. intros [= <-]. simpl. now rewrite Hm.
  - rewrite <- E. destruct (Arr.objs (l ++ [Some m])) as [ms|] eqn:Ho; [|discriminate].
    intros [= <-]. rewrite some_objs. f_equal.
    apply existsb_exists. exists m. split; [|exact Hm].
    apply list_elem_of_In. unfold Arr.sortMessages.
    rewrite SortFacts.sort_by_perm. now apply (objs_push l).
Qed.

End ArrFacts.

(** ** The generator away from the wrap-around *)

Module PushIdOrder.
Import PushId.

Lemma ascii_compare_refl (c : ascii) : Ascii.compare c c = Eq.
Proof.
  pose proof (Ascii.compare_antisym c c) as H.
  destruct (Ascii.compare c c); simpl in H; congruence.
Qed.

Lemma ltb_append_prefix (p x y : string) :
  String.ltb (p +:+ x) (p +:+ y) = String.ltb x y.
Proof.
  unfold String.ltb. induction p as [|c p IH]; simpl; [reflexivity|].
  now rewrite ascii_compare_refl.
Qed.

(** The alphabet is in increasing character order. *)
Lemma symbol_lt (v : Z) (x y : string) :
  0 <= v < 63 ->
  String.ltb (charAt PUSH_CHARS (Some (Num v)) +:+ x)
             (charAt PUSH_CHARS (Some (Num (v + 1))) +:+ y) = true.
Proof.
  intros Hv. replace v with (Z.of_nat (Z.to_nat v)) by lia.
  assert (Hn : (Z.to_nat v < 63)%nat) by lia.
  generalize dependent (Z.to_nat v). clear Hv v. intros n Hn.
  do 63 (destruct n as [|n]; [computed|]). lia.
Qed.

Lemma carry_spec (f : nat) (i : Z) (a : gmap Z jsnum) :
  -1 <= i -> i + 2 <= Z.of_nat f ->
  -1 <= fst (carry f i a) <= i /\
  (forall k, fst (carry f i a) < k <= i ->
     a !! k = Some (Num 63) /\ snd (carry f i a) !! k = Some (Num 0)) /\
  (forall k, ~ (fst (carry f i a) < k <= i) -> snd (carry f i a) !! k = a !! k) /\
  (0 <= fst (carry f i a) -> a !! fst (carry f i a) <> Some (Num 63)).
Proof.
  revert i a. induction f as [|f IH]; intros i a Hi Hf; [lia|].
  cbn [carry].
  destruct ((0 <=? i) && match a !! i with Some v => jsnum_eqb v 63 | None => false end) eqn:Hg.
  - apply andb_true_iff in Hg as [H0 H63]. apply Z.leb_le in H0.
    assert (Hai : a !! i = Some (Num 63)).
    { destruct (a !! i) as [[z|]|]; try discriminate. simpl in H63.
      apply Z.eqb_eq in H63. now subst. }
    destruct (IH (i - 1) (<[i := Num 0]> a)) as (B & Z0 & Same & Stop); [lia | lia |].
    set (j := fst (carry f (i - 1) (<[i:=Num 0]> a))) in *.
    set (a' := snd (carry f (i - 1) (<[i:=Num 0]> a))) in *.
    split; [lia|]. split; [|split].
    + intros k Hk. destruct (decide (k = i)) as [-> | Hne].
      * split; [exact Hai|]. rewrite Same by lia. apply lookup_insert_eq.
      * destruct (Z0 k) as [Ha Ha']; [lia|]. rewrite lookup_insert_ne in Ha by lia. auto.
    + intros k Hk. rewrite Same by lia. apply lookup_insert_ne. lia.
    + intros Hj. specialize (Stop Hj). rewrite lookup_insert_ne in Stop by lia. exact Stop.
  - simpl. split; [lia|]. split; [intros k Hk; lia|]. split; [reflexivity|].
    intros H0. apply andb_false_iff in Hg as [Hg | Hg].
    + apply Z.leb_gt in Hg. lia.
    + intros Hai. rewrite Hai in Hg. simpl in Hg. discriminate.
Qed.

Lemma randChars_lt (n : nat) (i0 j v : Z) (a a' : gmap Z jsnum) :
  i0 <= j < i0 + Z.of_nat n ->
  (forall k, i0 <= k < j -> a' !! k = a !! k) ->
  0 <= v < 63 -> a !! j = Some (Num v) -> a' !! j = Some (Num (v + 1)) ->
  String.ltb (randChars n i0 a) (randChars n i0 a') = true.
Proof.
  revert i0. induction n as [|n IH]; intros i0 Hj Hsame Hv Ha Ha'; [lia|].
  cbn [randChars]. destruct (decide (i0 = j)) as [-> | Hne].
  - rewrite Ha, Ha'. now apply symbol_lt.
  - rewrite (Hsame i0) by lia. rewrite ltb_append_prefix.
    apply IH; auto; [lia|]. intros k Hk. apply Hsame. lia.
Qed.

(** Away from the wrap-around the claim of C5 holds: when the suffix is
    a proper twelve-symbol number with some symbol below 63, a call in
    the same millisecond returns a key strictly greater than the one
    that suffix spells. *)
Lemma same_millisecond_key_increases (now : Z) (rnd : nat -> Z) (st : state) :
  _lastPushTime st = now ->
  in_range (_lastRandChars st) ->
  ~ maxed_out (_lastRandChars st) ->
  String.ltb ("-" +:+ timeStampChars 8 now "" +:+ randChars 12 0 (_lastRandChars st))
             (fst (genTempId now rnd st)) = true.
Proof.
  intros Ht Hr Hm. unfold genTempId. rewrite Ht, Z.eqb_refl. cbn [negb fst].
  rewrite !ltb_append_prefix. unfold increment.
  destruct (carry_spec 13 11 (_lastRandChars st)) as (B & Z0 & Same & Stop); [lia | lia |].
  destruct (carry 13 11 (_lastRandChars st)) as [j c] eqn:Hc. cbn [fst snd] in *.
  assert (Hj : 0 <= j).
  { destruct (decide (0 <= j)) as [|Hneg]; [assumption|]. exfalso. apply Hm.
    intros i Hi. apply Z0. lia. }
  destruct (Hr j) as (v & Hv & Hvr); [lia|].
  assert (v <> 63) by (intros ->; now apply (Stop Hj)).
  apply (randChars_lt 12 0 j v); try lia; try assumption.
  - intros k Hk. rewrite lookup_insert_ne by lia. apply Same. lia.
  - rewrite lookup_insert_eq. rewrite Same by lia. now rewrite Hv.
Qed.

(** The key the previous call returned is the one its suffix spells. *)
Lemma consecutive_keys_increase (now : Z) (rnd1 rnd2 : nat -> Z) (st0 : state) :
  in_range (_lastRandChars (snd (genTempId now rnd1 st0))) ->
  ~ maxed_out (_lastRandChars (snd (genTempId now rnd1 st0))) ->
  String.ltb (fst (genTempId now rnd1 st0))
             (fst (genTempId now rnd2 (snd (genTempId now rnd1 st0)))) = true.
Proof.
  intros Hr Hm.
  apply (same_millisecond_key_increases now rnd2 (snd (genTempId now rnd1 st0)));
    [reflexivity | exact Hr | exact Hm].
Qed.


(** A string of [n] symbols of the alphabet. *)
Lemma symbol_ok (v : Z) :
  0 <= v <= 63 ->
  exists c, charAt PUSH_CHARS (Some (Num v)) = String c EmptyString /\ in_alphabet c = true.
Proof.
  intros Hv. replace v with (Z.of_nat (Z.to_nat v)) by lia.
  assert (Hn : (Z.to_nat v < 64)%nat) by lia.
  generalize dependent (Z.to_nat v). clear Hv v. intros n Hn.
  do 64 (destruct n as [|n]; [eexists; split; vm_compute; reflexivity|]). lia.
Qed.

Lemma symbols_cons (c : ascii) (s : string) (n : nat) :
  in_alphabet c = true ->
  String.length s = n /\ forallb in_alphabet (list_ascii_of_string s) = true ->
  String.length (String c EmptyString +:+ s) = S n /\
  forallb in_alphabet (list_ascii_of_string (String c EmptyString +:+ s)) = true.
Proof.
  intros Hc [Hl Hs]. change (String c EmptyString +:+ s) with (String c s).
  cbn [String.length list_ascii_of_string forallb].
  rewrite Hc, Hs, Hl. auto.
Qed.

Lemma timeStampChars_symbols (n : nat) (now : Z) (acc : string) (m : nat) :
  0 <= now ->
  String.length acc = m /\ forallb in_alphabet (list_ascii_of_string acc) = true ->
  String.length (timeStampChars n now acc) = (n + m)%nat /\
  forallb in_alphabet (list_ascii_of_string (timeStampChars n now acc)) = true.
Proof.
  revert now acc m. induction n as [|n IH]; intros now acc m Hnow Hacc; [exact Hacc|].
  cbn [timeStampChars].
  destruct (symbol_ok (Z.rem now 64)) as (c & -> & Hc).
  { pose proof (Z.rem_bound_pos now 64). lia. }
  replace (S n + m)%nat with (n + S m)%nat by lia.
  apply IH; [apply Z.div_pos; lia|]. now apply symbols_cons.
Qed.

Lemma randChars_symbols (n : nat) (i : Z) (a : gmap Z jsnum) :
  (forall k, i <= k < i + Z.of_nat n -> exists v, a !! k = Some (Num v) /\ 0 <= v <= 63) ->
  String.length (randChars n i a) = n /\
  forallb in_alphabet (list_ascii_of_string (randChars n i a)) = true.
Proof.
  revert i. induction n as [|n IH]; intros i Hr; [split; reflexivity|].
  cbn [randChars]. destruct (Hr i) as (v & -> & Hv); [lia|].
  destruct (symbol_ok v Hv) as (c & -> & Hc).
  apply symbols_cons; [exact Hc|]. apply IH. intros k Hk. apply Hr. lia.
Qed.

Lemma symbols_append (s1 s2 : string) (n1 n2 : nat) :
  String.length s1 = n1 /\ forallb in_alphabet (list_ascii_of_string s1) = true ->
  String.length s2 = n2 /\ forallb in_alphabet (list_ascii_of_string s2) = true ->
  String.length (s1 +:+ s2) = (n1 + n2)%nat /\
  forallb in_alphabet (list_ascii_of_string (s1 +:+ s2)) = true.
Proof.
  revert n1. induction s1 as [|c s1 IH]; intros n1 [Hl1 Hs1] H2.
  - change (EmptyString +:+ s2) with s2. simpl in Hl1. now subst.
  - change (String c s1 +:+ s2) with (String c (s1 +:+ s2)).
    cbn [String.length list_ascii_of_string forallb] in *.
    apply andb_true_iff in Hs1 as [Hc Hs1]. destruct n1; [discriminate|].
    destruct (IH n1) as [Hl Hs]; auto. rewrite Hl, Hc, Hs. auto.
Qed.

Lemma redraw_lookup (rnd : nat -> Z) (n : nat) (a : gmap Z jsnum) (k : Z) :
  0 <= k < Z.of_nat n -> redraw rnd n a !! k = Some (Num (rnd (Z.to_nat k))).
Proof.
  induction n as [|n IH]; intros Hk; [lia|]. cbn [redraw].
  destruct (decide (k = Z.of_nat n)) as [-> | Hne].
  - rewrite lookup_insert_eq. now rewrite Nat2Z.id.
  - rewrite lookup_insert_ne by lia. apply IH. lia.
Qed.

Lemma increment_in_range (a : gmap Z jsnum) :
  in_range a -> in_range (snd (increment a)).
Proof.
  intros Hr. unfold increment.
  destruct (carry_spec 13 11 a) as (B & Z0 & Same & Stop); [lia | lia |].
  destruct (carry 13 11 a) as [j c]. cbn [fst snd] in *.
  intros k Hk. destruct (decide (k = j)) as [-> | Hne].
  - rewrite lookup_insert_eq. rewrite Same by lia.
    destruct (Hr j Hk) as (v & Hv & Hvr). rewrite Hv. simpl.
    exists (v + 1). split; [reflexivity|].
    assert (v <> 63) by (intros ->; apply Stop; [lia | exact Hv]). lia.
  - rewrite lookup_insert_ne by lia.
    destruct (decide (j < k)) as [Hlt | Hge].
    + destruct (Z0 k) as [_ ->]; [lia|]. exists 0. split; [reflexivity | lia].
    + rewrite Same by lia. now apply Hr.
Qed.

(** The second half of C10 holds: with the clock at or after the epoch
    and every draw a symbol index, each call returns a 21-symbol key
    beginning with ['-'] and leaves twelve symbol indices in the slots
    0..11, also when the suffix wraps around. *)
Lemma key_shape_kept (now : Z) (rnd : nat -> Z) (st : state) :
  0 <= now -> (forall i, 0 <= rnd i <= 63) -> in_range (_lastRandChars st) ->
  key_shape (fst (genTempId now rnd st)) = true /\
  in_range (_lastRandChars (snd (genTempId now rnd st))).
Proof.
  intros Hnow Hrnd Hr.
  assert (Hr' : in_range (_lastRandChars (snd (genTempId now rnd st)))).
  { unfold genTempId. cbn [snd _lastRandChars].
    destruct (now =? _lastPushTime st); cbn [negb].
    - now apply increment_in_range.
    - intros k Hk. rewrite redraw_lookup by lia. eexists. split; [reflexivity | apply Hrnd]. }
  split; [|exact Hr'].
  unfold genTempId in *. cbn [fst snd _lastRandChars] in *.
  set (a := if negb (now =? _lastPushTime st) then _ else _) in *.
  destruct (timeStampChars_symbols 8 now "" 0 Hnow) as [Hl1 Hs1]; [split; reflexivity|].
  destruct (randChars_symbols 12 0 a) as [Hl2 Hs2].
  { intros k Hk. apply Hr'. lia. }
  destruct (symbols_append _ _ _ _ (conj Hl1 Hs1) (conj Hl2 Hs2)) as [Hl Hs].
  unfold key_shape.
  change ("-" +:+ ?x) with (String "-"%char x).
  cbn [String.length String.prefix list_ascii_of_string forallb].
  rewrite Hl, Hs. destruct (ascii_dec "-" "-") as [_ | Hne]; [|now destruct Hne].
  assert (Hp : forall s, String.prefix "" s = true) by (intros []; reflexivity).
  rewrite Hp. reflexivity.
Qed.

Lemma in_range_init : in_range (_lastRandChars init).
Proof.
  intros i Hi. exists 0. split; [|lia].
  replace i with (Z.of_nat (Z.to_nat i)) by lia.
  assert (Hn : (Z.to_nat i < 12)%nat) by lia.
  generalize dependent (Z.to_nat i). clear Hi i. intros n Hn.
  do 12 (destruct n as [|n]; [computed|]). lia.
Qed.

End PushIdOrder.

(** ** The identifier generator *)

Module PushIdFacts.
Import PushId Fixture Scenario.

(** C5 (the code breaks it).  Two consecutive calls in the millisecond
    [T]; the first draws 63 twelve times.  The second call carries
    through all twelve symbols and wraps the suffix to twelve times the
    symbol 0: its key is smaller than the first key, not greater. *)
Theorem C5_wrapped_suffix_gives_a_smaller_key (rnd : nat -> Z) :
  fst maxed = "--NjEtLV-zzzzzzzzzzzz" /\
  fst (genTempId T rnd (snd maxed)) = "--NjEtLV-------------" /\
  String.ltb (fst maxed) (fst (genTempId T rnd (snd maxed))) = false /\
  String.ltb (fst (genTempId T rnd (snd maxed))) (fst maxed) = true.
Proof. repeat split; vm_compute; reflexivity. Qed.

(** C10 (the code breaks it).  With all twelve suffix symbols at 63 the
    carry loop stops at index -1 and [this._lastRandChars[i]++] then
    writes the property -1, which the array did not have, with [NaN]. *)
Theorem C10_carry_writes_index_minus_one (rnd : nat -> Z) :
  dom (_lastRandChars (snd maxed)) = list_to_set (map Z.of_nat (seq 0 12)) /\
  incremented_index (snd maxed) = -1 /\
  _lastRandChars (snd (genTempId T rnd (snd maxed))) !! (-1) = Some NaN.
Proof. repeat split; vm_compute; reflexivity. Qed.

End PushIdFacts.

(** ** The message queue *)

Module QueueFacts.
Import Queue Fixture Scenario SortFacts.

Lemma Inv_init : Inv init.
Proof. constructor; simpl; try constructor; try easy. Qed.

Lemma Ord_init : Ord init.
Proof. constructor; simpl; try constructor; intros; set_solver. Qed.

Lemma Inv_queueMessage now raw cb q : Inv q -> Inv (queueMessage now raw cb q).
Proof.
  intros [H1 H2 H3 H4]. unfold queueMessage. simpl.
  destruct (isProcessingQueue q) eqn:Hf; simpl.
  - constructor; simpl; auto.
    + apply sort_by_sorted.
    + intros Hr. apply H3 in Hr; [easy | reflexivity].
  - assert (Hr : running q = []).
    { destruct (running q) as [|a r] eqn:E; [reflexivity|].
      assert (false = true) by (apply H3; easy). discriminate. }
    rewrite (H4 Hr). simpl. unfold processMessageQueue. simpl.
    unfold next. simpl. rewrite Hr. constructor; simpl; try constructor; auto; easy.
Qed.

Lemma Inv_settle r q : Inv q -> Inv (settle r q).
Proof.
  intros [H1 H2 H3 H4]. unfold settle.
  destruct (running q) as [|it others] eqn:Hr.
  - constructor; rewrite ?Hr; auto.
  - simpl in H1. destruct others; [|simpl in H1; lia].
    unfold next. simpl.
    destruct (messageQueue q) as [|h rest] eqn:Hq; simpl.
    + constructor; simpl; try constructor; auto; easy.
    + apply StronglySorted_cons in H2 as [_ H2].
      constructor; simpl; auto; try easy.
      split; [easy|]. intros _. apply H3. easy.
Qed.

Lemma Inv_run evs q : Inv q -> Inv (run evs q).
Proof.
  revert q. induction evs as [|e evs IH]; intros q Hq; [exact Hq|].
  simpl. apply IH. destruct e; [apply Inv_queueMessage | apply Inv_settle]; exact Hq.
Qed.

Lemma perm_queueMessage now raw cb q :
  Inv q ->
  taken (queueMessage now raw cb q) ++ messageQueue (queueMessage now raw cb q)
    ≡ₚ (taken q ++ messageQueue q) ++ [mkItem raw cb (timestampOf raw now)].
Proof.
  intros [H1 H2 H3 H4]. unfold queueMessage. simpl.
  destruct (isProcessingQueue q) eqn:Hf; simpl.
  - rewrite sort_by_perm. now rewrite app_assoc.
  - assert (Hr : running q = []).
    { destruct (running q) as [|a r] eqn:E; [reflexivity|].
      assert (false = true) by (apply H3; easy). discriminate. }
    rewrite (H4 Hr). simpl. unfold processMessageQueue, next. simpl.
    now rewrite !app_nil_r.
Qed.

Lemma perm_settle r q :
  taken (settle r q) ++ messageQueue (settle r q) ≡ₚ taken q ++ messageQueue q.
Proof.
  unfold settle. destruct (running q) as [|it others]; [reflexivity|].
  unfold next. simpl. destruct (messageQueue q) as [|h rest]; simpl; [reflexivity|].
  now rewrite <- app_assoc.
Qed.

Lemma perm_run evs q :
  Inv q ->
  taken (run evs q) ++ messageQueue (run evs q) ≡ₚ (taken q ++ messageQueue q) ++ items evs.
Proof.
  revert q. induction evs as [|e evs IH]; intros q Hq; simpl.
  - now rewrite app_nil_r.
  - destruct e as [now raw cb | r]; simpl.
    + rewrite (IH _ (Inv_queueMessage now raw cb q Hq)).
      rewrite (perm_queueMessage now raw cb q Hq). now rewrite <- !app_assoc.
    + rewrite (IH _ (Inv_settle r q Hq)). now rewrite perm_settle.
Qed.

Lemma Ord_queueMessage now raw cb q :
  Inv q -> Ord q ->
  forallb (fun it => q_timestamp it <=? timestampOf raw now) (taken q) = true ->
  Ord (queueMessage now raw cb q).
Proof.
  intros [H1 H2 H3 H4] [O1 O2 O3 O4 O5 O6] Ht.
  rewrite forallb_forall in Ht.
  assert (Hnew : forall x, x ∈ taken q -> (le_key q_timestamp) x (mkItem raw cb (timestampOf raw now))).
  { intros x Hx. unfold le_key. simpl. apply Z.leb_le, Ht. now apply list_elem_of_In. }
  unfold queueMessage. simpl.
  destruct (isProcessingQueue q) eqn:Hf; simpl.
  - constructor; simpl; auto.
    intros x y Hx Hy. rewrite sort_by_perm in Hy.
    apply elem_of_app in Hy as [Hy | Hy]; [now apply O2|].
    apply list_elem_of_singleton in Hy as ->. now apply Hnew.
  - assert (Hr : running q = []).
    { destruct (running q) as [|a r] eqn:E; [reflexivity|].
      assert (false = true) by (apply H3; easy). discriminate. }
    rewrite (H4 Hr). simpl. unfold processMessageQueue, next. simpl. rewrite Hr. simpl.
    constructor; simpl; auto.
    + apply StronglySorted_app_2; [|assumption|repeat constructor].
      intros x y Hx Hy. apply list_elem_of_singleton in Hy as ->. now apply Hnew.
    + intros x y _ Hy. inversion Hy.
    + intros x Hx. apply elem_of_app. left. now apply O4.
    + intros x y Hx Hy. apply list_elem_of_singleton in Hy as ->. apply Hnew. now apply O4.
    + intros x Hx. apply elem_of_app. now right.
Qed.

Lemma Ord_settle r q : Inv q -> Ord q -> Ord (settle r q).
Proof.
  intros [H1 H2 H3 H4] [O1 O2 O3 O4 O5 O6]. unfold settle.
  destruct (running q) as [|it others] eqn:Hr; [constructor; rewrite ?Hr; auto|].
  simpl in H1. destruct others; [|simpl in H1; lia].
  assert (Hit : it ∈ taken q) by (apply O6; left).
  set (applied' := if match r with Ret (Some _) => q_callback it | _ => false end
                   then applied q ++ [it] else applied q).
  assert (A1 : StronglySorted (le_key q_timestamp) applied').
  { subst applied'. destruct (match r with Ret (Some _) => q_callback it | _ => false end); [|assumption].
    apply StronglySorted_app_2; [|assumption|repeat constructor].
    intros x y Hx Hy. apply list_elem_of_singleton in Hy as ->. apply O5; [assumption | left]. }
  assert (A2 : forall x, x ∈ applied' -> x ∈ taken q).
  { subst applied'. destruct (match r with Ret (Some _) => q_callback it | _ => false end); [|assumption].
    intros x Hx. apply elem_of_app in Hx as [Hx | Hx]; [now apply O4|].
    apply list_elem_of_singleton in Hx as ->. assumption. }
  unfold next. simpl.
  destruct (messageQueue q) as [|h rest] eqn:Hq; simpl.
  - constructor; simpl; auto; intros; exfalso; eapply not_elem_of_nil; eassumption.
  - constructor; simpl; auto.
    + apply StronglySorted_app_2; [|assumption|repeat constructor].
      intros x y Hx Hy. apply list_elem_of_singleton in Hy as ->. apply O2; [assumption | left].
    + intros x y Hx Hy. apply elem_of_app in Hx as [Hx | Hx].
      * apply O2; [assumption | now right].
      * apply list_elem_of_singleton in Hx as ->.
        apply StronglySorted_cons in H2 as [Hall _].
        rewrite Forall_forall in Hall. now apply Hall.
    + intros x Hx. apply elem_of_app. left. now apply A2.
    + intros x y Hx Hy. apply list_elem_of_singleton in Hy as ->.
      apply O2; [now apply A2 | left].
    + intros x Hx. apply elem_of_app. now right.
Qed.

Lemma Ord_run evs q : Inv q -> Ord q -> timely evs q = true -> Ord (run evs q).
Proof.
  revert q. induction evs as [|e evs IH]; intros q Hi Ho Ht; [exact Ho|].
  simpl in *. apply andb_true_iff in Ht as [He Ht].
  destruct e as [now raw cb | r]; simpl in *.
  - apply IH; [now apply Inv_queueMessage | now apply Ord_queueMessage | exact Ht].
  - apply IH; [now apply Inv_settle | now apply Ord_settle | exact Ht].
Qed.

(** C6 (what fails as stated).  Scenario D: the event with the timestamp
    [T + 30] arrives first, while the queue is idle, and is taken at
    once; its callback runs before those of [T + 10] and [T + 20].  The
    timestamps are distinct and every enrichment succeeds, yet neither
    the order in which the items are taken nor the order in which they
    are applied is the timestamp order. *)
Lemma C6_first_arrival_is_taken_at_once :
  map q_timestamp (items scenarioD) = [T + 30; T + 10; T + 20] /\
  map q_timestamp (taken (run scenarioD init)) = [T + 30; T + 10; T + 20] /\
  map q_timestamp (applied (run scenarioD init)) = [T + 30; T + 10; T + 20] /\
  sorted_by q_timestamp (applied (run scenarioD init)) = false /\
  running (run scenarioD init) = [] /\ messageQueue (run scenarioD init) = [].
Proof. repeat split; vm_compute; reflexivity. Qed.

Lemma applied_queueMessage now raw cb q :
  applied (queueMessage now raw cb q) = applied q.
Proof.
  unfold queueMessage, processMessageQueue, next. simpl.
  destruct (isProcessingQueue q); simpl; [reflexivity|].
  destruct (bool_decide _); simpl; [reflexivity|].
  destruct (sort_by q_timestamp _); reflexivity.
Qed.

Lemma applied_settle r it q :
  running q = [it] -> applied (settle r q) = applied q ++ handed r it.
Proof.
  intros Hr. unfold settle, next, handed. rewrite Hr. simpl.
  destruct (messageQueue q); simpl;
    destruct r as [[m|]|]; simpl; try destruct (q_callback it); simpl;
    now rewrite ?app_nil_r.
Qed.

Lemma drained_queueMessage now raw q :
  Inv q -> withCallback q -> taken q = applied q ++ running q ->
  withCallback (queueMessage now raw true q) /\
  taken (queueMessage now raw true q) =
    applied (queueMessage now raw true q) ++ running (queueMessage now raw true q).
Proof.
  intros [H1 H2 H3 H4] Hc Ht. unfold withCallback in *. unfold queueMessage. simpl.
  destruct (isProcessingQueue q) eqn:Hf; simpl.
  - split; [|exact Ht]. rewrite sort_by_perm.
    rewrite <- app_assoc, (Permutation_app_comm [_] (running q)), app_assoc.
    apply Forall_app. split; [exact Hc | repeat constructor].
  - assert (Hr : running q = []).
    { destruct (running q) as [|a r] eqn:E; [reflexivity|].
      assert (false = true) by (apply H3; easy). discriminate. }
    rewrite (H4 Hr). simpl. unfold processMessageQueue, next. simpl. rewrite Hr. simpl.
    split; [repeat constructor|]. rewrite Ht, Hr, app_nil_r. reflexivity.
Qed.

Lemma drained_settle m q :
  Inv q -> withCallback q -> taken q = applied q ++ running q ->
  withCallback (settle (Ret (Some m)) q) /\
  taken (settle (Ret (Some m)) q) =
    applied (settle (Ret (Some m)) q) ++ running (settle (Ret (Some m)) q).
Proof.
  intros [H1 H2 H3 H4] Hc Ht. unfold withCallback in *. unfold settle.
  destruct (running q) as [|it others] eqn:Hr; [rewrite Hr; auto|].
  simpl in H1. destruct others; [|simpl in H1; lia].
  assert (Hit : q_callback it = true).
  { rewrite Forall_app in Hc. destruct Hc as [_ Hc]. now apply Forall_cons in Hc as [Hc _]. }
  rewrite Hit. unfold next. simpl.
  destruct (messageQueue q) as [|h rest] eqn:Hq; simpl.
  - split; [constructor|]. now rewrite app_nil_r.
  - split.
    + rewrite Forall_app in Hc. destruct Hc as [Hc _]. apply Forall_cons in Hc as [Hh Hrest].
      apply Forall_app. split; [exact Hrest | repeat constructor; exact Hh].
    + rewrite Ht. now rewrite <- app_assoc.
Qed.

Lemma drained_run evs q :
  Inv q -> withCallback q -> taken q = applied q ++ running q -> succeeds evs = true ->
  taken (run evs q) = applied (run evs q) ++ running (run evs q).
Proof.
  revert q. induction evs as [|e evs IH]; intros q Hi Hc Ht Hs; [exact Ht|].
  simpl in Hs. apply andb_true_iff in Hs as [He Hs]. simpl.
  destruct e as [now raw cb | r]; simpl.
  - subst cb. destruct (drained_queueMessage now raw q Hi Hc Ht) as [Hc' Ht'].
    apply IH; auto. now apply Inv_queueMessage.
  - destruct r as [[m|]|]; try discriminate.
    destruct (drained_settle m q Hi Hc Ht) as [Hc' Ht'].
    apply IH; auto. now apply Inv_settle.
Qed.


Lemma appliedOk_step e q : Inv q -> appliedOk q -> appliedOk (step e q).
Proof.
  intros [H1 H2 H3 H4] [Hr Ha]. destruct e as [now raw cb | r]; simpl.
  - unfold queueMessage, processMessageQueue, next. simpl.
    destruct (isProcessingQueue q) eqn:Hf; simpl; [split; assumption|].
    destruct (bool_decide _); simpl; [split; assumption|].
    destruct (sort_by q_timestamp _) as [|h rest]; simpl; [split; assumption|].
    split.
    + intros x Hx. apply elem_of_app in Hx as [Hx|Hx]; apply elem_of_app; auto.
    + intros x Hx. destruct (Ha x Hx) as [Hin Hcb]. split; [apply elem_of_app; auto | exact Hcb].
  - unfold settle. destruct (running q) as [|it others] eqn:E; [split; [now rewrite E|assumption]|].
    simpl in H1. destruct others; [|simpl in H1; lia].
    assert (Hit : it ∈ taken q) by (apply Hr; left).
    set (applied' := if match r with Ret (Some _) => q_callback it | _ => false end
                     then applied q ++ [it] else applied q).
    assert (Ha' : forall x, x ∈ applied' -> x ∈ taken q /\ q_callback x = true).
    { subst applied'.
      destruct (match r with Ret (Some _) => q_callback it | _ => false end) eqn:Hc; [|assumption].
      intros x Hx. apply elem_of_app in Hx as [Hx|Hx]; [auto|].
      apply list_elem_of_singleton in Hx as ->. split; [exact Hit|].
      destruct r as [[m|]|]; congruence. }
    unfold next. simpl. destruct (messageQueue q) as [|h rest]; simpl.
    + split; [intros x Hx; inversion Hx | exact Ha'].
    + split.
      * intros x Hx. apply list_elem_of_singleton in Hx as ->. apply elem_of_app. right. left.
      * intros x Hx. destruct (Ha' x Hx). split; [apply elem_of_app; auto | assumption].
Qed.

Lemma appliedOk_run evs q : Inv q -> appliedOk q -> appliedOk (run evs q).
Proof.
  revert q. induction evs as [|e evs IH]; intros q Hi Ho; [exact Ho|].
  simpl. apply IH; [|now apply appliedOk_step].
  destruct e; [apply Inv_queueMessage | apply Inv_settle]; exact Hi.
Qed.

(** C6, amended.  For every schedule of arrivals and settled enrichments:
    at most one enrichment runs at a time; the buffer is kept in
    non-decreasing timestamp order, so that each item taken is an
    earliest one among those buffered at that moment; however the running
    enrichment settles (also by failing) the next buffered item is taken,
    and the queue is idle only with an empty buffer; no item is lost or
    taken twice.  The order in which items are taken, and the order in
    which they are applied, is the timestamp order whenever no event
    arrives with a timestamp earlier than that of an item already taken
    (an event that arrives while the queue is idle is taken at once).
    An arrival applies nothing; when the enrichment of the item being
    processed settles, the item is handed to its callback exactly if the
    enrichment returned a message and a callback was given, and is then
    the last one applied; nothing is applied that was not taken.  When
    every enrichment returns a message and every event has a callback,
    the items taken are the items applied, in this order, followed by
    the one being enriched; if moreover the queue has come to rest and
    the schedule was timely, every event has been applied, in timestamp
    order. *)
Theorem C6_single_flight_earliest_buffered_first (evs : list event) :
  (length (running (run evs init)) <= 1)%nat /\
  sorted_by q_timestamp (messageQueue (run evs init)) = true /\
  (forall r nxt rest, messageQueue (run evs init) = nxt :: rest ->
     running (settle r (run evs init)) = [nxt] /\
     messageQueue (settle r (run evs init)) = rest) /\
  (running (run evs init) = [] ->
     messageQueue (run evs init) = [] /\ isProcessingQueue (run evs init) = false) /\
  taken (run evs init) ++ messageQueue (run evs init) ≡ₚ items evs /\
  (timely evs init = true ->
     sorted_by q_timestamp (taken (run evs init)) = true /\
     sorted_by q_timestamp (applied (run evs init)) = true) /\
  (forall now raw cb,
     applied (queueMessage now raw cb (run evs init)) = applied (run evs init)) /\
  (forall r it, running (run evs init) = [it] ->
     applied (settle r (run evs init)) = applied (run evs init) ++ handed r it) /\
  (forall x, x ∈ applied (run evs init) ->
     x ∈ taken (run evs init) /\ q_callback x = true) /\
  (succeeds evs = true ->
     taken (run evs init) = applied (run evs init) ++ running (run evs init)) /\
  (timely evs init = true -> succeeds evs = true -> running (run evs init) = [] ->
     applied (run evs init) ≡ₚ items evs /\
     sorted_by q_timestamp (applied (run evs init)) = true).
Proof.
  pose proof (Inv_run evs init Inv_init) as Hi.
  destruct Hi as [H1 H2 H3 H4].
  assert (Hdr : succeeds evs = true ->
            taken (run evs init) = applied (run evs init) ++ running (run evs init)).
  { apply drained_run; [apply Inv_init | constructor | reflexivity]. }
  split; [exact H1|].
  split; [now apply sorted_by_strongly|].
  split.
  { intros r nxt rest Hq. unfold settle.
    destruct (running (run evs init)) as [|it others] eqn:Hr.
    - rewrite (H4 eq_refl) in Hq. discriminate.
    - simpl in H1. destruct others; [|simpl in H1; lia].
      unfold next. simpl. rewrite Hq. simpl. auto. }
  split.
  { intros Hr. split; [now apply H4|].
    destruct (isProcessingQueue (run evs init)) eqn:Hf; [|reflexivity].
    exfalso. now apply H3. }
  split; [apply (perm_run evs init Inv_init)|].
  split.
  { intros Ht. destruct (Ord_run evs init Inv_init Ord_init Ht) as [O1 _ O3 _ _ _].
    split; now apply sorted_by_strongly. }
  split; [intros now raw cb; apply applied_queueMessage|].
  split; [intros r it Hr; now apply applied_settle|].
  split.
  { apply (appliedOk_run evs init Inv_init). split; intros x Hx; inversion Hx. }
  split; [exact Hdr|].
  intros Ht Hs Hr. split.
  - pose proof (perm_run evs init Inv_init) as Hp. simpl in Hp.
    rewrite (H4 Hr), app_nil_r, (Hdr Hs), Hr, app_nil_r in Hp. exact Hp.
  - destruct (Ord_run evs init Inv_init Ord_init Ht) as [_ _ O3 _ _ _].
    now apply sorted_by_strongly.
Qed.

Lemma C6_witness :
  (timely inOrder init = true /\
   sorted_by q_timestamp (taken (run inOrder init)) = true /\
   sorted_by q_timestamp (applied (run inOrder init)) = true) /\
  (succeeds oldestFirst = true /\
   taken (run oldestFirst init) = applied (run oldestFirst init) ++ running (run oldestFirst init)) /\
  applied (run oldestFirst init) ≡ₚ items oldestFirst /\
  sorted_by q_timestamp (applied (run oldestFirst init)) = true.
Proof.
  split; [|split].
  - split; [reflexivity|].
    apply (proj1 (proj2 (proj2 (proj2 (proj2 (proj2 (C6_single_flight_earliest_buffered_first inOrder))))))).
    reflexivity.
  - split; [reflexivity|].
    apply (proj1 (proj2 (proj2 (proj2 (proj2 (proj2 (proj2 (proj2 (proj2 (proj2
             (C6_single_flight_earliest_buffered_first oldestFirst))))))))))).
    reflexivity.
  - apply (proj2 (proj2 (proj2 (proj2 (proj2 (proj2 (proj2 (proj2 (proj2 (proj2
             (C6_single_flight_earliest_buffered_first oldestFirst))))))))))); reflexivity.
Defined.

End QueueFacts.

(** ** Applying a remote event *)

Module ReplayFacts.
Import Common Fixture Scenario ArrFacts Spec.


Lemma format1_shape (env : Env) (raw : RawMessage) (fm : Message) :
  Driver1.formatMessage env raw = Some fm -> m_id fm = r_id raw /\ m_tempId fm = None.
Proof.
  unfold Driver1.formatMessage. destruct (currentUser env); [|discriminate].
  intros [= <-]. split; reflexivity.
Qed.

Lemma format1_signed_in (env : Env) (raw : RawMessage) :
  is_Some (currentUser env) -> is_Some (Driver1.formatMessage env raw).
Proof. intros [u Hu]. unfold Driver1.formatMessage. rewrite Hu. eauto. Qed.

Lemma same_id_matches (raw : RawMessage) (x : Message) :
  same_id raw x = true ->
  opt_eqb (m_tempId x) (r_id raw) || String.eqb (m_id x) (r_id raw) = true.
Proof. unfold same_id. intros ->. apply orb_true_r. Qed.

Lemma renderChat1_frame (l : list (option Message)) (s s' : State) :
  Driver1.renderChat l s = Ret s' ->
  pendingMessages s' = pendingMessages s /\ messagesCache s' = messagesCache s /\
  sentMessageIds s' = sentMessageIds s.
Proof.
  unfold Driver1.renderChat. destruct (Arr.sort l) as [sorted|]; simpl; [|discriminate].
  destruct (Arr.objs sorted); [|discriminate]. intros [= <-]. simpl. auto.
Qed.

Lemma appendMessage_keeps (m : Message) (s : State) :
  pendingMessages (Dom.appendMessage m s) = pendingMessages s /\
  messagesCache (Dom.appendMessage m s) = messagesCache s /\
  sentMessageIds (Dom.appendMessage m s) = sentMessageIds s.
Proof. unfold Dom.appendMessage. destruct (container s); simpl; auto. Qed.

(** What the first driver has established once an event was applied by a
    signed-in session. *)
Lemma first_driver_applied (viewId threadKey : string) (env : Env) (raw : RawMessage) (s s1 : State) :
  is_Some (currentUser env) ->
  Driver1.listener viewId threadKey env raw s = Ret s1 ->
  pendingMessages s1 !! r_id raw = None /\
  exists cache1, messagesCache s1 !! threadKey = Some cache1 /\
    (Arr.some (same_id raw) cache1 = Ret true \/
     (Arr.some (same_id raw) cache1 = Ret false /\ r_id raw ∈ sentMessageIds s1)).
Proof.
  intros Hu. destruct (format1_signed_in env raw Hu) as [fm Hfm].
  destruct (format1_shape _ _ _ Hfm) as [Hid Htmp].
  unfold Driver1.listener. rewrite Hfm.
  destruct (messagesCache s !! threadKey) as [cache|] eqn:Hc; [|discriminate].
  rewrite Htmp, Hid. simpl.
  destruct (pendingMessages s !! r_id raw) as [p|] eqn:Hp.
  - destruct (Arr.findIndex _ cache) as [i|] eqn:Hfi; simpl; [|discriminate].
    intros [= <-]. simpl. rewrite lookup_delete_eq, lookup_insert_eq.
    split; [reflexivity|]. eexists. split; [reflexivity|]. left.
    destruct i as [k|]; simpl.
    + eapply some_after_replace; [apply same_id_matches | | exact Hfi].
      unfold same_id. rewrite Hid. apply String.eqb_refl.
    + eapply some_after_push; [apply same_id_matches | | exact Hfi].
      unfold same_id. rewrite Hid. apply String.eqb_refl.
  - fold (same_id raw).
    destruct (Arr.some (same_id raw) cache) as [[|]|] eqn:Hs; simpl; [| |discriminate].
    + intros [= <-]. split; [exact Hp|]. eexists. split; [exact Hc|]. now left.
    + destruct (bool_decide (r_id raw ∈ sentMessageIds s)) eqn:Hsent.
      * intros [= <-]. split; [exact Hp|]. eexists. split; [exact Hc|]. right.
        split; [exact Hs|]. now apply bool_decide_eq_true in Hsent.
      * destruct (Arr.sort (cache ++ [Some fm])) as [sorted|] eqn:Hsort; simpl; [|discriminate].
        assert (Hin : Arr.some (same_id raw) sorted = Ret true).
        { eapply some_after_sort; [|exact Hsort].
          unfold same_id. rewrite Hid. apply String.eqb_refl. }
        destruct (viewing viewId _).
        -- destruct (length sorted =? 1)%nat.
           ++ intros Hr. destruct (renderChat1_frame _ _ _ Hr) as (-> & -> & _). simpl.
              rewrite lookup_insert_eq. split; [exact Hp|]. eexists. split; [reflexivity|]. now left.
           ++ intros [= <-]. destruct (appendMessage_keeps fm
                 (set_messagesCache (<[threadKey:=sorted]> (messagesCache s)) s)) as (-> & -> & _).
              simpl. rewrite lookup_insert_eq. split; [exact Hp|]. eexists. split; [reflexivity|]. now left.
        -- intros [= <-]. simpl. rewrite lookup_insert_eq.
           split; [exact Hp|]. eexists. split; [reflexivity|]. now left.
Qed.

(** Applying the event to such a state is a no-op in the first driver. *)
Lemma first_driver_reapply (viewId threadKey : string) (env : Env) (raw : RawMessage) (s1 : State)
    (cache1 : list (option Message)) :
  pendingMessages s1 !! r_id raw = None ->
  messagesCache s1 !! threadKey = Some cache1 ->
  (Arr.some (same_id raw) cache1 = Ret true \/
   (Arr.some (same_id raw) cache1 = Ret false /\ r_id raw ∈ sentMessageIds s1)) ->
  Driver1.listener viewId threadKey env raw s1 = Ret s1.
Proof.
  intros Hp Hc Hs. unfold Driver1.listener.
  destruct (Driver1.formatMessage env raw) as [fm|] eqn:Hfm; [|reflexivity].
  destruct (format1_shape _ _ _ Hfm) as [Hid Htmp].
  rewrite Hc, Htmp, Hid. simpl. rewrite Hp. fold (same_id raw).
  destruct Hs as [-> | [-> Hsent]]; simpl; [reflexivity|].
  now rewrite bool_decide_eq_true_2.
Qed.

End ReplayFacts.

(** ** The cache invariant *)

Module CacheFacts.
Import Common Spec ArrFacts.

Lemma objs_Some (l : list (option Message)) (ms : list Message) :
  Arr.objs l = Some ms <-> l = Some <$> ms.
Proof.
  revert ms. induction l as [|[x|] r IH]; intros ms; simpl.
  - split; [intros [= <-]; reflexivity | destruct ms; [reflexivity | discriminate]].
  - destruct (Arr.objs r) as [ms'|] eqn:E; simpl.
    + split.
      * intros [= <-]. simpl. f_equal. now apply IH.
      * destruct ms as [|y t]; [discriminate|]. simpl. intros [= -> Hr].
        apply IH in Hr. now injection Hr as ->.
    + split; [discriminate|].
      destruct ms as [|y t]; [discriminate|]. simpl. intros [= -> Hr].
      apply IH in Hr. discriminate.
  - split; [discriminate | destruct ms; discriminate].
Qed.

Lemma objs_fmap (ms : list Message) : Arr.objs (Some <$> ms) = Some ms.
Proof. now apply objs_Some. Qed.

Lemma sort_objs (l sorted : list (option Message)) (ms : list Message) :
  Arr.objs l = Some ms -> Arr.sort l = Ret sorted ->
  Arr.objs sorted = Some (Arr.sortMessages ms).
Proof.
  intros Ho. unfold Arr.sort. destruct l as [|a [|b t]].
  - injection Ho as <-. intros [= <-]. reflexivity.
  - intros [= <-]. destruct a as [x|]; [|discriminate]. injection Ho as <-. reflexivity.
  - rewrite Ho. intros [= <-]. apply objs_fmap.
Qed.

(** The new-message path ends in a sort: whatever the order before, the
    cache then iterates in non-decreasing [createdAt] order. *)
Lemma sort_gives_sorted_cache (l sorted : list (option Message)) (ms : list Message) :
  Arr.objs l = Some ms -> Arr.sort l = Ret sorted -> sorted_cache sorted.
Proof.
  intros Ho Hs. exists (Arr.sortMessages ms). split; [eapply sort_objs; eassumption|].
  apply SortFacts.sorted_by_strongly, SortFacts.sort_by_sorted.
Qed.

Lemma findIndex_found (K : string) (ms : list Message) (k : nat) :
  Forall (fun m => m_tempId m = None) ms ->
  Arr.findIndex (fun m => opt_eqb (m_tempId m) K || String.eqb (m_id m) K) (Some <$> ms)
    = Ret (Some k) ->
  exists x, ms !! k = Some x /\ m_id x = K.
Proof.
  intros Hall. revert k. induction Hall as [|x r Hx Hr IH]; intros k; [discriminate|].
  rewrite fmap_cons. cbn [Arr.findIndex]. rewrite Hx. cbn [opt_eqb orb].
  destruct (String.eqb (m_id x) K) eqn:E.
  - intros [= <-]. exists x. split; [reflexivity | now apply String.eqb_eq].
  - destruct (Arr.findIndex _ (Some <$> r)) as [[i|]|] eqn:Hf; try discriminate.
    intros [= <-]. simpl. now apply IH.
Qed.

Lemma findIndex_absent (K : string) (ms : list Message) :
  Forall (fun m => m_tempId m = None) ms ->
  Arr.findIndex (fun m => opt_eqb (m_tempId m) K || String.eqb (m_id m) K) (Some <$> ms)
    = Ret None ->
  K ∉ map m_id ms.
Proof.
  intros Hall. induction Hall as [|x r Hx Hr IH]; [intros _; apply not_elem_of_nil|].
  rewrite fmap_cons. cbn [Arr.findIndex]. rewrite Hx. cbn [opt_eqb orb].
  destruct (String.eqb (m_id x) K) eqn:E; [discriminate|].
  destruct (Arr.findIndex _ (Some <$> r)) as [[i|]|] eqn:Hf; try discriminate.
  intros _. simpl. apply not_elem_of_cons. split; [|now apply IH].
  intros ->. now rewrite String.eqb_refl in E.
Qed.

Lemma some_absent (raw : RawMessage) (ms : list Message) :
  Arr.some (same_id raw) (Some <$> ms) = Ret false -> r_id raw ∉ map m_id ms.
Proof.
  rewrite some_objs. intros [= He]. intros Hin.
  apply list_elem_of_fmap in Hin as (x & Hid & Hx).
  assert (existsb (same_id raw) ms = true); [|congruence].
  apply existsb_exists. exists x. split; [now apply list_elem_of_In|].
  unfold same_id. rewrite <- Hid. apply String.eqb_refl.
Qed.

Lemma wf_replace (ms : list Message) (k : nat) (x fm : Message) :
  ms !! k = Some x -> m_id x = m_id fm -> m_tempId fm = None ->
  Forall (fun m => m_tempId m = None) ms -> NoDup (map m_id ms) ->
  wf_cache (<[k := Some fm]> (Some <$> ms)) /\ Some fm ∈ <[k := Some fm]> (Some <$> ms).
Proof.
  intros Hk Hid Htmp Hall Hnd. split.
  - exists (<[k := fm]> ms). split; [|split].
    + apply objs_Some. now rewrite list_fmap_insert.
    + apply Forall_insert; assumption.
    + rewrite list_fmap_insert, <- Hid.
      rewrite list_insert_id; [assumption|]. now rewrite list_lookup_fmap, Hk.
  - apply list_elem_of_lookup. exists k. apply list_lookup_insert_eq.
    rewrite length_fmap. now apply lookup_lt_Some in Hk.
Qed.

Lemma wf_push (ms : list Message) (fm : Message) :
  m_id fm ∉ map m_id ms -> m_tempId fm = None ->
  Forall (fun m => m_tempId m = None) ms -> NoDup (map m_id ms) ->
  wf_cache ((Some <$> ms) ++ [Some fm]) /\ Some fm ∈ (Some <$> ms) ++ [Some fm].
Proof.
  intros Hnew Htmp Hall Hnd. split.
  - exists (ms ++ [fm]). split; [|split].
    + apply objs_Some. now rewrite fmap_app.
    + apply Forall_app. split; [assumption | now constructor].
    + rewrite map_app. simpl. apply NoDup_app. split; [assumption|]. split.
      * intros y Hy Hy'. apply list_elem_of_singleton in Hy' as ->. contradiction.
      * apply NoDup_singleton.
  - apply elem_of_app. right. left.
Qed.

Lemma wf_sorted (ms : list Message) (l sorted : list (option Message)) :
  Arr.objs l = Some ms ->
  Forall (fun m => m_tempId m = None) ms -> NoDup (map m_id ms) ->
  Arr.sort l = Ret sorted ->
  wf_cache sorted /\ sorted_cache sorted.
Proof.
  intros Ho Hall Hnd Hs. split; [|eapply sort_gives_sorted_cache; eassumption].
  exists (Arr.sortMessages ms). split; [eapply sort_objs; eassumption|].
  unfold Arr.sortMessages. split.
  - now rewrite SortFacts.sort_by_perm.
  - now rewrite (Permutation_map m_id (SortFacts.sort_by_perm m_createdAt ms)).
Qed.

(** Every application of the first driver's listener keeps the cache
    well formed; the merge path leaves the message in it (hence exactly
    once), and the new-message path leaves the cache sorted. *)
Lemma first_driver_listener_keeps_cache
    (viewId threadKey : string) (env : Env) (raw : RawMessage) (s s' : State)
    (cache : list (option Message)) :
  messagesCache s !! threadKey = Some cache -> wf_cache cache ->
  Driver1.listener viewId threadKey env raw s = Ret s' ->
  exists cache', messagesCache s' !! threadKey = Some cache' /\ wf_cache cache' /\
    (forall fm, Driver1.formatMessage env raw = Some fm ->
       (is_Some (pendingMessages s !! r_id raw) ->
          Some fm ∈ cache' /\ pendingMessages s' !! r_id raw = None) /\
       (pendingMessages s !! r_id raw = None -> cache' <> cache -> sorted_cache cache')).
Proof.
  intros Hc (ms & Ho & Hall & Hnd). apply objs_Some in Ho as ->.
  unfold Driver1.listener.
  destruct (Driver1.formatMessage env raw) as [fm|] eqn:Hfm.
  2:{ intros [= <-]. exists (Some <$> ms). split; [exact Hc|]. split.
      - exists ms. split; [apply objs_fmap | auto].
      - intros fm [=]. }
  destruct (ReplayFacts.format1_shape _ _ _ Hfm) as [Hid Htmp].
  rewrite Hc, Htmp, Hid. simpl.
  destruct (pendingMessages s !! r_id raw) as [p|] eqn:Hp.
  - destruct (Arr.findIndex _ (Some <$> ms)) as [i|] eqn:Hfi; simpl; [|discriminate].
    intros [= <-]. simpl. rewrite lookup_insert_eq, lookup_delete_eq.
    eexists. split; [reflexivity|].
    assert (Hres : wf_cache (Driver1.replaceOrPush i fm (Some <$> ms)) /\
                   Some fm ∈ Driver1.replaceOrPush i fm (Some <$> ms)).
    { destruct i as [k|]; simpl.
      - destruct (findIndex_found _ _ _ Hall Hfi) as (x & Hk & Hx).
        eapply wf_replace; eauto. congruence.
      - apply wf_push; auto. rewrite Hid. now apply findIndex_absent. }
    destruct Hres as [Hwf Hin]. split; [exact Hwf|].
    intros fm' [= <-]. split; [auto|]. intros [=].
  - fold (same_id raw).
    destruct (Arr.some (same_id raw) (Some <$> ms)) as [[|]|] eqn:Hs; simpl; [| |discriminate].
    + intros [= <-]. exists (Some <$> ms). split; [exact Hc|]. split.
      * exists ms. split; [apply objs_fmap | auto].
      * intros fm' _. split; [intros [? [=]] | intros _ Hne; now destruct Hne].
    + destruct (bool_decide _).
      * intros [= <-]. exists (Some <$> ms). split; [exact Hc|]. split.
        -- exists ms. split; [apply objs_fmap | auto].
        -- intros fm' _. split; [intros [? [=]] | intros _ Hne; now destruct Hne].
      * destruct (Arr.sort _) as [sorted|] eqn:Hsort; simpl; [|discriminate].
        assert (Hw : wf_cache sorted /\ sorted_cache sorted).
        { destruct (wf_push ms fm) as [(ms' & Ho' & Hall' & Hnd') _]; auto.
          - rewrite Hid. now apply some_absent.
          - eapply wf_sorted; eauto. }
        destruct Hw as [Hw1 Hw2].
        assert (Hpost : forall s1, messagesCache s1 = <[threadKey := sorted]> (messagesCache s) ->
                  exists cache', messagesCache s1 !! threadKey = Some cache' /\ wf_cache cache' /\
                    (forall fm0, Some fm = Some fm0 ->
                       (is_Some (@None Message) -> Some fm0 ∈ cache' /\ pendingMessages s1 !! r_id raw = None) /\
                       (@None Message = None -> cache' <> Some <$> ms -> sorted_cache cache'))).
        { intros s1 ->. rewrite lookup_insert_eq. exists sorted. split; [reflexivity|].
          split; [exact Hw1|]. intros fm0 _. split; [intros [? [=]] | auto]. }
        destruct (viewing viewId _).
        -- destruct (length sorted =? 1)%nat.
           ++ intros Hr. apply Hpost. now destruct (ReplayFacts.renderChat1_frame _ _ _ Hr) as (_ & -> & _).
           ++ intros [= <-]. apply Hpost.
              now destruct (ReplayFacts.appendMessage_keeps fm
                     (set_messagesCache (<[threadKey:=sorted]> (messagesCache s)) s)) as (_ & -> & _).
        -- intros [= <-]. apply Hpost. reflexivity.
Qed.


Lemma findIndex_total (p : Message -> bool) (ms : list Message) :
  exists i, Arr.findIndex p (Some <$> ms) = Ret i.
Proof.
  induction ms as [|x r [i IH]]; [eexists; reflexivity|].
  rewrite fmap_cons. cbn [Arr.findIndex]. rewrite IH.
  destruct (p x); eexists; reflexivity.
Qed.

Lemma sort_total (ms : list Message) : exists sorted, Arr.sort (Some <$> ms) = Ret sorted.
Proof.
  unfold Arr.sort. rewrite objs_fmap.
  destruct (Some <$> ms) as [|a [|b t]]; eexists; reflexivity.
Qed.

Lemma renderChat1_total (ms : list Message) (s : State) :
  exists s', Driver1.renderChat (Some <$> ms) s = Ret s'.
Proof.
  unfold Driver1.renderChat. destruct (sort_total ms) as [sorted Hs]. rewrite Hs. simpl.
  rewrite (sort_objs _ _ _ (objs_fmap ms) Hs). eexists; reflexivity.
Qed.

Lemma renderChat2_total (ms : list Message) (s : State) :
  exists s', Driver2.renderChat (Some <$> ms) s = Ret s'.
Proof.
  unfold Driver2.renderChat. destruct (sort_total ms) as [sorted Hs].
  destruct (Some <$> ms) as [|a l] eqn:E; [eexists; reflexivity|].
  rewrite <- E in *. rewrite Hs. simpl.
  rewrite (sort_objs _ _ _ (objs_fmap ms) Hs). eexists; reflexivity.
Qed.

Lemma sorted_is_objs (l sorted : list (option Message)) (ms : list Message) :
  Arr.objs l = Some ms -> Arr.sort l = Ret sorted -> sorted = Some <$> Arr.sortMessages ms.
Proof. intros Ho Hs. apply objs_Some. eapply sort_objs; eassumption. Qed.

(** The listeners return on every thread whose cache exists and has no
    [null] slot. *)
Lemma listeners_return (viewId threadKey : string) (env : Env) (raw : RawMessage) (s : State)
    (ms : list Message) :
  messagesCache s !! threadKey = Some (Some <$> ms) ->
  (exists s', Driver1.listener viewId threadKey env raw s = Ret s') /\
  (exists s', Driver2.listener viewId threadKey env raw s = Ret s').
Proof.
  intros Hc. split.
  - unfold Driver1.listener.
    destruct (Driver1.formatMessage env raw) as [fm|]; [|eexists; reflexivity].
    rewrite Hc. destruct (pendingMessages s !! _).
    + destruct (findIndex_total (fun m => opt_eqb (m_tempId m) (Js.or_str (m_tempId fm) (m_id fm))
                                   || String.eqb (m_id m) (Js.or_str (m_tempId fm) (m_id fm))) ms)
        as [i ->]. eexists; reflexivity.
    + destruct (match m_tempId fm with Some t => _ | None => None end) as [t|].
      * destruct (findIndex_total (fun m => opt_eqb (m_tempId m) t) ms) as [i ->].
        eexists; reflexivity.
      * rewrite some_objs. simpl. destruct (existsb _ ms); [eexists; reflexivity|].
        destruct (bool_decide _); [eexists; reflexivity|].
        assert (Ho : Arr.objs ((Some <$> ms) ++ [Some fm]) = Some (ms ++ [fm])).
        { apply objs_Some. now rewrite fmap_app. }
        destruct (sort_total (ms ++ [fm])) as [sorted Hs].
        rewrite fmap_app in Hs. simpl in Hs. rewrite Hs. simpl.
        destruct (viewing viewId _); [|eexists; reflexivity].
        destruct (length sorted =? 1)%nat; [|eexists; reflexivity].
        rewrite (sorted_is_objs _ _ _ Ho Hs). apply renderChat1_total.
  - unfold Driver2.listener.
    destruct (bool_decide _); [eexists; reflexivity|]. simpl. rewrite Hc.
    destruct (pendingMessages s !! _).
    + destruct (findIndex_total (fun m => opt_eqb (m_tempId m) (Js.or_str (r_tempId raw) (r_id raw))
                                   || String.eqb (m_id m) (Js.or_str (r_tempId raw) (r_id raw))) ms)
        as [i ->]. eexists; reflexivity.
    + rewrite some_objs. simpl. destruct (existsb _ ms); [eexists; reflexivity|].
      destruct (Driver2.formatMessage env raw) as [fm|]; [|eexists; reflexivity].
      assert (Ho : Arr.objs ((Some <$> ms) ++ [Some fm]) = Some (ms ++ [fm])).
      { apply objs_Some. now rewrite fmap_app. }
      destruct (sort_total (ms ++ [fm])) as [sorted Hs].
      rewrite fmap_app in Hs. simpl in Hs. rewrite Hs. simpl.
      destruct (viewing viewId _); [|eexists; reflexivity].
      rewrite (sorted_is_objs _ _ _ Ho Hs). apply renderChat2_total.
Qed.

End CacheFacts.

(** ** The echo of a pending placeholder *)

Module EchoFacts.
Import Common Fixture Scenario.

(** C1 (the second driver breaks it).  Alice's text "hello" is pending
    under [K] and its echo, whose match key is [K], is applied.  Both
    drivers merge: the bubble becomes 'delivered' and the pending entry
    is removed.  The first driver appends the message to the cache; the
    second driver, which only replaces an entry it finds, leaves the
    cache without any entry for the message. *)
Theorem C1_second_driver_merge_adds_no_cache_entry :
  ids <$> messagesCache opened2 !! key = Some [Some "-bob"] /\
  pendingMessages sent2 !! K = Some (textPlaceholder K "hello" alice "Alice" T) /\
  remoteWrites sent2 = [helloWrite] /\
  (exists s', Driver2.listener room key env0 (echo helloWrite) sent2 = Ret s' /\
     pendingMessages s' !! K = None /\
     map b_status (bubbles s') = ["delivered"] /\
     ids <$> messagesCache s' !! key = Some [Some "-bob"]) /\
  (exists s', Driver1.listener room key env0 (echo helloWrite) sent1 = Ret s' /\
     pendingMessages s' !! K = None /\
     map b_status (bubbles s') = ["delivered"] /\
     ids <$> messagesCache s' !! key = Some [Some "-bob"; Some K]).
Proof.
  split; [computed|].
  split; [computed|].
  split; [computed|].
  split; eexists; (split; [computed|]); vm_compute; auto.
Qed.

(** C3 (the first driver breaks it).  Bob's message, stamped [T + 100]
    by a clock that runs ahead, is in the cache when Alice sends "hello"
    at [T].  The merge path of the first driver pushes the echo of her
    message without sorting: the cache then iterates [T + 100] before
    [T]. *)
Theorem C3_first_driver_merge_appends_unsorted :
  ids <$> messagesCache bobOnce !! key = Some [Some "-bob"] /\
  pendingMessages sentAfterBob !! K = Some (textPlaceholder K "hello" alice "Alice" T) /\
  remoteWrites sentAfterBob = [helloWrite] /\
  exists s2 ms,
    Driver1.listener room key env0 (echo helloWrite) sentAfterBob = Ret s2 /\
    Arr.objs <$> messagesCache s2 !! key = Some (Some ms) /\
    map m_id ms = ["-bob"; K] /\
    map m_createdAt ms = [T + 100; T] /\
    sorted_by m_createdAt ms = false.
Proof.
  split; [computed|].
  split; [computed|].
  split; [computed|].
  do 2 eexists.
  split; [computed|].
  split; [computed|].
  vm_compute; auto.
Qed.

End EchoFacts.

(** ** Validation *)

Module ValidationFacts.
Import Common Fixture Scenario.

Lemma set_isSending_roundtrip (s : State) :
  isSending s = false -> set_isSending false (set_isSending true s) = s.
Proof. destruct s; simpl; intros ->; reflexivity. Qed.

(** The element [querySelector] finds is the one [update] changes: when
    some bubble satisfies [p], the updated list holds [f b] for a bubble
    [b] that satisfied [p]. *)
Lemma update_hits (p : Bubble -> bool) (f : Bubble -> Bubble) (l : list Bubble) (x : Bubble) :
  In x l -> p x = true -> exists b, p b = true /\ In (f b) (Dom.update p f l).
Proof.
  induction l as [|y r IH]; simpl; [tauto|].
  intros Hin Hp. destruct (p y) eqn:Hy.
  - exists y. split; [assumption | now left].
  - destruct Hin as [-> | Hin]; [congruence|].
    destruct (IH Hin Hp) as (b & Hb & Hinb). exists b. split; [assumption | now right].
Qed.

Lemma uploadFailed_frame (tk : UploadTask) (s : State) :
  remoteWrites (uploadFailed tk s) = remoteWrites s /\
  messagesCache (uploadFailed tk s) = messagesCache s /\
  pendingMessages (uploadFailed tk s) = pendingMessages s /\
  is_Some (failedUploads (uploadFailed tk s) !! t_tempId tk).
Proof.
  unfold uploadFailed; simpl. repeat split.
  rewrite lookup_insert_eq. eauto.
Qed.

Lemma uploadFailed_marks_bubble (tk : UploadTask) (s : State) (x : Bubble) :
  In x (bubbles s) -> b_message_id x = t_tempId tk ->
  exists b, In b (bubbles (uploadFailed tk s)) /\
    b_message_id b = t_tempId tk /\ b_status b = "failed" /\ b_retry b = true.
Proof.
  intros Hin Hid. unfold uploadFailed; simpl.
  destruct (update_hits (Dom.by_message_id (t_tempId tk))
              (fun b => let b' := Dom.set_status "failed" b in
                        if String.eqb "failed" "failed" then Dom.set_retry true b' else b')
              (bubbles s) x Hin) as (b & Hb & Hinb).
  { unfold Dom.by_message_id. now apply String.eqb_eq. }
  eexists. split; [exact Hinb|].
  unfold Dom.by_message_id in Hb. apply String.eqb_eq in Hb.
  simpl. auto.
Qed.

(** C8 (what fails as stated).  An 11 MB image exceeds the 10 MB limit,
    yet sending it registers the placeholder under [K] and renders its
    bubble before the upload service is asked: state is created before
    the size is checked. *)
Lemma C8_oversized_attachment_gets_a_placeholder :
  UploadService.validateFileSize bigPhoto = false /\
  pendingMessages (picked bigPhoto opened1) !! K = None /\
  bubbles (picked bigPhoto opened1) = [] /\
  pendingMessages (picked bigPhoto opened2) !! K = None /\
  bubbles (picked bigPhoto opened2) = [] /\
  (exists s tk, uploading1 bigPhoto = Await s (Upload tk) /\
     is_Some (pendingMessages s !! K) /\
     map (fun b => (b_message_id b, b_status b)) (bubbles s) = [(K, "uploading")]) /\
  (exists s tk, uploading2 bigPhoto = Await s (Upload tk) /\
     is_Some (pendingMessages s !! K) /\
     map (fun b => (b_message_id b, b_status b)) (bubbles s) = [(K, "uploading")]).
Proof.
  do 5 (split; [computed|]).
  split; do 2 eexists; (split; [computed|]);
    (split; [computed|]); vm_compute; reflexivity.
Qed.

Lemma appendMessage_uploading (tk : UploadTask) (t : Z) (s : State) :
  container s = true ->
  exists b, In b (bubbles (Dom.appendMessage (uploadPlaceholder tk t) s)) /\
            b_message_id b = t_tempId tk.
Proof.
  intros Hc. unfold Dom.appendMessage. rewrite Hc. simpl.
  eexists. split; [apply in_or_app; right; left; reflexivity | reflexivity].
Qed.

Lemma uploadFile_oversized (f : File) (net : UploadService.Network) :
  UploadService.validateFileSize f = false ->
  UploadService.uploadFile f net = UploadService.Rejected.
Proof. unfold UploadService.uploadFile. now intros ->. Qed.

Lemma appendMessage_frame (m : Message) (s : State) :
  pendingMessages (Dom.appendMessage m s) = pendingMessages s /\
  messagesCache (Dom.appendMessage m s) = messagesCache s /\
  remoteWrites (Dom.appendMessage m s) = remoteWrites s.
Proof. unfold Dom.appendMessage. destruct (container s); simpl; auto. Qed.

#[local] Opaque PushId.genTempId.

Lemma oversized_first_driver (env : Env) (s : State) (value : string) (f : File) (ty : string) (u : User) :
  composer s = Some value ->
  pendingAttachment s = Some (mkAttachment (Some f) (Some ty)) ->
  currentUser env = Some u ->
  String.eqb (Js.or_str (currentView s) "") "" = false ->
  uploadServiceReady env = true ->
  container s = true ->
  UploadService.validateFileSize f = false ->
  Spec.fails_after_placeholder Driver1.sendMessageFromComposer Driver1.uploadSettled env s f.
Proof.
  intros Hc Ha Hu Hv Hup Hcont Hsize.
  unfold Spec.fails_after_placeholder, Driver1.sendMessageFromComposer.
  rewrite Hc, Ha, Hu. rewrite bool_decide_eq_true_2 by eauto. simpl.
  rewrite Hv. unfold Driver1.uploadAndSendAttachment. simpl. rewrite Ha. simpl.
  destruct (PushId.genTempId (now env) (random env) (pushState s)) as [tempId ps] eqn:Hg.
  simpl. rewrite Hup.
  do 2 eexists. split; [reflexivity|]. split; [reflexivity|].
  simpl.
  match goal with |- context [Dom.appendMessage ?m ?s0] =>
    destruct (appendMessage_frame m s0) as (Hp1 & Hm1 & Hw1);
    destruct (appendMessage_uploading (mkTask tempId
             (if existsb (String.eqb (Js.or_str (currentView s) "")) (rooms s) then "room" else "dm")
             (Js.or_str (currentView s) "") (Js.trim value) u (senderNameOf u) f true) (now env) s0 Hcont) as (x & Hx & Hxid)
  end.
  split.
  { rewrite Hp1. simpl. rewrite lookup_insert_eq. eauto. }
  intros env' net. rewrite (uploadFile_oversized _ _ Hsize).
  eexists. split; [reflexivity|].
  match goal with |- context [uploadFailed ?tk ?s0] =>
    destruct (uploadFailed_frame tk s0) as (Hw & Hm & Hp & Hf);
    destruct (uploadFailed_marks_bubble tk s0 x Hx Hxid) as (b & Hb);
    rewrite Hw, Hm, Hp
  end.
  rewrite Hw1, Hm1, Hp1. simpl. rewrite lookup_insert_eq.
  split; [reflexivity|]. split; [reflexivity|]. split; [eauto|].
  split; [exact Hf|]. exists b. exact Hb.
Qed.

Lemma finish_frame (tk : UploadTask) (s : State) :
  remoteWrites (Driver2.finish tk s) = remoteWrites s /\
  messagesCache (Driver2.finish tk s) = messagesCache s /\
  pendingMessages (Driver2.finish tk s) = pendingMessages s /\
  failedUploads (Driver2.finish tk s) = failedUploads s /\
  bubbles (Driver2.finish tk s) = bubbles s.
Proof. unfold Driver2.finish. destruct (t_fromComposer tk); simpl; auto. Qed.

Lemma oversized_second_driver (env : Env) (s : State) (value : string) (f : File) (ty : string) (u : User) :
  composer s = Some value ->
  pendingAttachment s = Some (mkAttachment (Some f) (Some ty)) ->
  currentUser env = Some u ->
  String.eqb (Js.or_str (currentView s) "") "" = false ->
  uploadServiceReady env = true ->
  container s = true ->
  isSending s = false ->
  isUploading s = false ->
  UploadService.validateFileSize f = false ->
  Spec.fails_after_placeholder Driver2.sendMessageFromComposer Driver2.uploadSettled env s f.
Proof.
  intros Hc Ha Hu Hv Hup Hcont Hsend Hupl Hsize.
  unfold Spec.fails_after_placeholder, Driver2.sendMessageFromComposer.
  rewrite Hsend. simpl. rewrite Hc, Ha, Hu. rewrite bool_decide_eq_true_2 by eauto. simpl.
  rewrite Hv. unfold Driver2.uploadAndSendAttachment. simpl. rewrite Hupl. simpl.
  destruct (PushId.genTempId (now env) (random env) (pushState s)) as [tempId ps] eqn:Hg.
  simpl. rewrite Hup.
  do 2 eexists. split; [reflexivity|]. split; [reflexivity|].
  simpl.
  match goal with |- context [Dom.appendMessage (uploadPlaceholder ?tk ?t) ?s0] =>
    destruct (appendMessage_frame (uploadPlaceholder tk t) s0) as (Hp1 & Hm1 & Hw1);
    destruct (appendMessage_uploading tk t s0 Hcont) as (x & Hx & Hxid)
  end.
  split.
  { rewrite Hp1. simpl. rewrite lookup_insert_eq. eauto. }
  intros env' net. rewrite (uploadFile_oversized _ _ Hsize).
  eexists. split; [reflexivity|].
  match goal with |- context [Driver2.finish ?tk (uploadFailed ?tk ?s0)] =>
    destruct (finish_frame tk (uploadFailed tk s0)) as (Hw2 & Hm2 & Hp2 & Hf2 & Hb2);
    destruct (uploadFailed_frame tk s0) as (Hw & Hm & Hp & Hf);
    destruct (uploadFailed_marks_bubble tk s0 x Hx Hxid) as (b & Hb);
    rewrite Hw2, Hm2, Hp2, Hf2, Hb2, Hw, Hm, Hp
  end.
  rewrite Hw1, Hm1, Hp1. simpl. rewrite lookup_insert_eq.
  split; [reflexivity|]. split; [reflexivity|]. split; [eauto|].
  split; [exact Hf|]. exists b. exact Hb.
Qed.

(** C8, amended.  A send with empty or whitespace-only input and no
    attachment returns before any state is created.  An attachment that
    exceeds its type-specific size limit is rejected by the upload
    service, after the placeholder has been registered and rendered: the
    transfer is rejected whatever the network does, nothing is written to
    the log, no cache entry is added, and the placeholder is left
    registered with its bubble marked 'failed' and the retry data stored. *)
Theorem C8_empty_input_creates_nothing_oversized_fails_after_placeholder
    (env : Env) (s : State) (value : string) :
  composer s = Some value ->
  (Js.trim value = "" -> pendingAttachment s = None ->
     Driver1.sendMessageFromComposer env s = Settled s /\
     Driver2.sendMessageFromComposer env s = Settled s) /\
  (forall f ty u,
     pendingAttachment s = Some (mkAttachment (Some f) (Some ty)) ->
     currentUser env = Some u ->
     String.eqb (Js.or_str (currentView s) "") "" = false ->
     uploadServiceReady env = true ->
     container s = true ->
     UploadService.validateFileSize f = false ->
     Spec.fails_after_placeholder Driver1.sendMessageFromComposer Driver1.uploadSettled env s f /\
     (isSending s = false -> isUploading s = false ->
      Spec.fails_after_placeholder Driver2.sendMessageFromComposer Driver2.uploadSettled env s f)).
Proof.
  intros Hc. split.
  - intros Ht Ha. split.
    + unfold Driver1.sendMessageFromComposer. rewrite Hc, Ht, Ha. reflexivity.
    + unfold Driver2.sendMessageFromComposer.
      destruct (isSending s) eqn:Hs; [reflexivity|]. simpl.
      rewrite Hc, Ht, Ha. simpl. now rewrite set_isSending_roundtrip.
  - intros f ty u Ha Hu Hv Hup Hcont Hsize. split.
    + eapply oversized_first_driver; eauto.
    + intros Hs Hupl. eapply oversized_second_driver; eauto.
Qed.

Lemma C8_witness :
  Driver1.sendMessageFromComposer env0 (typed "   " opened1) = Settled (typed "   " opened1) /\
  Spec.fails_after_placeholder Driver1.sendMessageFromComposer Driver1.uploadSettled
    env0 (picked bigPhoto opened1) bigPhoto.
Proof.
  split.
  - apply (proj1 (C8_empty_input_creates_nothing_oversized_fails_after_placeholder
                    env0 (typed "   " opened1) "   " eq_refl)); reflexivity.
  - apply (proj2 (C8_empty_input_creates_nothing_oversized_fails_after_placeholder
                    env0 (picked bigPhoto opened1) "" eq_refl) bigPhoto "image/png" alice);
      reflexivity.
Defined.

End ValidationFacts.

(** ** The latches of the second driver *)

Module LatchFacts.
Import Common.

#[local] Opaque PushId.genTempId.

(** While [isSending] is set, [sendMessageFromComposer] of the second
    driver returns at once: no placeholder, no write, nothing queued. *)
Lemma second_driver_send_latched (env : Env) (s : State) :
  isSending s = true -> Driver2.sendMessageFromComposer env s = Settled s.
Proof. intros H. unfold Driver2.sendMessageFromComposer. now rewrite H. Qed.

(** While [isUploading] is set, [uploadAndSendAttachment] of the second
    driver returns at once. *)
Lemma second_driver_upload_latched (env : Env) (tt tid caption : string) (u : User)
    (a : option Attachment) (c : bool) (s : State) :
  isUploading s = true ->
  Driver2.uploadAndSendAttachment env tt tid caption u a c s = Settled s.
Proof. intros H. unfold Driver2.uploadAndSendAttachment. now rewrite H. Qed.

(** The send path of the first driver does not read either flag. *)
Lemma first_driver_send_ignores_flags (env : Env) (s : State) (a b : bool) :
  remoteWrites (state_of (Driver1.sendMessageFromComposer env (set_isUploading a (set_isSending b s))))
  = remoteWrites (state_of (Driver1.sendMessageFromComposer env s)) /\
  pendingMessages (state_of (Driver1.sendMessageFromComposer env (set_isUploading a (set_isSending b s))))
  = pendingMessages (state_of (Driver1.sendMessageFromComposer env s)).
Proof.
  unfold Driver1.sendMessageFromComposer, Driver1.uploadAndSendAttachment. simpl.
  destruct (composer s); [|auto].
  destruct (negb _ && negb _); [auto|].
  destruct (currentUser env); [|auto].
  destruct (String.eqb _ ""); [auto|].
  destruct (bool_decide _).
  - destruct (pendingAttachment s) as [att|]; simpl; [|auto].
    destruct (a_file att); simpl; [|auto].
    destruct (PushId.genTempId _ _ _). simpl.
    destruct (a_type att); simpl; [|auto].
    unfold Dom.appendMessage. simpl.
    destruct (container s), (uploadServiceReady env); simpl; auto.
  - destruct (PushId.genTempId _ _ _). simpl.
    unfold Dom.appendMessage. simpl.
    destruct (container s), (saveMessageReady env); simpl; auto.
Qed.

End LatchFacts.

(** ** Sending, retrying and cancelling *)

Module SendFacts.
Import Common Fixture Scenario.

(** C4 (the code breaks it).  The transfer of a photo sent under [K]
    fails and the user presses Retry.  In the second driver the retry
    runs under a newly generated identifier [K']: a second placeholder
    and a second bubble appear, the record written on success carries
    [K'], and the bubble of the failed attempt stays behind in
    'uploading'.  In the first driver the retry stops with a [TypeError]
    before any upload starts. *)
Theorem C4_retry_runs_under_a_new_identifier :
  is_Some (failedUploads failed2 !! K) /\
  K' <> K /\
  (exists s tk s2,
     Driver2.retryUpload env1 K failed2 = Await s (Upload tk) /\
     t_tempId tk = K' /\
     is_Some (pendingMessages s !! K) /\ is_Some (pendingMessages s !! K') /\
     Driver2.uploadSettled env1 (UploadService.uploadFile photo (UploadService.NetOk "https://cdn/cat.png")) tk s
       = Await s2 (UploadSave tk "https://cdn/cat.png") /\
     map (fun w => m_id (w_message w)) (remoteWrites s2) = [K'] /\
     map (fun b => (b_message_id b, b_status b)) (bubbles (Driver2.uploadSaved true tk s2))
       = [(K, "uploading"); (K', "sent")]) /\
  (exists s, Driver1.retryUpload env1 K failed1 = Escaped s /\
     pendingMessages s !! K' = None /\ remoteWrites s = []).
Proof.
  split; [computed|].
  split; [discriminate|].
  split.
  - do 3 eexists.
    split; [computed|].
    split; [computed|].
    split; [computed|].
    split; [computed|].
    split; [computed|].
    vm_compute; auto.
  - eexists. split; [computed|]. vm_compute; auto.
Qed.

(** C7 (the first driver breaks it).  While Alice's text "a" is in flight
    (suspended at [saveMessage]), a second send of "b" goes through in
    the first driver: a second placeholder is registered and rendered and
    a second record is written.  The second driver, whose latch
    [isSending] is set, returns at once and leaves the state as it is. *)
Theorem C7_first_driver_accepts_a_second_send :
  (exists s1 s2 k2,
     Driver1.sendMessageFromComposer env0 (typed "a" opened1) = Await s1 (TextSave K) /\
     Driver1.sendMessageFromComposer env0 (typed "b" s1) = Await s2 (TextSave k2) /\
     k2 <> K /\
     is_Some (pendingMessages s2 !! K) /\ is_Some (pendingMessages s2 !! k2) /\
     map b_message_id (bubbles s2) = [K; k2] /\
     map (fun w => m_text (w_message w)) (remoteWrites s2) = [Some "a"; Some "b"]) /\
  (exists s1,
     Driver2.sendMessageFromComposer env0 (typed "a" opened2) = Await s1 (TextSave K) /\
     isSending s1 = true /\
     Driver2.sendMessageFromComposer env0 (typed "b" s1) = Settled (typed "b" s1)).
Proof.
  split.
  - do 3 eexists.
    split; [computed|].
    split; [computed|].
    split; [discriminate|].
    split; [computed|].
    split; [computed|].
    vm_compute; auto.
  - eexists.
    split; [computed|].
    split; vm_compute; reflexivity.
Qed.

(** C9 (the code breaks it).  A photo is being uploaded under [K] and the
    user cancels.  [cancelFileUpload] leaves the pending entry and the
    bubble (still 'uploading', without a Retry button) where they are,
    and in the second driver drops the latch [isUploading].  When the
    transfer then resolves, the record is written, and its echo puts the
    message into the cache of the first driver.  Were the transfer
    aborted instead, the [catch] block would mark the bubble 'failed' and
    offer Retry. *)
Theorem C9_cancel_keeps_the_placeholder :
  (exists s s2 s3 w,
     uploading1 photo = Await s (Upload (photoTask true)) /\
     is_Some (pendingMessages (Driver1.cancelFileUpload s) !! K) /\
     map (fun b => (b_message_id b, b_status b, b_retry b)) (bubbles (Driver1.cancelFileUpload s))
       = [(K, "uploading", false)] /\
     Driver1.uploadSettled env0
       (UploadService.uploadFile photo (UploadService.NetOk "https://cdn/cat.png"))
       (photoTask true) (Driver1.cancelFileUpload s) = Await s2 (UploadSave (photoTask true) "https://cdn/cat.png") /\
     remoteWrites s2 = [w] /\
     Driver1.listener room key env0 (echo w) (Driver1.uploadSaved true (photoTask true) s2) = Ret s3 /\
     ids <$> messagesCache s3 !! key = Some [Some "-bob"; Some K] /\
     (* an aborted transfer ends like a failed one *)
     map (fun b => (b_message_id b, b_status b, b_retry b))
       (bubbles (state_of (Driver1.uploadSettled env0
                   (UploadService.uploadFile photo UploadService.NetFail)
                   (photoTask true) (Driver1.cancelFileUpload s))))
       = [(K, "failed", true)]) /\
  (exists s,
     uploading2 photo = Await s (Upload (photoTask true)) /\
     isUploading s = true /\
     isUploading (Driver2.cancelFileUpload s) = false /\
     is_Some (pendingMessages (Driver2.cancelFileUpload s) !! K) /\
     map (fun b => (b_message_id b, b_status b, b_retry b)) (bubbles (Driver2.cancelFileUpload s))
       = [(K, "uploading", false)]).
Proof.
  split.
  - do 4 eexists.
    do 7 (split; [computed|]).
    vm_compute; reflexivity.
  - eexists.
    split; [computed|].
    split; [computed|].
    split; [computed|].
    split; [computed|].
    vm_compute; reflexivity.
Qed.

End SendFacts.

(** ** Strings *)

Module StrFacts.
#[local] Arguments String.append : simpl nomatch.

Lemma append_assoc (a b c : string) : (a +:+ b) +:+ c = a +:+ (b +:+ c).
Proof. induction a as [|x r IH]; simpl; [reflexivity|]. now rewrite IH. Qed.

Lemma append_nil_r (a : string) : a +:+ "" = a.
Proof. induction a as [|x r IH]; simpl; [reflexivity|]. now rewrite IH. Qed.

Lemma length_append (a b : string) :
  String.length (a +:+ b) = (String.length a + String.length b)%nat.
Proof. induction a as [|x r IH]; simpl; [reflexivity|]. now rewrite IH. Qed.

Lemma list_ascii_append (a b : string) :
  list_ascii_of_string (a +:+ b) = list_ascii_of_string a ++ list_ascii_of_string b.
Proof. induction a as [|c r IH]; simpl; [reflexivity|]. now rewrite IH. Qed.

End StrFacts.

(** ** The router *)

Module RouterFacts.
Import Router.
#[local] Arguments String.append : simpl nomatch.

Lemma split_head (id : string) :
  exists rest, split "/" id = upToSlash id :: rest.
Proof.
  induction id as [|c r [rest IH]]; simpl.
  - eexists; reflexivity.
  - destruct (Ascii.eqb c "/").
    + eexists; reflexivity.
    + rewrite IH. eexists; reflexivity.
Qed.

Lemma upToSlash_no_slash (id : string) :
  forallb (fun c => negb (Ascii.eqb c "/")) (list_ascii_of_string (upToSlash id)) = true.
Proof.
  induction id as [|c r IH]; simpl; [reflexivity|].
  destruct (Ascii.eqb c "/") eqn:E; simpl; [reflexivity|].
  now rewrite E, IH.
Qed.

Lemma split_no_slash (s : string) :
  Forall (fun x => forallb (fun c => negb (Ascii.eqb c "/")) (list_ascii_of_string x) = true)
         (split "/" s).
Proof.
  induction s as [|c r IH]; simpl.
  - repeat constructor.
  - destruct (Ascii.eqb c "/") eqn:E.
    + constructor; [reflexivity|exact IH].
    + destruct (split "/" r) as [|x xs].
      * repeat constructor. simpl. now rewrite E.
      * apply Forall_cons in IH as [Hx Hxs]. constructor; [|exact Hxs].
        simpl. now rewrite E, Hx.
Qed.

Lemma upToSlash_id (id : string) :
  forallb (fun c => negb (Ascii.eqb c "/")) (list_ascii_of_string id) = true ->
  upToSlash id = id.
Proof.
  induction id as [|c r IH]; simpl; [reflexivity|].
  destruct (Ascii.eqb c "/"); simpl; [discriminate|].
  intros H. now rewrite IH.
Qed.

Lemma fragment_plain (id : string) :
  forallb plain (list_ascii_of_string id) = true -> fragment id = id.
Proof.
  induction id as [|c r IH]; simpl; [reflexivity|].
  intros H. apply andb_true_iff in H as [Hc Hr]. unfold plain in Hc.
  apply andb_true_iff in Hc as [Hc _]. apply andb_true_iff in Hc as [Hd He].
  apply negb_true_iff in Hd, He. now rewrite Hd, He, IH.
Qed.

Lemma plain_no_slash (id : string) :
  forallb plain (list_ascii_of_string id) = true ->
  forallb (fun c => negb (Ascii.eqb c "/")) (list_ascii_of_string id) = true.
Proof.
  induction id as [|c r IH]; simpl; [reflexivity|].
  intros H. apply andb_true_iff in H as [Hc Hr]. rewrite (IH Hr), andb_true_r.
  unfold plain in Hc. now apply andb_true_iff in Hc as [_ Hc].
Qed.

Lemma percent_written (c : ascii) :
  forallb written (list_ascii_of_string (percent c)) = true.
Proof. destruct c as [[] [] [] [] [] [] [] []]; reflexivity. Qed.

Lemma fragment_written (s : string) :
  forallb written (list_ascii_of_string (fragment s)) = true.
Proof.
  induction s as [|c r IH]; [reflexivity|]. cbn [fragment].
  destruct (dropped c) eqn:Hd; [exact IH|].
  destruct (encoded c) eqn:He.
  - rewrite StrFacts.list_ascii_append, forallb_app, IH, percent_written. reflexivity.
  - simpl. rewrite IH, andb_true_r. unfold written. now rewrite Hd, He.
Qed.

Lemma upToSlash_keeps (P : ascii -> bool) (s : string) :
  forallb P (list_ascii_of_string s) = true ->
  forallb P (list_ascii_of_string (upToSlash s)) = true.
Proof.
  induction s as [|c r IH]; simpl; [reflexivity|].
  intros H. apply andb_true_iff in H as [Hc Hr].
  destruct (Ascii.eqb c "/"); simpl; [reflexivity|]. now rewrite Hc, IH.
Qed.

Lemma upToSlash_plain (s : string) :
  forallb plain (list_ascii_of_string (upToSlash (fragment s))) = true.
Proof.
  pose proof (upToSlash_keeps written _ (fragment_written s)) as Hw.
  pose proof (upToSlash_no_slash (fragment s)) as Hs.
  revert Hw Hs. generalize (upToSlash (fragment s)) as t.
  induction t as [|c r IH]; simpl; [reflexivity|].
  intros Hw Hs. apply andb_true_iff in Hw as [Hc Hw]. apply andb_true_iff in Hs as [Hn Hs].
  rewrite (IH Hw Hs), andb_true_r. unfold plain. unfold written in Hc.
  now rewrite Hc, Hn.
Qed.

Lemma route_of_assignment (kind id : string) :
  getRouteFromHash (assignHash (navigateTo kind id)) =
    if String.eqb kind "room" then
      if String.eqb (upToSlash (fragment id)) "" then Welcome
      else Room (upToSlash (fragment id))
    else if String.eqb kind "chat" then
      if String.eqb (upToSlash (fragment id)) "" then Welcome
      else Chat (upToSlash (fragment id))
    else Welcome.
Proof.
  destruct (split_head (fragment id)) as [rest Hs].
  unfold navigateTo.
  destruct (String.eqb kind "room"); [|destruct (String.eqb kind "chat")];
    [| |reflexivity];
    unfold assignHash, getRouteFromHash; simpl; rewrite Hs; simpl;
    destruct (upToSlash (fragment id)) as [|c r]; reflexivity.
Qed.

(** X1.  Round trip of the router.  The hash that [navigateTo] assigns
    for a room or a chat is read back by [getRouteFromHash] as the same
    kind and id, which [applyRoute] then opens, exactly when the id is
    not empty and holds no slash and no character that the assignment
    to [location.hash] removes or percent-encodes (tab, newline, other
    controls, space, double quote, angle brackets, backquote, bytes
    above the tilde). *)
Theorem X1_navigation_round_trip (id : string) :
  (id <> "" /\ forallb plain (list_ascii_of_string id) = true <->
   getRouteFromHash (assignHash (navigateTo "room" id)) = Room id) /\
  (id <> "" /\ forallb plain (list_ascii_of_string id) = true <->
   getRouteFromHash (assignHash (navigateTo "chat" id)) = Chat id) /\
  (id <> "" -> forallb plain (list_ascii_of_string id) = true ->
   applyRoute (getRouteFromHash (assignHash (navigateTo "room" id))) = OpenRoom id /\
   applyRoute (getRouteFromHash (assignHash (navigateTo "chat" id))) = OpenChat id).
Proof.
  rewrite !route_of_assignment. cbn [String.eqb Ascii.eqb Bool.eqb].
  assert (Hfwd : id <> "" -> forallb plain (list_ascii_of_string id) = true ->
            upToSlash (fragment id) = id /\ String.eqb id "" = false).
  { intros Hne Hp. rewrite (fragment_plain id Hp), (upToSlash_id id (plain_no_slash id Hp)).
    split; [reflexivity|]. now apply String.eqb_neq. }
  assert (Hbwd : upToSlash (fragment id) = id -> forallb plain (list_ascii_of_string id) = true).
  { intros H. rewrite <- H. apply upToSlash_plain. }
  split; [|split].
  - split.
    + intros [Hne Hp]. destruct (Hfwd Hne Hp) as [-> ->]. reflexivity.
    + destruct (String.eqb_spec (upToSlash (fragment id)) ""); [discriminate|].
      intros [= H]. split; [congruence | now apply Hbwd].
  - split.
    + intros [Hne Hp]. destruct (Hfwd Hne Hp) as [-> ->]. reflexivity.
    + destruct (String.eqb_spec (upToSlash (fragment id)) ""); [discriminate|].
      intros [= H]. split; [congruence | now apply Hbwd].
  - intros Hne Hp. destruct (Hfwd Hne Hp) as [-> E]. rewrite E. simpl. rewrite E. auto.
Qed.

Lemma X1_witness :
  getRouteFromHash (assignHash (navigateTo "room" "general")) = Room "general" /\
  applyRoute (getRouteFromHash (assignHash (navigateTo "room" "general"))) = OpenRoom "general" /\
  ~ getRouteFromHash (assignHash (navigateTo "room" "a b")) = Room "a b".
Proof.
  split; [|split].
  - apply (proj1 (proj1 (X1_navigation_round_trip "general"))). split; [discriminate|reflexivity].
  - apply (proj2 (proj2 (X1_navigation_round_trip "general"))); [discriminate|reflexivity].
  - intros H. apply (proj2 (proj1 (X1_navigation_round_trip "a b"))) in H as [_ H].
    discriminate.
Defined.

(** X2.  Whatever the hash, a route to a room or a chat carries a
    non-empty id without a slash.  The route read back after
    [navigateTo] carries the id as the assignment to [location.hash]
    wrote it (percent-encoded, without tabs and newlines), cut at its
    first slash, and is the welcome screen when nothing is left before
    it; a kind other than 'room' and 'chat' clears the hash, which is
    the welcome screen too. *)
Theorem X2_route_id_is_one_path_segment (locationHash kind id : string) :
  match getRouteFromHash locationHash with
  | Room i | Chat i =>
      i <> "" /\ forallb (fun c => negb (Ascii.eqb c "/")) (list_ascii_of_string i) = true
  | Welcome => True
  end /\
  getRouteFromHash (assignHash (navigateTo kind id)) =
    (if String.eqb kind "room" then
       if String.eqb (upToSlash (fragment id)) "" then Welcome
       else Room (upToSlash (fragment id))
     else if String.eqb kind "chat" then
       if String.eqb (upToSlash (fragment id)) "" then Welcome
       else Chat (upToSlash (fragment id))
     else Welcome) /\
  forallb plain (list_ascii_of_string (upToSlash (fragment id))) = true.
Proof.
  split; [|split; [apply route_of_assignment | apply upToSlash_plain]].
  unfold getRouteFromHash.
  destruct (String.eqb (slice1 locationHash) ""); [exact I|].
  destruct (split_head (slice1 locationHash)) as [rest Hs]. rewrite Hs.
  assert (Hseg : forall x, rest !! 0%nat = Some x ->
            forallb (fun c => negb (Ascii.eqb c "/")) (list_ascii_of_string x) = true).
  { intros x Hx. pose proof (split_no_slash (slice1 locationHash)) as HF.
    rewrite Hs in HF. apply Forall_cons in HF as [_ HF].
    rewrite Forall_lookup in HF. exact (HF 0%nat x Hx). }
  simpl.
  destruct rest as [|x rest']; simpl.
  - rewrite !andb_false_r. exact I.
  - specialize (Hseg x eq_refl).
    destruct (String.eqb x "") eqn:Ex; simpl.
    + rewrite !andb_false_r. exact I.
    + apply String.eqb_neq in Ex.
      destruct (String.eqb (upToSlash (slice1 locationHash)) "room"); simpl; [auto|].
      destruct (String.eqb (upToSlash (slice1 locationHash)) "chat"); simpl; [auto|exact I].
Qed.

End RouterFacts.

(** ** [escapeHtml] *)

Module HtmlFacts.
Import Html.
#[local] Arguments String.append : simpl nomatch.

Lemma entity_no_markup (c : ascii) (e : string) :
  htmlEscapeMap c = Some e ->
  forallb (fun x => negb (markup x)) (list_ascii_of_string e) = true.
Proof.
  unfold htmlEscapeMap.
  repeat (match goal with |- context [if ?b then _ else _] => destruct b end;
          [intros [= <-]; reflexivity|]).
  discriminate.
Qed.

Lemma not_special_not_markup (c : ascii) : htmlEscapeMap c = None -> markup c = false.
Proof.
  unfold htmlEscapeMap, markup.
  destruct (Ascii.eqb c "&"); [discriminate|].
  destruct (Ascii.eqb c "<"); [discriminate|].
  destruct (Ascii.eqb c ">"); [discriminate|].
  destruct (Ascii.eqb c dquote); [discriminate|].
  destruct (Ascii.eqb c squote); [discriminate|].
  destruct (Ascii.eqb c "/"); [discriminate|]. reflexivity.
Qed.

Lemma replaceAll_append (a b : string) :
  replaceAll (a +:+ b) = replaceAll a +:+ replaceAll b.
Proof.
  induction a as [|c r IH]; simpl; [reflexivity|].
  destruct (htmlEscapeMap c); rewrite IH; [|reflexivity].
  now rewrite StrFacts.append_assoc.
Qed.

(** X3.  The text [escapeHtml] returns holds none of the characters that
    open or close a tag or an attribute value (less-than, greater-than,
    the two quotes, the slash), whatever the input; and escaping a
    concatenation is concatenating the escapes. *)
Theorem X3_escaped_text_has_no_markup (input : option string) (a b : string) :
  forallb (fun c => negb (markup c)) (list_ascii_of_string (escapeHtml input)) = true /\
  escapeHtml (Some (a +:+ b)) = escapeHtml (Some a) +:+ escapeHtml (Some b).
Proof.
  split; [|apply replaceAll_append].
  unfold escapeHtml. generalize (match input with None => "" | Some s => s end) as s.
  induction s as [|c r IH]; simpl; [reflexivity|].
  destruct (htmlEscapeMap c) as [e|] eqn:E.
  - rewrite StrFacts.list_ascii_append, forallb_app, IH, (entity_no_markup c e E). reflexivity.
  - simpl. now rewrite (not_special_not_markup c E), IH.
Qed.

Lemma replaceAll_plain (s : string) :
  forallb (fun c => negb (special c)) (list_ascii_of_string s) = true -> replaceAll s = s.
Proof.
  induction s as [|c r IH]; simpl; [reflexivity|]. unfold special at 1.
  destruct (htmlEscapeMap c); simpl; [discriminate|]. intros H. now rewrite IH.
Qed.

Lemma entity_longer (c : ascii) (e : string) :
  htmlEscapeMap c = Some e -> (1 < String.length e)%nat.
Proof.
  unfold htmlEscapeMap.
  repeat (match goal with |- context [if ?b then _ else _] => destruct b end;
          [intros [= <-]; simpl; lia|]).
  discriminate.
Qed.

Lemma replaceAll_length (s : string) :
  (String.length s <= String.length (replaceAll s))%nat.
Proof.
  induction s as [|c r IH]; simpl; [lia|].
  destruct (htmlEscapeMap c) as [e|] eqn:E; simpl; [|lia].
  rewrite StrFacts.length_append. pose proof (entity_longer c e E). lia.
Qed.

Lemma replaceAll_fixed (s : string) :
  replaceAll s = s -> forallb (fun c => negb (special c)) (list_ascii_of_string s) = true.
Proof.
  induction s as [|c r IH]; simpl; [reflexivity|]. unfold special at 1.
  destruct (htmlEscapeMap c) as [e|] eqn:E; simpl.
  - intros H. exfalso.
    assert (HL : String.length (e +:+ replaceAll r) = String.length (String c r)) by now rewrite H.
    rewrite StrFacts.length_append in HL. simpl in HL.
    pose proof (entity_longer c e E). pose proof (replaceAll_length r). lia.
  - intros [= H]. auto.
Qed.

Lemma entity_has_ampersand (c : ascii) (e : string) :
  htmlEscapeMap c = Some e -> exists t, e = String "&" t.
Proof.
  unfold htmlEscapeMap.
  repeat (match goal with |- context [if ?b then _ else _] => destruct b end;
          [intros [= <-]; eexists; reflexivity|]).
  discriminate.
Qed.

Lemma replaceAll_keeps_special (s : string) :
  forallb (fun c => negb (special c)) (list_ascii_of_string (replaceAll s)) = true ->
  forallb (fun c => negb (special c)) (list_ascii_of_string s) = true.
Proof.
  induction s as [|c r IH]; simpl; [reflexivity|]. unfold special at 2.
  destruct (htmlEscapeMap c) as [e|] eqn:E; simpl.
  - destruct (entity_has_ampersand c e E) as [t ->]. simpl. discriminate.
  - unfold special at 1. rewrite E. simpl. exact IH.
Qed.

(** X4.  [escapeHtml] leaves a text as it is exactly when the text holds
    none of the six characters it replaces; hence escaping an escaped
    text again changes it whenever the first pass changed anything: the
    function is not idempotent. *)
Theorem X4_escaping_twice_differs (s : string) :
  (escapeHtml (Some s) = s <->
   forallb (fun c => negb (special c)) (list_ascii_of_string s) = true) /\
  (escapeHtml (Some (escapeHtml (Some s))) = escapeHtml (Some s) <->
   escapeHtml (Some s) = s).
Proof.
  unfold escapeHtml. split; [split; [apply replaceAll_fixed | apply replaceAll_plain]|].
  split.
  - intros H. apply replaceAll_plain, replaceAll_keeps_special, replaceAll_fixed, H.
  - intros H. now rewrite !H.
Qed.

Lemma entity_inj (c1 c2 : ascii) (e1 e2 r1 r2 : string) :
  htmlEscapeMap c1 = Some e1 -> htmlEscapeMap c2 = Some e2 ->
  e1 +:+ r1 = e2 +:+ r2 -> c1 = c2 /\ r1 = r2.
Proof.
  unfold htmlEscapeMap.
  destruct (Ascii.eqb_spec c1 "&") as [->|_];
    [|destruct (Ascii.eqb_spec c1 "<") as [->|_];
      [|destruct (Ascii.eqb_spec c1 ">") as [->|_];
        [|destruct (Ascii.eqb_spec c1 dquote) as [->|_];
          [|destruct (Ascii.eqb_spec c1 squote) as [->|_];
            [|destruct (Ascii.eqb_spec c1 "/") as [->|_]; [|discriminate]]]]]];
  (destruct (Ascii.eqb_spec c2 "&") as [->|_];
    [|destruct (Ascii.eqb_spec c2 "<") as [->|_];
      [|destruct (Ascii.eqb_spec c2 ">") as [->|_];
        [|destruct (Ascii.eqb_spec c2 dquote) as [->|_];
          [|destruct (Ascii.eqb_spec c2 squote) as [->|_];
            [|destruct (Ascii.eqb_spec c2 "/") as [->|_]; [|discriminate]]]]]]);
  intros [= <-] [= <-]; simpl; intros H; try discriminate H;
  injection H as ->; split; reflexivity.
Qed.

(** X5.  [escapeHtml] is injective: two different texts never escape to
    the same text, so the entities can be decoded without ambiguity. *)
Theorem X5_escape_is_injective (s t : string) :
  escapeHtml (Some s) = escapeHtml (Some t) -> s = t.
Proof.
  unfold escapeHtml. revert t.
  induction s as [|c r IH]; intros [|d u]; simpl.
  - reflexivity.
  - destruct (htmlEscapeMap d) as [e|] eqn:E; [|discriminate].
    destruct (entity_has_ampersand d e E) as [x ->]. discriminate.
  - destruct (htmlEscapeMap c) as [e|] eqn:E; [|discriminate].
    destruct (entity_has_ampersand c e E) as [x ->]. discriminate.
  - destruct (htmlEscapeMap c) as [e1|] eqn:E1; destruct (htmlEscapeMap d) as [e2|] eqn:E2.
    + intros H. destruct (entity_inj c d e1 e2 _ _ E1 E2 H) as [-> Hr].
      now rewrite (IH u Hr).
    + destruct (entity_has_ampersand c e1 E1) as [x ->]. simpl. intros [= <- _].
      unfold htmlEscapeMap in E2. simpl in E2. discriminate.
    + destruct (entity_has_ampersand d e2 E2) as [x ->]. simpl. intros [= -> _].
      unfold htmlEscapeMap in E1. simpl in E1. discriminate.
    + intros [= -> H]. now rewrite (IH u H).
Qed.

Lemma X5_witness : "a<b" = "a<b".
Proof. apply (X5_escape_is_injective "a<b" "a<b"). reflexivity. Defined.

End HtmlFacts.

(** ** File sizes *)

Module FmtFacts.
Import Fmt.
#[local] Arguments String.append : simpl nomatch.

Lemma in_seqZ_check (P : Z -> bool) (lo len : Z) :
  forallb P (seqZ lo len) = true -> forall b, lo <= b < lo + len -> P b = true.
Proof.
  intros H b Hb. rewrite forallb_forall in H. apply H.
  apply list_elem_of_In, elem_of_seqZ. lia.
Qed.

Lemma toFixed_not_empty (f : nat) (num : Z) (den : positive) :
  f <> O -> toFixed f num den <> "".
Proof.
  intros Hf. unfold toFixed. apply Nat.eqb_neq in Hf. rewrite Hf.
  intros H. apply (f_equal String.length) in H.
  rewrite !StrFacts.length_append in H. simpl in H. lia.
Qed.

(** X6.  The size shown for a file: nothing but an absent or zero size
    reads "0 B"; a file of 1 to 51 bytes is shown as "0.0 KB"; the last
    51 bytes below one mebibyte are shown as "1024.0 KB", and the size
    after them as "1.00 MB". *)
Theorem X6_file_size_edges (b : Z) :
  formatFileSize None = "0 B" /\ formatFileSize (Some 0) = "0 B" /\
  (b <> 0 -> formatFileSize (Some b) <> "0 B") /\
  (1 <= b <= 51 -> formatFileSize (Some b) = "0.0 KB") /\
  (1048525 <= b <= 1048575 -> formatFileSize (Some b) = "1024.0 KB") /\
  formatFileSize (Some 1048576) = "1.00 MB".
Proof.
  split; [reflexivity|]. split; [reflexivity|]. split; [|split; [|split; [|reflexivity]]].
  - intros Hb. unfold formatFileSize. apply Z.eqb_neq in Hb. rewrite Hb.
    destruct (b <? 1024 * 1024); intros H;
      apply (f_equal String.length) in H; rewrite StrFacts.length_append in H; simpl in H;
      [pose proof (toFixed_not_empty 1 b 1024) as Hn | pose proof (toFixed_not_empty 2 b 1048576) as Hn];
      (destruct (toFixed _ b _); [now apply Hn | simpl in H; lia]).
  - intros Hb.
    apply String.eqb_eq.
    apply (in_seqZ_check (fun b => String.eqb (formatFileSize (Some b)) "0.0 KB") 1 51);
      [vm_compute; reflexivity | lia].
  - intros Hb.
    apply String.eqb_eq.
    apply (in_seqZ_check (fun b => String.eqb (formatFileSize (Some b)) "1024.0 KB") 1048525 51);
      [vm_compute; reflexivity | lia].
Qed.

Lemma X6_witness :
  formatFileSize (Some 20) = "0.0 KB" /\ formatFileSize (Some 1048570) = "1024.0 KB".
Proof.
  split.
  - apply (X6_file_size_edges 20). lia.
  - apply (X6_file_size_edges 1048570). lia.
Defined.

Lemma formatTime_reads (cl : Clock) (timestamp : Z) :
  timestamp <> 0 ->
  formatTime cl timestamp = formatTime (reading (getHours cl timestamp) (getMinutes cl timestamp)) 1.
Proof.
  intros H. unfold formatTime. apply Z.eqb_neq in H. rewrite H. reflexivity.
Qed.

Lemma minute_of_day (h m : Z) :
  0 <= h < 24 -> 0 <= m < 60 ->
  0 <= 60 * h + m < 0 + 1440 /\ (60 * h + m) / 60 = h /\ (60 * h + m) mod 60 = m.
Proof.
  intros Hh Hm. split; [lia|]. split.
  - symmetry. apply (Z.div_unique (60 * h + m) 60 h m); lia.
  - symmetry. apply (Z.mod_unique (60 * h + m) 60 h m); lia.
Qed.

Lemma times_differ (k1 k2 : Z) :
  0 <= k1 < 0 + 1440 -> 0 <= k2 < 0 + 1440 ->
  formatTime (reading (k1 / 60) (k1 mod 60)) 1 = formatTime (reading (k2 / 60) (k2 mod 60)) 1 ->
  k1 = k2.
Proof.
  intros H1 H2 He.
  pose (text := fun k => formatTime (reading (k / 60) (k mod 60)) 1).
  assert (Hnd : NoDup (text <$> seqZ 0 1440)).
  { apply NoDup_ListNoDup.
    assert (Hfix : List.nodup String.string_dec (text <$> seqZ 0 1440) = text <$> seqZ 0 1440)
      by (vm_compute; reflexivity).
    rewrite <- Hfix. apply List.NoDup_nodup. }
  assert (Hat : forall k, 0 <= k < 0 + 1440 ->
            (text <$> seqZ 0 1440) !! Z.to_nat k = Some (text k)).
  { intros k Hk. rewrite list_lookup_fmap, lookup_seqZ_lt by lia.
    simpl. f_equal. f_equal. lia. }
  pose proof (Hat k1 H1) as Ha. pose proof (Hat k2 H2) as Hb.
  change (text k1 = text k2) in He. rewrite He in Ha.
  pose proof (NoDup_lookup _ _ _ _ Hnd Ha Hb). lia.
Qed.

(** X27.  The time shown for a message.  The instant 0 is shown as the
    empty text; every other instant is shown as a non-empty text, and
    two instants that are shown alike are at the same hour and minute of
    the day: the twelve-hour text with AM and PM loses nothing of what
    the clock read. *)
Theorem X27_the_time_shown_tells_the_minute_of_the_day (cl : Clock) (t1 t2 : Z) :
  t1 <> 0 -> t2 <> 0 ->
  0 <= getHours cl t1 < 24 -> 0 <= getMinutes cl t1 < 60 ->
  0 <= getHours cl t2 < 24 -> 0 <= getMinutes cl t2 < 60 ->
  formatTime cl 0 = "" /\
  formatTime cl t1 <> "" /\
  (formatTime cl t1 = formatTime cl t2 ->
   getHours cl t1 = getHours cl t2 /\ getMinutes cl t1 = getMinutes cl t2).
Proof.
  intros Hz1 Hz2 Hh1 Hm1 Hh2 Hm2. split; [reflexivity|].
  destruct (minute_of_day _ _ Hh1 Hm1) as (Hk1 & Hd1 & Hr1).
  destruct (minute_of_day _ _ Hh2 Hm2) as (Hk2 & Hd2 & Hr2).
  split.
  - unfold formatTime. apply Z.eqb_neq in Hz1. rewrite Hz1. intros H.
    apply (f_equal String.length) in H. rewrite !StrFacts.length_append in H.
    simpl in H. lia.
  - rewrite (formatTime_reads cl t1 Hz1), (formatTime_reads cl t2 Hz2). intros He.
    assert (Hk : 60 * getHours cl t1 + getMinutes cl t1 = 60 * getHours cl t2 + getMinutes cl t2).
    { apply times_differ; [exact Hk1 | exact Hk2 |]. now rewrite Hd1, Hr1, Hd2, Hr2. }
    lia.
Qed.

Lemma X27_witness :
  getHours utc 1700000000000 = getHours utc 1700086400000 /\
  getMinutes utc 1700000000000 = getMinutes utc 1700086400000.
Proof.
  unshelve eapply (proj2 (proj2 (X27_the_time_shown_tells_the_minute_of_the_day utc
                             1700000000000 1700086400000 _ _ _ _ _ _)));
    vm_compute; first [reflexivity | discriminate | split; [discriminate | reflexivity]].
Defined.

End FmtFacts.

(** ** The chat view *)

Module RenderFacts.
Import Fmt Render.
#[local] Arguments String.append : simpl nomatch.

Lemma rev_string_rev (s a b : string) :
  Js.rev_string (Js.rev_string s a) b = Js.rev_string a (s +:+ b).
Proof.
  revert a b. induction s as [|c r IH]; intros a b; simpl; [reflexivity|].
  now rewrite IH.
Qed.


Lemma solid_rev (s acc : string) : solid s = true -> solid acc = true ->
  solid (Js.rev_string s acc) = true.
Proof.
  revert acc. induction s as [|c r IH]; intros acc Hs Ha; simpl; [exact Ha|].
  unfold solid in Hs. simpl in Hs. apply andb_true_iff in Hs as [Hc Hr].
  apply IH; [exact Hr|]. unfold solid. simpl. now rewrite Hc.
Qed.

Lemma trimStart_solid (s : string) : solid s = true -> Js.trimStart s = s.
Proof.
  destruct s as [|c r]; [reflexivity|]. unfold solid. simpl.
  intros H. apply andb_true_iff in H as [Hc _]. now destruct (Js.is_space c).
Qed.

Lemma trim_solid (s : string) : solid s = true -> Js.trim s = s.
Proof.
  intros H. unfold Js.trim, Js.trimEnd. rewrite (trimStart_solid s H).
  rewrite trimStart_solid by now apply solid_rev.
  now rewrite rev_string_rev, StrFacts.append_nil_r.
Qed.














Lemma sort_ordinary (ms : list Message) :
  Forall (fun x => ordinary x = true) ms ->
  Forall (fun x => ordinary x = true) (Arr.sortMessages ms).
Proof.
  intros H. unfold Arr.sortMessages.
  now rewrite (SortFacts.sort_by_perm m_createdAt ms).
Qed.



Lemma nodeOf_ordinary (m : Message) :
  ordinary m = true -> nodeOf m = if isBubble m then [BubbleOf m] else [].
Proof.
  unfold ordinary, nodeOf.
  destruct (String.eqb (m_type m) "date"); [discriminate|].
  destruct (String.eqb (m_type m) "time"); [discriminate|]. reflexivity.
Qed.

Lemma labelled_rendered (day : Z -> string) (cur : option string) (ms : list Message) :
  Forall (fun x => ordinary x = true) ms ->
  labelled day cur (withSeparators day cur ms) = true.
Proof.
  intros H. revert cur. induction H as [|x r Hx Hr IH]; intros cur; [reflexivity|].
  cbn [withSeparators]. rewrite (nodeOf_ordinary x Hx).
  destruct (Common.opt_eqb cur (day (m_createdAt x))) eqn:E.
  - destruct cur as [d|]; [|discriminate]. simpl in E. apply String.eqb_eq in E. subst d.
    destruct (isBubble x); cbn [app labelled]; [|apply IH].
    simpl. rewrite String.eqb_refl. apply IH.
  - destruct (isBubble x); cbn [app labelled]; [|apply IH].
    simpl. rewrite String.eqb_refl. apply IH.
Qed.

Lemma shown_rendered (day : Z -> string) (cur : option string) (ms : list Message) :
  Forall (fun x => ordinary x = true) ms ->
  shown (withSeparators day cur ms) = List.filter isBubble ms.
Proof.
  intros H. revert cur. induction H as [|x r Hx Hr IH]; intros cur; [reflexivity|].
  cbn [withSeparators List.filter]. rewrite (nodeOf_ordinary x Hx).
  destruct (Common.opt_eqb cur _); destruct (isBubble x); cbn [app shown]; now rewrite IH.
Qed.

Lemma noEmptyDay_rendered (day : Z -> string) (cur : option string) (ms : list Message) :
  Forall (fun x => isBubble x = true) ms ->
  noEmptyDay (withSeparators day cur ms) = true.
Proof.
  intros H. revert cur. induction H as [|x r Hx Hr IH]; intros cur; [reflexivity|].
  assert (Hn : nodeOf x = [BubbleOf x]).
  { unfold nodeOf. unfold isBubble in Hx.
    destruct (String.eqb_spec (m_type x) "date") as [E|_]; [rewrite E in Hx; discriminate|].
    destruct (String.eqb_spec (m_type x) "time") as [E|_]; [rewrite E in Hx; discriminate|].
    unfold isBubble. now rewrite Hx. }
  cbn [withSeparators]. rewrite Hn.
  destruct (Common.opt_eqb cur _); cbn [app noEmptyDay]; apply IH.
Qed.

Lemma bubble_is_ordinary (m : Message) : isBubble m = true -> ordinary m = true.
Proof.
  unfold isBubble, ordinary.
  destruct (String.eqb_spec (m_type m) "date") as [->|_]; [discriminate|].
  destruct (String.eqb_spec (m_type m) "time") as [->|_]; [discriminate|]. reflexivity.
Qed.

(** X8.  What [renderChat] puts into the messages container for a cache
    of ordinary messages: the bubbles of the messages [appendMessage]
    can render, in the order of the stable sort by [createdAt]; every
    bubble stands under a date separator that carries the day of its
    message; and when every message has a bubble, every separator is
    followed at once by a bubble. *)
Theorem X8_rendered_chat_is_grouped_by_day (cl : Clock) (today : Z) (ms : list Message) :
  Forall (fun x => ordinary x = true) ms ->
  shown (Render.renderChat cl today ms) = List.filter isBubble (Arr.sortMessages ms) /\
  labelled (formatMessageDay cl today) None (Render.renderChat cl today ms) = true /\
  (Forall (fun x => isBubble x = true) ms -> noEmptyDay (Render.renderChat cl today ms) = true).
Proof.
  intros H. pose proof (sort_ordinary ms H) as Hs. unfold Render.renderChat.
  split; [now apply shown_rendered|]. split; [now apply labelled_rendered|].
  intros Hb. apply noEmptyDay_rendered. unfold Arr.sortMessages.
  now rewrite (SortFacts.sort_by_perm m_createdAt ms).
Qed.

Lemma X8_witness :
  shown (Render.renderChat utc Fixture.T
           [Common.textPlaceholder "-b" "two" Fixture.alice "Alice" Fixture.T;
            Common.textPlaceholder "-a" "one" Fixture.alice "Alice" (Fixture.T - 86400000)]) =
  [Common.textPlaceholder "-a" "one" Fixture.alice "Alice" (Fixture.T - 86400000);
   Common.textPlaceholder "-b" "two" Fixture.alice "Alice" Fixture.T].
Proof.
  apply (X8_rendered_chat_is_grouped_by_day utc Fixture.T
           [Common.textPlaceholder "-b" "two" Fixture.alice "Alice" Fixture.T;
            Common.textPlaceholder "-a" "one" Fixture.alice "Alice" (Fixture.T - 86400000)]).
  repeat constructor.
Defined.

End RenderFacts.

(** ** The Firebase service *)

Module ServiceFacts.
Import FirebaseService.
#[local] Arguments String.append : simpl nomatch.

Lemma saveMessage_ok (net : Net) (u : User) (now later : Z) (threadType threadId : string)
    (message : Message) (b : Backend) (saved : Message) (b' : Backend) :
  saveMessage net (Some u) now later threadType threadId message b = Ret (saved, b') ->
  saved = messageToSave u now message /\
  m_id saved <> "" /\
  exists path, getThreadPath threadType threadId = Ret path /\
    rtdb b' = <[path := <[m_id saved := saved]> (default ∅ (rtdb b !! path))]> (rtdb b).
Proof.
  unfold saveMessage.
  destruct (negb (Js.truthy (Some (m_id message))) && negb (Js.truthy (m_tempId message))) eqn:Hid;
    [discriminate|].
  destruct (getThreadPath threadType threadId) as [path|]; simpl; [|discriminate].
  destruct (rtdbOk net); simpl; [|discriminate].
  assert (Hne : m_id (messageToSave u now message) <> "").
  { simpl. unfold Js.truthy, Js.or_str in *.
    destruct (String.eqb_spec (m_id message) ""); simpl in *; [|assumption].
    destruct (m_tempId message) as [t|]; [|discriminate].
    destruct (String.eqb_spec t ""); simpl in *; [discriminate|assumption]. }
  destruct (if firestoreOk net then _ else None); intros [= <- <-];
    (split; [reflexivity|]; split; [exact Hne|]); eexists; split; reflexivity.
Qed.

(** X9.  Round trip through the database.  A message that [saveMessage]
    has saved sits in the thread under its own id ([id], else [tempId],
    never empty), and the record the thread listener is called with for
    it carries that id and no [tempId].  Formatted by [formatMessage]
    of the first driver in the session that sent it, it is an outgoing
    message with the same id and text, and with the same [createdAt]
    when that was set. *)
Theorem X9_saved_message_comes_back
    (net : Net) (u : User) (now later t : Z) (threadType threadId : string)
    (message saved : Message) (b b' : Backend) (env : Env) :
  saveMessage net (Some u) now later threadType threadId message b = Ret (saved, b') ->
  currentUser env = Some u -> uid u <> "" ->
  Js.or_str (m_senderId message) (uid u) = uid u ->
  m_id saved = Js.or_str (Some (m_id message)) (Js.or_str (m_tempId message) "") /\
  m_id saved <> "" /\
  (exists path, getThreadPath threadType threadId = Ret path /\
     rtdb b' !! path ≫= (fun children => children !! m_id saved) = Some saved) /\
  r_id (messageObj t (m_id saved) saved) = m_id saved /\
  r_tempId (messageObj t (m_id saved) saved) = None /\
  exists fm, Driver1.formatMessage env (messageObj t (m_id saved) saved) = Some fm /\
    m_id fm = m_id saved /\ m_type fm = "outgoing" /\
    m_text fm = Some (Js.or_str (m_text message) "") /\
    (m_createdAt message <> 0 -> m_createdAt fm = m_createdAt message).
Proof.
  intros Hs Hu Huid Hsender.
  destruct (saveMessage_ok _ _ _ _ _ _ _ _ _ _ Hs) as (-> & Hne & path & Hp & Hr).
  split; [reflexivity|]. split; [exact Hne|]. split; [|split; [reflexivity|split; [reflexivity|]]].
  - exists path. split; [exact Hp|]. rewrite Hr, lookup_insert_eq. simpl.
    apply lookup_insert_eq.
  - assert (Hout : Common.opt_eqb
              (Some (Js.or_str (Some (Js.or_str (m_senderId message)
                                        (Js.or_str (Some (uid u)) "unknown"))) "")) (uid u) = true).
    { apply String.eqb_neq in Huid. unfold Js.or_str in Hsender |- *. simpl. rewrite Huid.
      destruct (m_senderId message) as [x|].
      - rewrite Hsender, Huid. apply String.eqb_refl.
      - rewrite Huid. apply String.eqb_refl. }
    unfold Driver1.formatMessage. rewrite Hu. eexists. split; [reflexivity|].
    cbn [m_id m_type m_text m_createdAt m_senderId messageObj r_id r_senderId r_text
         r_createdAt messageToSave] in *.
    rewrite Hout. repeat split.
    + f_equal. unfold Js.or_str. destruct (m_text message) as [x|]; [|reflexivity].
      destruct (String.eqb x "") eqn:E; [reflexivity|]. now rewrite E.
    + intros Hc. apply Z.eqb_neq in Hc. now rewrite Hc, Hc.
Qed.

Lemma X9_witness :
  exists fm,
    Driver1.formatMessage Fixture.env0
      (messageObj (Fixture.T + 1) Scenario.K (w_message Scenario.helloWrite)) = Some fm /\
    m_id fm = Scenario.K /\ m_type fm = "outgoing".
Proof.
  destruct (X9_saved_message_comes_back (mkNet true true) Fixture.alice Fixture.T Fixture.T
              (Fixture.T + 1) "room" "general" (w_message Scenario.helloWrite)
              (w_message Scenario.helloWrite) (mkBackend ∅ ∅ ∅)
              (mkBackend {["messages/rooms/general" :=
                             {[Scenario.K := w_message Scenario.helloWrite]}]} ∅ ∅)
              Fixture.env0)
    as (_ & _ & _ & _ & _ & H); [reflexivity | reflexivity | discriminate | reflexivity |].
  destruct H as (fm & Hf & Hi & Ht & _).
  exists fm. auto.
Defined.

(** X10.  [saveMessage] fails exactly when the service has no user, the
    message has neither [id] nor [tempId], the thread type is neither
    'room' nor 'dm', or the write to the RTDB fails.  Firestore never
    makes it fail and never changes what is stored: with Firestore down
    the same message is returned and the same record written, and the
    thread documents and [threadMeta] are left as they were. *)
Theorem X10_firestore_is_best_effort
    (rtdbUp : bool) (cu : option User) (now later : Z) (threadType threadId : string)
    (message : Message) (b : Backend) :
  (saveMessage (mkNet rtdbUp true) cu now later threadType threadId message b = Throw <->
   cu = None \/ (m_id message = "" /\ Js.truthy (m_tempId message) = false) \/
   (threadType <> "room" /\ threadType <> "dm") \/ rtdbUp = false) /\
  saveMessage (mkNet rtdbUp false) cu now later threadType threadId message b =
    match saveMessage (mkNet rtdbUp true) cu now later threadType threadId message b with
    | Ret (saved, b1) => Ret (saved, mkBackend (rtdb b1) (threads b) (threadMeta b))
    | Throw => Throw
    end.
Proof.
  unfold saveMessage. cbn [rtdbOk firestoreOk].
  destruct cu as [u|]; [|split; [split; auto|reflexivity]].
  destruct (negb (Js.truthy (Some (m_id message))) && negb (Js.truthy (m_tempId message)))
    eqn:Hid.
  { split; [|reflexivity]. split; [intros _|reflexivity]. right; left.
    apply andb_true_iff in Hid as [H1 H2]. apply negb_true_iff in H1, H2.
    split; [|exact H2]. unfold Js.truthy in H1. apply negb_false_iff in H1.
    now apply String.eqb_eq. }
  assert (Hid' : ~ (m_id message = "" /\ Js.truthy (m_tempId message) = false)).
  { intros [H1 H2]. unfold Js.truthy at 1 in Hid. rewrite H1, H2 in Hid. discriminate. }
  destruct (getThreadPath threadType threadId) as [path|] eqn:Hp; cbn [mbind res_bind].
  2:{ split; [|reflexivity]. split; [intros _|reflexivity]. right; right; left.
      unfold getThreadPath in Hp.
      destruct (String.eqb_spec threadType "room"); [discriminate|].
      destruct (String.eqb_spec threadType "dm"); [discriminate|]. auto. }
  assert (Htt : ~ (threadType <> "room" /\ threadType <> "dm")).
  { intros [H1 H2]. unfold getThreadPath in Hp.
    apply String.eqb_neq in H1, H2. rewrite H1, H2 in Hp. discriminate. }
  destruct rtdbUp; cbn [negb]; [|split; [split; auto|reflexivity]].
  cbn [threads].
  destruct (threads b !! _); (split; [split; [discriminate|]|reflexivity]);
    intros [H|[H|[H|H]]]; solve [discriminate | contradiction].
Qed.

Lemma segments_head (p : string) : exists rest, Sidebar.segments p = Router.upToSlash p :: rest.
Proof. apply RouterFacts.split_head. Qed.

(** X11.  The sidebar of the second driver listens for the last message
    of a thread at a path on which no message is ever saved: the path of
    [listenForLastMessage] and the path under which [saveMessage] writes
    a record are unrelated, whatever the threads and the key. *)
Theorem X11_sidebar_listens_where_nothing_is_saved
    (threadType threadId path key threadType' threadId' : string) :
  getThreadPath threadType threadId = Ret path ->
  ~ Sidebar.related (Sidebar.lastMessagePath threadType' threadId') (path +:+ "/" +:+ key).
Proof.
  intros Hp.
  assert (Hw : exists rest, Sidebar.segments (path +:+ "/" +:+ key) = "messages" :: rest).
  { destruct (segments_head (path +:+ "/" +:+ key)) as [r H]. exists r. rewrite H. f_equal.
    unfold getThreadPath in Hp.
    destruct (String.eqb threadType "room");
      [|destruct (String.eqb threadType "dm"); [|discriminate]];
      injection Hp as <-; reflexivity. }
  assert (Hl : exists x rest, Sidebar.segments (Sidebar.lastMessagePath threadType' threadId')
                              = x :: rest /\ x <> "messages").
  { destruct (segments_head (Sidebar.lastMessagePath threadType' threadId')) as [r H].
    rewrite H. do 2 eexists. split; [reflexivity|].
    unfold Sidebar.lastMessagePath. destruct (String.eqb threadType' "room"); discriminate. }
  destruct Hw as [rw Hw], Hl as (x & rl & Hl & Hx).
  unfold Sidebar.related. rewrite Hw, Hl.
  intros [[k Hk] | [k Hk]]; simpl in Hk; injection Hk as Hk _; congruence.
Qed.

Lemma X11_witness :
  ~ Sidebar.related (Sidebar.lastMessagePath "room" "general")
      ("messages/rooms/general" +:+ "/" +:+ Scenario.K).
Proof.
  apply (X11_sidebar_listens_where_nothing_is_saved "room" "general" "messages/rooms/general"
           Scenario.K "room" "general").
  reflexivity.
Defined.

End ServiceFacts.

(** ** Unread counters *)

Module UnreadFacts.
Import FirebaseService.
#[local] Arguments String.append : simpl nomatch.

Lemma bump_counts (senderId u : string) (members : list string) (counts : gmap string Z) :
  default 0 (foldl (bump senderId) counts members !! u) =
  default 0 (counts !! u) +
  (if String.eqb u senderId then 0 else Z.of_nat (count_occ string_dec members u)).
Proof.
  revert counts. induction members as [|m r IH]; intros counts.
  - simpl. destruct (String.eqb u senderId); lia.
  - cbn [foldl]. rewrite IH. unfold bump.
    destruct (String.eqb_spec m senderId) as [->|Hm].
    + destruct (String.eqb_spec u senderId) as [->|Hu]; [reflexivity|].
      rewrite count_occ_cons_neq by congruence. reflexivity.
    + destruct (decide (m = u)) as [->|Hne].
      * rewrite lookup_insert_eq. apply String.eqb_neq in Hm. rewrite Hm.
        rewrite count_occ_cons_eq by reflexivity. simpl. lia.
      * rewrite lookup_insert_ne by exact Hne.
        rewrite count_occ_cons_neq by exact Hne. reflexivity.
Qed.

Lemma initial_counts (senderId u : string) (members : list string) (counts : gmap string Z) :
  default 0 (foldl (initial senderId) counts members !! u) =
  if bool_decide (u ∈ members) then (if String.eqb u senderId then 0 else 1)
  else default 0 (counts !! u).
Proof.
  revert counts. induction members as [|m r IH]; intros counts; [reflexivity|].
  cbn [foldl]. rewrite IH. unfold initial.
  destruct (decide (u ∈ r)) as [Hin|Hin].
  - rewrite !bool_decide_eq_true_2; [reflexivity | now right | exact Hin].
  - rewrite (bool_decide_eq_false_2 _ Hin).
    destruct (decide (m = u)) as [->|Hne].
    + rewrite lookup_insert_eq, bool_decide_eq_true_2 by now left. reflexivity.
    + rewrite lookup_insert_ne by exact Hne.
      rewrite bool_decide_eq_false_2; [reflexivity|].
      intros H. apply elem_of_cons in H as [H|H]; congruence.
Qed.

Lemma increment_existing (net : Net) (now : Z) (tt tid sender : string) (members : list string)
    (metas : gmap string Meta) (meta : Meta) :
  firestoreOk net = true -> members <> [] ->
  metas !! docId tt tid = Some meta ->
  exists meta',
    incrementUnreadCount net now tt tid sender members metas = <[docId tt tid := meta']> metas /\
    mt_lastSeen meta' = mt_lastSeen meta /\
    forall u, userUnread u meta' = userUnread u meta +
      (if String.eqb u sender then 0 else Z.of_nat (count_occ string_dec members u)).
Proof.
  intros Hfs Hm Hd. unfold incrementUnreadCount. rewrite Hfs, Hd.
  destruct members as [|m r]; [congruence|]. cbn [negb].
  eexists. split; [reflexivity|]. split; [reflexivity|].
  intros u. unfold userUnread. cbn [mt_unreadCounts]. apply bump_counts.
Qed.

(** X12.  What a send does to the unread counters of a thread whose
    member list is not empty.  When the [threadMeta] document exists,
    the counter of every member other than the sender goes up by the
    number of times the member is listed, and the sender's own counter
    and those of everybody else stay; when it does not exist, it is
    created with 1 for every listed member other than the sender and 0
    for the sender.  No other document changes. *)
Theorem X12_a_send_counts_for_the_other_members
    (net : Net) (now : Z) (tt tid sender : string) (members : list string)
    (metas : gmap string Meta) :
  firestoreOk net = true -> members <> [] ->
  exists meta',
    incrementUnreadCount net now tt tid sender members metas = <[docId tt tid := meta']> metas /\
    forall u,
      userUnread u meta' =
      match metas !! docId tt tid with
      | Some meta =>
          userUnread u meta +
          (if String.eqb u sender then 0 else Z.of_nat (count_occ string_dec members u))
      | None =>
          if String.eqb u sender then 0 else if bool_decide (u ∈ members) then 1 else 0
      end.
Proof.
  intros Hfs Hm. destruct (metas !! docId tt tid) as [meta|] eqn:Hd.
  - destruct (increment_existing net now tt tid sender members metas meta Hfs Hm Hd)
      as (meta' & He & _ & Hu). exists meta'. split; [exact He|exact Hu].
  - unfold incrementUnreadCount. rewrite Hfs, Hd.
    destruct members as [|m r]; [congruence|]. cbn [negb].
    eexists. split; [reflexivity|].
    intros u. unfold userUnread. cbn [mt_unreadCounts]. rewrite initial_counts.
    destruct (bool_decide (u ∈ m :: r)), (String.eqb u sender); reflexivity.
Qed.

Lemma X12_witness :
  exists meta',
    incrementUnreadCount (mkNet true true) Fixture.T "room" "general" "u1" ["u1"; "u2"] ∅
      = <[docId "room" "general" := meta']> ∅ /\
    userUnread "u2" meta' = 1 /\ userUnread "u1" meta' = 0.
Proof.
  destruct (X12_a_send_counts_for_the_other_members (mkNet true true) Fixture.T
              "room" "general" "u1" ["u1"; "u2"] ∅ eq_refl) as (meta' & He & Hu);
    [discriminate|].
  exists meta'. split; [exact He|]. split; [apply (Hu "u2") | apply (Hu "u1")].
Defined.





Lemma setUnread_ids (r : string) (n : Z) (rooms : list (string * Z)) :
  map fst (setUnread r n rooms) = map fst rooms.
Proof.
  induction rooms as [|[i u0] rest IH]; [reflexivity|]. simpl.
  destruct (String.eqb i r); simpl; [reflexivity|]. now rewrite IH.
Qed.

Lemma setUnread_map (r : string) (n : Z) (rooms : list (string * Z)) :
  List.NoDup (map fst rooms) ->
  setUnread r n rooms = map (fun x => if String.eqb (fst x) r then (fst x, n) else x) rooms.
Proof.
  induction rooms as [|[i u0] rest IH]; [reflexivity|]. simpl.
  intros Hnd. inversion Hnd as [|? ? Hni Hnd']; subst.
  destruct (String.eqb_spec i r) as [->|Hne]; [|now rewrite IH].
  f_equal. clear IH Hnd Hnd'. induction rest as [|[j v] rest IH]; [reflexivity|]. simpl in *.
  destruct (String.eqb_spec j r) as [->|_]; [tauto|]. f_equal. apply IH. tauto.
Qed.

Lemma applyMeta_map (prefix userId : string) (rooms : list (string * Z)) (doc : string * Meta) :
  List.NoDup (map fst rooms) ->
  applyMeta prefix userId rooms doc =
  map (fun x => if String.eqb (fst doc) (prefix +:+ fst x)
                then (fst x, userUnread userId (snd doc)) else x) rooms.
Proof.
  intros Hnd. unfold applyMeta.
  destruct (List.find _ rooms) as [r|] eqn:Hf.
  - apply find_some in Hf as [Hin Hr]. apply String.eqb_eq in Hr.
    rewrite (setUnread_map _ _ _ Hnd). apply map_ext. intros x.
    destruct (String.eqb_spec (fst x) (fst r)) as [E|E].
    + rewrite E, Hr, String.eqb_refl. reflexivity.
    + destruct (String.eqb_spec (fst doc) (prefix +:+ fst x)) as [E'|_]; [|reflexivity].
      exfalso. apply E. rewrite Hr in E'. now apply String.app_inj in E'.
  - symmetry. rewrite <- (map_id rooms) at 2. apply map_ext_in. intros x Hx.
    pose proof (find_none _ _ Hf x Hx) as Hn. simpl in Hn. now rewrite Hn.
Qed.

Lemma fetchUnread_map (prefix userId : string) (snapshot : list (string * Meta))
    (rooms : list (string * Z)) :
  List.NoDup (map fst rooms) -> List.NoDup (map fst snapshot) ->
  fetchUnread prefix userId snapshot rooms =
  map (fun x => match List.find (fun d => String.eqb (fst d) (prefix +:+ fst x)) snapshot with
                | Some d => (fst x, userUnread userId (snd d))
                | None => x
                end) rooms.
Proof.
  intros Hr Hs. revert rooms Hr. unfold fetchUnread.
  induction snapshot as [|d ds IH]; intros rooms Hr.
  - simpl. now rewrite map_id.
  - cbn [foldl]. inversion Hs as [|? ? Hni Hs']; subst.
    rewrite (applyMeta_map prefix userId rooms d Hr).
    rewrite IH; [|exact Hs'|].
    2:{ rewrite map_map. erewrite map_ext; [exact Hr|].
        intros x. simpl. now destruct (String.eqb (fst d) (prefix +:+ fst x)). }
    rewrite map_map. apply map_ext. intros x. cbn [List.find].
    destruct (String.eqb_spec (fst d) (prefix +:+ fst x)) as [E|_]; [|reflexivity].
    cbn [fst].
    destruct (List.find (fun d0 => String.eqb (fst d0) (prefix +:+ fst x)) ds) as [d'|] eqn:Hf;
      [|reflexivity].
    exfalso. apply find_some in Hf as [Hin Hd']. apply String.eqb_eq in Hd'.
    apply Hni. rewrite E, <- Hd'. now apply in_map.
Qed.

Lemma find_map_to_list (metas : gmap string Meta) (k : string) :
  List.find (fun d => String.eqb (fst d) k) (map_to_list metas) =
  (fun m => (k, m)) <$> metas !! k.
Proof.
  destruct (metas !! k) as [m|] eqn:Hl; simpl.
  - destruct (List.find _ (map_to_list metas)) as [[k' m']|] eqn:Hf.
    + apply find_some in Hf as [Hin Hk]. simpl in Hk. apply String.eqb_eq in Hk. subst k'.
      apply list_elem_of_In, elem_of_map_to_list in Hin. congruence.
    + exfalso. apply elem_of_map_to_list, list_elem_of_In in Hl.
      pose proof (find_none _ _ Hf _ Hl) as Hn. simpl in Hn.
      now rewrite String.eqb_refl in Hn.
  - destruct (List.find _ (map_to_list metas)) as [[k' m']|] eqn:Hf; [|reflexivity].
    apply find_some in Hf as [Hin Hk]. simpl in Hk. apply String.eqb_eq in Hk. subst k'.
    apply list_elem_of_In, elem_of_map_to_list in Hin. congruence.
Qed.

(** X14.  The unread counters written by [markThreadRead] and
    [incrementUnreadCount] are the ones [fetchRoomsAndChats] reads back:
    for rooms with distinct ids, the loop over the [threadMeta]
    snapshot gives every room the counter its document [room_<id>] holds
    for the user (0 when the document has none), and leaves the rooms
    without a document as they were; the same holds for the chats and
    the documents [dm_<id>]. *)
Theorem X14_fetch_reads_the_counters_back
    (userId : string) (metas : gmap string Meta) (rooms : list (string * Z)) :
  List.NoDup (map fst rooms) ->
  fetchUnread "room_" userId (map_to_list metas) rooms =
    map (fun x => match metas !! docId "room" (fst x) with
                  | Some meta => (fst x, userUnread userId meta)
                  | None => x
                  end) rooms /\
  fetchUnread "dm_" userId (map_to_list metas) rooms =
    map (fun x => match metas !! docId "dm" (fst x) with
                  | Some meta => (fst x, userUnread userId meta)
                  | None => x
                  end) rooms.
Proof.
  intros Hr.
  assert (Hs : List.NoDup (map fst (map_to_list metas))).
  { apply NoDup_ListNoDup, NoDup_fst_map_to_list. }
  split; rewrite (fetchUnread_map _ userId _ rooms Hr Hs); apply map_ext; intros x;
    rewrite find_map_to_list; unfold docId; simpl;
    destruct (metas !! _); reflexivity.
Qed.

Lemma X14_witness :
  fetchUnread "room_" "u1"
    (map_to_list (sends (mkNet true true) "room" "general"
                    [("u2", ["u1"; "u2"], Fixture.T + 1)]
                    (markThreadRead (mkNet true true) Fixture.T "room" "general" "u1" ∅)))
    [("general", 0); ("random", 5)] = [("general", 1); ("random", 5)].
Proof.
  rewrite (proj1 (X14_fetch_reads_the_counters_back "u1" _ [("general", 0); ("random", 5)]
                   ltac:(repeat constructor; simpl; intuition congruence))).
  vm_compute. reflexivity.
Defined.

End UnreadFacts.

(** ** The two size checks *)

Module LimitFacts.
Import FirebaseService.

(** X15.  The upload service is at least as permissive as the legacy
    uploader: a file that gets past the size check of
    [uploadToCloudinary] gets past [validateFileSize], and the two checks
    agree on every file whose type names neither a spreadsheet nor a
    presentation. *)
Theorem X15_upload_service_accepts_what_the_legacy_uploader_accepts (f : File) :
  (legacyAccepts f = true -> UploadService.validateFileSize f = true) /\
  (Js.includes (file_type f) "spreadsheet" = false ->
   Js.includes (file_type f) "presentation" = false ->
   legacyAccepts f = UploadService.validateFileSize f).
Proof.
  unfold legacyAccepts, UploadService.validateFileSize, legacySizeLimit,
    UploadService.sizeLimit, UploadService.limit_image, UploadService.limit_video,
    UploadService.limit_document, UploadService.limit_other.
  destruct (Js.startsWith (file_type f) "image/"); [split; auto|].
  destruct (Js.startsWith (file_type f) "video/"); [split; auto|].
  destruct (String.eqb (file_type f) "application/pdf"
            || Js.includes (file_type f) "document"
            || Js.includes (file_type f) "msword"
            || Js.includes (file_type f) "officedocument") eqn:E.
  - rewrite !orb_true_l. split; auto.
  - rewrite !orb_false_l. split.
    + destruct (Js.includes (file_type f) "spreadsheet"
                || Js.includes (file_type f) "presentation"); [|auto].
      intros H. apply negb_true_iff in H. apply negb_true_iff.
      apply Z.ltb_ge in H. apply Z.ltb_ge. lia.
    + intros -> ->. reflexivity.
Qed.

Lemma X15_witness :
  UploadService.validateFileSize (mkFile "deck.key" "application/x-iwork-presentation" 1048576)
  = true.
Proof.
  apply (proj1 (X15_upload_service_accepts_what_the_legacy_uploader_accepts
                  (mkFile "deck.key" "application/x-iwork-presentation" 1048576))).
  reflexivity.
Defined.

End LimitFacts.

(** ** The profile cache of the second driver *)

Module ProfileFacts.
Import Sidebar.

(** X16.  A profile is looked up once: after a call of [getUserProfile]
    that found the document, or found that there is none, every later
    call for the same user returns the same profile and leaves the cache
    as it is, whatever Firestore holds by then; an unknown user is thus
    remembered as 'User' until the cache is cleared.  A look-up that
    failed is not remembered. *)
Theorem X16_profiles_are_looked_up_once
    (firestore later : string -> Lookup) (userId : string) (cache : gmap string UserProfile) :
  let first := getUserProfile firestore userId cache in
  (firestore userId <> Failed \/ is_Some (cache !! userId) ->
   getUserProfile later userId (snd first) = (fst first, snd first)) /\
  (firestore userId = Failed -> cache !! userId = None ->
   snd first = cache /\ fst first = fallback /\
   getUserProfile later userId (snd first) = getUserProfile later userId cache) /\
  (firestore userId = Missing -> cache !! userId = None ->
   fst (getUserProfile later userId (snd first)) = fallback /\
   getUserProfile later userId (clearUserProfileCache (snd first)) =
   getUserProfile later userId ∅).
Proof.
  cbn zeta. unfold getUserProfile.
  destruct (cache !! userId) as [p|] eqn:Hc.
  - split; [|split]; [|discriminate|discriminate].
    intros _. cbn [fst snd]. now rewrite Hc.
  - destruct (firestore userId) as [d| |] eqn:Hf; cbn [fst snd].
    + split; [|split]; [|discriminate|discriminate].
      intros _. now rewrite lookup_insert_eq.
    + split; [|split]; [|discriminate|].
      * intros _. now rewrite lookup_insert_eq.
      * intros _ _. rewrite lookup_insert_eq. split; reflexivity.
    + split; [|split]; [| |discriminate].
      * intros [H|[x H]]; congruence.
      * intros _ _. rewrite Hc. auto.
Qed.

Lemma X16_witness :
  getUserProfile (fun _ => Found (mkUserData (Some "Bob") None None None None None None None))
    "u2" (snd (getUserProfile (fun _ => Missing) "u2" ∅))
  = (fst (getUserProfile (fun _ => Missing) "u2" ∅),
     snd (getUserProfile (fun _ => Missing) "u2" ∅)).
Proof.
  apply (proj1 (X16_profiles_are_looked_up_once (fun _ => Missing)
                  (fun _ => Found (mkUserData (Some "Bob") None None None None None None None))
                  "u2" ∅)).
  left. discriminate.
Defined.

End ProfileFacts.

(** ** Opening a room that does not exist *)

Module NavFacts.
Import Common.

#[local] Opaque PushId.genTempId.



End NavFacts.

(** ** The status of a sent text *)

Module StatusFacts.
Import Common.

Lemma update_at (p : Bubble -> bool) (f : Bubble -> Bubble) (pre post : list Bubble) (b : Bubble) :
  Forall (fun x => p x = false) pre -> p b = true ->
  Dom.update p f (pre ++ b :: post) = pre ++ f b :: post.
Proof.
  intros Hpre Hb. induction Hpre as [|x r Hx Hr IH]; simpl.
  - now rewrite Hb.
  - now rewrite Hx, IH.
Qed.

Lemma find_at (p : Bubble -> bool) (pre post : list Bubble) (b : Bubble) :
  Forall (fun x => p x = false) pre -> p b = true ->
  Dom.querySelector p (pre ++ b :: post) = Some b.
Proof.
  intros Hpre Hb. unfold Dom.querySelector. induction Hpre as [|x r Hx Hr IH]; simpl.
  - now rewrite Hb.
  - now rewrite Hx, IH.
Qed.

(** X18.  The final status of a sent text depends on which comes first,
    the echo of the record or the return of [saveMessage].  In the first
    driver, for a placeholder [K] that is pending and has its bubble in
    the chat: when [saveMessage] returns before the echo is applied, the
    bubble ends as 'delivered'; when the echo is applied first, the
    bubble is 'delivered' and step 6 of [sendMessageFromComposer] then
    sets it back to 'sent'.  In both orders the pending entry is gone. *)
Theorem X18_status_depends_on_the_order_of_echo_and_save
    (viewId threadKey : string) (env : Env) (raw : RawMessage) (s : State)
    (pre post : list Bubble) (b : Bubble) (p : Message) (ms : list Message) :
  is_Some (currentUser env) ->
  r_tempId raw = None ->
  pendingMessages s !! r_id raw = Some p ->
  messagesCache s !! threadKey = Some (Some <$> ms) ->
  bubbles s = pre ++ b :: post ->
  b_message_id b = r_id raw -> b_temp_id b = r_id raw ->
  Forall (fun x => Dom.by_message_id (r_id raw) x = false) pre ->
  Forall (fun x => Dom.by_temp_id (r_id raw) x = false) pre ->
  (exists s1,
     Driver1.listener viewId threadKey env raw (Driver1.textSaved true (r_id raw) s) = Ret s1 /\
     bubbles s1 = pre ++ Dom.confirm (r_id raw) b :: post /\
     b_status (Dom.confirm (r_id raw) b) = "delivered" /\
     pendingMessages s1 !! r_id raw = None) /\
  (exists s1,
     Driver1.listener viewId threadKey env raw s = Ret s1 /\
     bubbles (Driver1.textSaved true (r_id raw) s1) =
       pre ++ Dom.set_status "sent" (Dom.confirm (r_id raw) b) :: post /\
     b_status (Dom.set_status "sent" (Dom.confirm (r_id raw) b)) = "sent" /\
     pendingMessages (Driver1.textSaved true (r_id raw) s1) !! r_id raw = None).
Proof.
  intros Hu Htmp Hp Hc Hb Hbi Hbt Hpre1 Hpre2.
  destruct (ReplayFacts.format1_signed_in env raw Hu) as [fm Hfm].
  destruct (ReplayFacts.format1_shape _ _ _ Hfm) as [Hid Hft].
  assert (Hmi : Dom.by_message_id (r_id raw) b = true).
  { unfold Dom.by_message_id. rewrite Hbi. apply String.eqb_refl. }
  assert (Hti : Dom.by_temp_id (r_id raw) b = true).
  { unfold Dom.by_temp_id. rewrite Hbt. apply String.eqb_refl. }
  destruct (CacheFacts.findIndex_total
              (fun m => opt_eqb (m_tempId m) (r_id raw) || String.eqb (m_id m) (r_id raw)) ms)
    as [i Hi].
  split.
  - unfold Driver1.textSaved. rewrite Hb, (find_at _ pre post b Hpre1 Hmi).
    rewrite (update_at _ _ pre post b Hpre1 Hmi). cbn [pendingMessages set_bubbles].
    rewrite Hp. unfold Driver1.listener. rewrite Hfm.
    cbn [messagesCache set_pendingMessages set_bubbles pendingMessages bubbles]. rewrite Hc.
    rewrite Hft, Hid. cbn [Js.or_str]. rewrite lookup_insert_eq. rewrite Hi.
    cbn [mbind res_bind].
    eexists. split; [reflexivity|].
    cbn [bubbles set_pendingMessages set_messagesCache set_bubbles pendingMessages].
    rewrite lookup_delete_eq. split; [|split; reflexivity].
    rewrite (update_at (Dom.by_temp_id (r_id raw)) _ pre post (Dom.set_status "sent" b));
      [reflexivity | exact Hpre2 | exact Hti].
  - unfold Driver1.listener. rewrite Hfm, Hc, Hft, Hid. cbn [Js.or_str]. rewrite Hp, Hi.
    cbn [mbind res_bind]. eexists. split; [reflexivity|].
    unfold Driver1.textSaved.
    cbn [bubbles set_pendingMessages set_messagesCache set_bubbles pendingMessages].
    rewrite Hb, (update_at _ _ pre post b Hpre2 Hti).
    assert (Hmi' : Dom.by_message_id (r_id raw) (Dom.confirm (r_id raw) b) = true).
    { unfold Dom.by_message_id, Dom.confirm. cbn. apply String.eqb_refl. }
    rewrite (find_at _ pre post _ Hpre1 Hmi').
    cbn [bubbles set_pendingMessages set_messagesCache set_bubbles pendingMessages].
    rewrite lookup_delete_eq.
    rewrite (update_at _ _ pre post _ Hpre1 Hmi').
    cbn [bubbles set_pendingMessages set_messagesCache set_bubbles pendingMessages].
    rewrite lookup_delete_eq. split; [reflexivity|]. split; reflexivity.
Qed.

Lemma X18_witness :
  exists s1,
    Driver1.listener Scenario.room Scenario.key Fixture.env0 (Fixture.echo Scenario.helloWrite)
      Scenario.sent1 = Ret s1 /\
    map b_status (bubbles (Driver1.textSaved true Scenario.K s1)) = ["sent"].
Proof.
  unshelve epose proof (X18_status_depends_on_the_order_of_echo_and_save
              Scenario.room Scenario.key Fixture.env0 (Fixture.echo Scenario.helloWrite)
              Scenario.sent1 [] [] (mkBubble Scenario.K Scenario.K "sending" None false)
              (textPlaceholder Scenario.K "hello" Fixture.alice "Alice" Fixture.T)
              [mkMessage "-bob" None "incoming" None None (Some "hi") None None (Some "Bob")
                 (Fixture.T - 60000) (Some "") (Some "") None None None None]
              _ _ _ _ _ _ _ _ _)
    as [_ (s1 & H1 & H2 & _)].
  1-9: vm_compute; first [reflexivity | eauto | constructor].
  exists s1. split; [exact H1|]. change Scenario.K with (r_id (Fixture.echo Scenario.helloWrite)).
  rewrite H2. reflexivity.
Defined.

End StatusFacts.

(** ** A thread at rest *)

Module HistoryFacts.
Import Common Spec.

Lemma quiet_step (viewId threadKey : string) (env : Env) (raw : RawMessage) (s : State)
    (ms : list Message) :
  Nav.Quiet threadKey s ms ->
  exists s' ms',
    Driver1.listener viewId threadKey env raw s = Ret s' /\
    Nav.Quiet threadKey s' ms' /\
    sentMessageIds s' = sentMessageIds s /\
    (forall x, x ∈ map m_id ms -> x ∈ map m_id ms') /\
    (is_Some (currentUser env) ->
     r_id raw ∈ map m_id ms' \/ r_id raw ∈ sentMessageIds s').
Proof.
  intros [Hp Hc Ht Hn Hs]. unfold Driver1.listener.
  destruct (Driver1.formatMessage env raw) as [fm|] eqn:Hfm.
  2:{ exists s, ms. split; [reflexivity|]. split; [now constructor|]. split; [reflexivity|].
      split; [auto|]. intros Hu. destruct (ReplayFacts.format1_signed_in env raw Hu) as [x Hx].
      congruence. }
  destruct (ReplayFacts.format1_shape _ _ _ Hfm) as [Hid Hft].
  rewrite Hc, Hft, Hid. cbn [Js.or_str]. rewrite Hp, lookup_empty.
  fold (same_id raw). rewrite ArrFacts.some_objs. cbn [mbind res_bind].
  destruct (existsb (same_id raw) ms) eqn:He.
  { exists s, ms. split; [reflexivity|]. split; [now constructor|]. split; [reflexivity|].
    split; [auto|]. intros _. left.
    apply existsb_exists in He as (x & Hx & Hsame). unfold same_id in Hsame.
    apply String.eqb_eq in Hsame. rewrite <- Hsame.
    apply list_elem_of_fmap. exists x. split; [reflexivity | now apply list_elem_of_In]. }
  destruct (bool_decide (r_id raw ∈ sentMessageIds s)) eqn:Hsent.
  { exists s, ms. split; [reflexivity|]. split; [now constructor|]. split; [reflexivity|].
    split; [auto|]. intros _. right. now apply bool_decide_eq_true in Hsent. }
  assert (Habs : r_id raw ∉ map m_id ms).
  { apply CacheFacts.some_absent. now rewrite ArrFacts.some_objs, He. }
  assert (Hcache : (Some <$> ms) ++ [Some fm] = Some <$> (ms ++ [fm])) by now rewrite fmap_app.
  rewrite Hcache.
  destruct (CacheFacts.sort_total (ms ++ [fm])) as [sorted Hsort]. rewrite Hsort.
  pose proof (CacheFacts.sorted_is_objs _ _ _ (CacheFacts.objs_fmap (ms ++ [fm])) Hsort) as ->.
  cbn [mbind res_bind].
  set (ms' := Arr.sortMessages (ms ++ [fm])).
  assert (Hperm : ms' ≡ₚ ms ++ [fm]) by apply SortFacts.sort_by_perm.
  set (s1 := set_messagesCache (<[threadKey := Some <$> ms']> (messagesCache s)) s).
  assert (Hq : Nav.Quiet threadKey s1 ms').
  { constructor.
    - exact Hp.
    - apply lookup_insert_eq.
    - rewrite Hperm. apply Forall_app. split; [exact Ht | now constructor].
    - rewrite (Permutation_map m_id Hperm), map_app. apply NoDup_app. split; [exact Hn|].
      split; [|apply NoDup_singleton].
      intros y Hy Hy'. apply list_elem_of_singleton in Hy'. subst y. simpl in Hy.
      rewrite Hid in Hy. contradiction.
    - apply SortFacts.sorted_by_strongly, SortFacts.sort_by_sorted. }
  assert (Hgrow : forall x, x ∈ map m_id ms -> x ∈ map m_id ms').
  { intros x Hx. rewrite (Permutation_map m_id Hperm), map_app. apply elem_of_app. now left. }
  assert (Hnew : r_id raw ∈ map m_id ms').
  { rewrite (Permutation_map m_id Hperm), map_app. apply elem_of_app. right.
    simpl. rewrite Hid. left. }
  destruct Hq as [Hp1 Hc1 Ht1 Hn1 Hs1].
  destruct (viewing viewId s1).
  - destruct (length (Some <$> ms') =? 1)%nat.
    + destruct (CacheFacts.renderChat1_total ms' s1) as [s2 Hr]. rewrite Hr.
      destruct (ReplayFacts.renderChat1_frame _ _ _ Hr) as (Hp2 & Hc2 & Hs2).
      exists s2, ms'. split; [reflexivity|].
      split; [constructor; congruence|]. split; [exact Hs2|]. split; [exact Hgrow|]. auto.
    + destruct (ReplayFacts.appendMessage_keeps fm s1) as (Hp2 & Hc2 & Hs2).
      eexists _, ms'. split; [reflexivity|].
      split; [constructor; congruence|]. split; [exact Hs2|]. split; [exact Hgrow|]. auto.
  - exists s1, ms'. split; [reflexivity|].
    split; [now constructor|]. split; [reflexivity|]. split; [exact Hgrow|]. auto.
Qed.

End HistoryFacts.

(** ** Records whose id the pending table inherits *)

Module TableFacts.
Import Common Spec Table.

Lemma callback_ordinary (viewId threadKey : string) (env : Env) (raw : RawMessage) (ss : Session) :
  pendingProto ss = None -> objectMember (r_id raw) = false ->
  callback viewId threadKey env raw ss =
  (s' ← Driver1.listener viewId threadKey env raw (app ss); Ret (mkSession s' None)).
Proof.
  intros Hp Hm. unfold callback.
  destruct (Driver1.formatMessage env raw) as [fm|] eqn:Hfm.
  - destruct (ReplayFacts.format1_shape _ _ _ Hfm) as [Hid Htmp].
    rewrite Htmp, Hid, Hp. cbn [Js.or_str].
    assert (Hin : inherited None (r_id raw) = false).
    { unfold inherited. rewrite Hm, orb_false_r, orb_false_r.
      destruct (String.eqb_spec (r_id raw) "__proto__") as [E|]; [|reflexivity].
      rewrite E in Hm. discriminate. }
    rewrite Hin, orb_true_r. reflexivity.
  - unfold Driver1.listener. rewrite Hfm. cbn [mbind res_bind]. destruct ss as [s p].
    simpl in Hp. now subst p.
Qed.


Lemma callback_signed_out (viewId threadKey : string) (env : Env) (raw : RawMessage)
    (ss : Session) :
  currentUser env = None -> callback viewId threadKey env raw ss = Ret ss.
Proof. intros H. unfold callback, Driver1.formatMessage. now rewrite H. Qed.

(** C2 (what fails).  The first driver, room 'general' on view with one
    message of Bob in the cache and nothing pending.  A record that Bob
    stored under the key 'constructor', without [createdAt], is
    delivered when the clock reads [T] and, the listener having been
    attached anew, again at [T + 5000].  [pendingMessages['constructor']]
    is the inherited [Object], so both deliveries take the merge
    branch: the first pushes the message, the second finds it in the
    cache and writes the newly formatted message over it.  The cache
    after the second application is not the cache the first one left.
    The same record under a key that names no inherited member is
    skipped the second time, and the cache stays as it was. *)
Theorem C2_inherited_key_is_merged_on_every_delivery :
  exists s1 s2,
    callback Scenario.room Scenario.key Fixture.env0
      (FirebaseService.messageObj Fixture.T "constructor" undated)
      (mkSession Fixture.opened1 None) = Ret s1 /\
    callback Scenario.room Scenario.key Scenario.env1
      (FirebaseService.messageObj (Fixture.T + 5000) "constructor" undated) s1 = Ret s2 /\
    pendingMessages (app s1) = ∅ /\ pendingProto s1 = None /\
    entries Scenario.key (mkSession Fixture.opened1 None) =
      [Some ("-bob", Fixture.T - 60000)] /\
    entries Scenario.key s1 =
      [Some ("-bob", Fixture.T - 60000); Some ("constructor", Fixture.T)] /\
    entries Scenario.key s2 =
      [Some ("-bob", Fixture.T - 60000); Some ("constructor", Fixture.T + 5000)] /\
    messagesCache (app s2) <> messagesCache (app s1) /\
    exists o1,
      callback Scenario.room Scenario.key Fixture.env0
        (FirebaseService.messageObj Fixture.T "-carol" undated)
        (mkSession Fixture.opened1 None) = Ret o1 /\
      callback Scenario.room Scenario.key Scenario.env1
        (FirebaseService.messageObj (Fixture.T + 5000) "-carol" undated) o1 = Ret o1 /\
      entries Scenario.key o1 =
        [Some ("-bob", Fixture.T - 60000); Some ("-carol", Fixture.T)].
Proof.
  eexists. eexists.
  split; [vm_compute; reflexivity|].
  split; [vm_compute; reflexivity|].
  split; [reflexivity|]. split; [reflexivity|].
  split; [vm_compute; reflexivity|].
  split; [vm_compute; reflexivity|].
  split; [vm_compute; reflexivity|].
  split.
  { intros H. apply (f_equal (fun c => c !! Scenario.key)) in H. vm_compute in H. discriminate. }
  eexists.
  split; [vm_compute; reflexivity|].
  split; [vm_compute; reflexivity|].
  vm_compute; reflexivity.
Qed.


Lemma quiet_deliver (viewId threadKey : string) (env : Env) (raws : list RawMessage)
    (ss : Session) (ms : list Message) :
  Nav.Quiet threadKey (app ss) ms -> pendingProto ss = None ->
  Forall (fun raw => objectMember (r_id raw) = false) raws ->
  exists ss' ms',
    deliver viewId threadKey env raws ss = Ret ss' /\
    Nav.Quiet threadKey (app ss') ms' /\ pendingProto ss' = None /\
    sentMessageIds (app ss') = sentMessageIds (app ss) /\
    (forall x, x ∈ map m_id ms -> x ∈ map m_id ms') /\
    (is_Some (currentUser env) ->
     Forall (fun raw => r_id raw ∈ map m_id ms' \/ r_id raw ∈ sentMessageIds (app ss')) raws).
Proof.
  intros Hq Hp Ho. revert ss ms Hq Hp.
  induction Ho as [|raw rest Hraw Hrest IH]; intros ss ms Hq Hp.
  - exists ss, ms. split; [reflexivity|]. split; [exact Hq|]. split; [exact Hp|].
    split; [reflexivity|]. split; [auto|]. intros _. constructor.
  - destruct (HistoryFacts.quiet_step viewId threadKey env raw (app ss) ms Hq)
      as (s1 & ms1 & H1 & Hq1 & Hs1 & Hg1 & Hn1).
    destruct (IH (mkSession s1 None) ms1 Hq1 eq_refl)
      as (ss2 & ms2 & H2 & Hq2 & Hp2 & Hs2 & Hg2 & Hn2).
    exists ss2, ms2. cbn [deliver].
    rewrite (callback_ordinary viewId threadKey env raw ss Hp Hraw), H1.
    cbn [mbind res_bind].
    split; [exact H2|]. split; [exact Hq2|]. split; [exact Hp2|].
    split; [cbn [app] in Hs2; congruence|]. split; [auto|].
    intros Hu. constructor; [|exact (Hn2 Hu)].
    destruct (Hn1 Hu) as [Hin|Hin]; [left; auto | right]. cbn [app] in Hs2. congruence.
Qed.

Lemma quiet_replay (viewId threadKey : string) (env : Env) (raws : list RawMessage)
    (ss : Session) (ms : list Message) :
  Nav.Quiet threadKey (app ss) ms -> pendingProto ss = None ->
  Forall (fun raw => objectMember (r_id raw) = false) raws ->
  Forall (fun raw => r_id raw ∈ map m_id ms \/ r_id raw ∈ sentMessageIds (app ss)) raws ->
  deliver viewId threadKey env raws ss = Ret ss.
Proof.
  intros Hq Hp Ho H. induction H as [|raw rest Hraw Hrest IH]; [reflexivity|].
  apply Forall_cons in Ho as [Ho1 Ho2].
  cbn [deliver]. rewrite (callback_ordinary viewId threadKey env raw ss Hp Ho1).
  rewrite (ReplayFacts.first_driver_reapply viewId threadKey env raw (app ss) (Some <$> ms)).
  - cbn [mbind res_bind]. destruct ss as [s p]. simpl in Hp. subst p. exact (IH Ho2).
  - destruct Hq as [Hpe _ _ _ _]. rewrite Hpe. apply lookup_empty.
  - now destruct Hq.
  - rewrite ArrFacts.some_objs.
    destruct (existsb (same_id raw) ms) eqn:He; [now left|]. right. split; [reflexivity|].
    destruct Hraw as [Hin|Hin]; [|exact Hin]. exfalso.
    apply list_elem_of_fmap in Hin as (x & Hx & Hin).
    assert (existsb (same_id raw) ms = true); [|congruence].
    apply existsb_exists. exists x. split; [now apply list_elem_of_In|].
    unfold same_id. rewrite <- Hx. apply String.eqb_refl.
Qed.

(** X19.  The history of a thread in the first driver.  From a state at
    rest (no placeholder pending, the prototype of the table untouched;
    the cache of the thread without duplicate, in [createdAt] order),
    the callback returns for every record of a history whose ids name no
    member of [Object.prototype], delivered in any order, with or
    without repetitions, and the state is at rest again: the cache holds
    every message it held, holds no id twice and is in [createdAt]
    order.  In a signed-in session every delivered id is then in the
    cache (or in [sentMessageIds]), and delivering the whole history
    once more, as a re-opened room does, changes nothing at all. *)
Theorem X19_history_leaves_a_sorted_cache_and_replays_as_a_no_op
    (viewId threadKey : string) (env env' : Env) (raws : list RawMessage) (ss : Session)
    (ms : list Message) :
  Nav.Quiet threadKey (app ss) ms -> pendingProto ss = None ->
  Forall (fun raw => objectMember (r_id raw) = false) raws ->
  exists ss' ms',
    deliver viewId threadKey env raws ss = Ret ss' /\
    Nav.Quiet threadKey (app ss') ms' /\ pendingProto ss' = None /\
    (forall x, x ∈ map m_id ms -> x ∈ map m_id ms') /\
    (is_Some (currentUser env) ->
     Forall (fun raw => r_id raw ∈ map m_id ms' \/ r_id raw ∈ sentMessageIds (app ss)) raws /\
     deliver viewId threadKey env' raws ss' = Ret ss').
Proof.
  intros Hq Hp Ho.
  destruct (quiet_deliver viewId threadKey env raws ss ms Hq Hp Ho)
    as (ss' & ms' & Hd & Hq' & Hp' & Hs & Hg & Hn).
  exists ss', ms'. split; [exact Hd|]. split; [exact Hq'|]. split; [exact Hp'|].
  split; [exact Hg|].
  intros Hu. specialize (Hn Hu). split.
  - rewrite <- Hs. exact Hn.
  - now apply (quiet_replay viewId threadKey env' raws ss' ms').
Qed.

Lemma X19_witness :
  exists ss' ms',
    deliver "general" "room:general" Fixture.env0
      [Fixture.fromBob "-b2" (Fixture.T + 2); Fixture.fromBob "-b1" (Fixture.T + 1);
       Fixture.fromBob "-b2" (Fixture.T + 2)] (mkSession Fixture.loading None) = Ret ss' /\
    Nav.Quiet "room:general" (app ss') ms' /\ pendingProto ss' = None /\
    (forall x, x ∈ map m_id [] -> x ∈ map m_id ms') /\
    (is_Some (currentUser Fixture.env0) ->
     Forall (fun raw => r_id raw ∈ map m_id ms' \/
                        r_id raw ∈ sentMessageIds (app (mkSession Fixture.loading None)))
       [Fixture.fromBob "-b2" (Fixture.T + 2); Fixture.fromBob "-b1" (Fixture.T + 1);
        Fixture.fromBob "-b2" (Fixture.T + 2)] /\
     deliver "general" "room:general" Fixture.env0
       [Fixture.fromBob "-b2" (Fixture.T + 2); Fixture.fromBob "-b1" (Fixture.T + 1);
        Fixture.fromBob "-b2" (Fixture.T + 2)] ss' = Ret ss').
Proof.
  apply (X19_history_leaves_a_sorted_cache_and_replays_as_a_no_op "general" "room:general"
           Fixture.env0 Fixture.env0 _ (mkSession Fixture.loading None) []).
  - constructor.
    + reflexivity.
    + reflexivity.
    + constructor.
    + constructor.
    + reflexivity.
  - reflexivity.
  - repeat constructor.
Defined.

(** X28.  Applying a record a second time.  Once the callback of a
    signed-in session has returned for a record whose id names no member
    of [Object.prototype] (the prototype of the table untouched), a
    later call for a record with the same id, whatever its other
    properties, the clock and the user by then, returns and leaves the
    whole state as the first call left it: no cache entry is added, none
    modified. *)
Theorem X28_an_applied_record_is_skipped
    (viewId threadKey : string) (env1 env2 : Env) (raw again : RawMessage) (ss ss1 : Session) :
  is_Some (currentUser env1) ->
  pendingProto ss = None -> objectMember (r_id raw) = false -> r_id again = r_id raw ->
  callback viewId threadKey env1 raw ss = Ret ss1 ->
  callback viewId threadKey env2 again ss1 = Ret ss1.
Proof.
  intros Hu Hp Hm Hid H1.
  rewrite (callback_ordinary viewId threadKey env1 raw ss Hp Hm) in H1.
  destruct (Driver1.listener viewId threadKey env1 raw (app ss)) as [s1|] eqn:Hl;
    [|discriminate].
  cbn [mbind res_bind] in H1. injection H1 as <-.
  destruct (ReplayFacts.first_driver_applied _ _ _ _ _ _ Hu Hl) as (Hpe & cache1 & Hc & Hs).
  rewrite callback_ordinary; [|reflexivity|now rewrite Hid].
  cbn [app].
  rewrite (ReplayFacts.first_driver_reapply viewId threadKey env2 again s1 cache1); [reflexivity| | |].
  - now rewrite Hid.
  - exact Hc.
  - unfold same_id in *. now rewrite Hid.
Qed.

Lemma X28_witness :
  callback Scenario.room Scenario.key Scenario.env1
    (FirebaseService.messageObj (Fixture.T + 5000) "-carol" undated)
    (mkSession (Fixture.settled (Driver1.listener Scenario.room Scenario.key Fixture.env0
                  (FirebaseService.messageObj Fixture.T "-carol" undated) Fixture.opened1)) None)
  = Ret (mkSession (Fixture.settled (Driver1.listener Scenario.room Scenario.key Fixture.env0
                  (FirebaseService.messageObj Fixture.T "-carol" undated) Fixture.opened1)) None).
Proof.
  apply (X28_an_applied_record_is_skipped Scenario.room Scenario.key Fixture.env0 Scenario.env1
           (FirebaseService.messageObj Fixture.T "-carol" undated)
           (FirebaseService.messageObj (Fixture.T + 5000) "-carol" undated)
           (mkSession Fixture.opened1 None)).
  - exists Fixture.alice. reflexivity.
  - reflexivity.
  - reflexivity.
  - reflexivity.
  - vm_compute. reflexivity.
Defined.

End TableFacts.

(** ** Overlapping calls of the listener of the second driver *)

Module CallsFacts.
Import Common Spec Calls.

(** A call that nothing interrupts and whose enrichment returns what
    [formatMessage] returns is [Driver2.listener], for a record whose
    id the pending table does not inherit. *)
Lemma uninterrupted (viewId threadKey : string) (env : Env) (raw : RawMessage) (s : State) :
  Table.objectMember (matchIdOf raw) = false ->
  Driver2.listener viewId threadKey env raw s =
  (b ← begin threadKey raw s;
   match snd b with
   | None => Ret (fst b)
   | Some c => resume viewId threadKey c (Ret (Driver2.formatMessage env raw)) (fst b)
   end).
Proof.
  intros Hm. unfold Driver2.listener, begin. fold (matchIdOf raw).
  destruct (bool_decide (r_id raw ∈ default ∅ (processedMessageIds s !! threadKey)));
    [reflexivity|].
  rewrite Hm, orb_false_r.
  set (s0 := set_processedMessageIds _ s).
  destruct (messagesCache s0 !! threadKey) as [cache|] eqn:Hc.
  - destruct (pendingMessages s0 !! matchIdOf raw) as [p|] eqn:Hp.
    + rewrite bool_decide_eq_true_2 by eauto. cbn [mbind res_bind fst snd resume].
      cbn [messagesCache set_bubbles]. fold s0. rewrite Hc. reflexivity.
    + rewrite bool_decide_eq_false_2 by (intros [x Hx]; discriminate).
      destruct (Arr.some _ cache) as [[|]|]; cbn [mbind res_bind fst snd]; try reflexivity.
      unfold resume. rewrite Hc. reflexivity.
  - destruct (pendingMessages s0 !! matchIdOf raw) as [p|] eqn:Hp.
    + rewrite bool_decide_eq_true_2 by eauto. cbn [mbind res_bind fst snd resume].
      cbn [messagesCache set_bubbles]. fold s0. rewrite Hc. reflexivity.
    + rewrite bool_decide_eq_false_2 by (intros [x Hx]; discriminate). reflexivity.
Qed.


Lemma ledger_marked (threadKey id : string) (s : State) :
  ledger threadKey (Driver2.markProcessed threadKey id s) = {[id]} ∪ ledger threadKey s.
Proof. unfold ledger, Driver2.markProcessed. simpl. now rewrite lookup_insert_eq. Qed.

Lemma ledger_created (threadKey : string) (s : State) :
  ledger threadKey
    (set_processedMessageIds (<[threadKey := ledger threadKey s]> (processedMessageIds s)) s) =
  ledger threadKey s.
Proof. unfold ledger. simpl. now rewrite lookup_insert_eq. Qed.

Lemma in_ids (raw : RawMessage) (ms : list Message) :
  existsb (same_id raw) ms = true -> r_id raw ∈ map m_id ms.
Proof.
  intros He. apply existsb_exists in He as (x & Hx & Hsame). unfold same_id in Hsame.
  apply String.eqb_eq in Hsame. rewrite <- Hsame.
  apply list_elem_of_fmap. exists x. split; [reflexivity | now apply list_elem_of_In].
Qed.

Lemma not_waiting (id : string) (l : list Waiting) :
  existsb (fun c => String.eqb (idOf c) id) l = false -> id ∉ map idOf l.
Proof.
  intros He Hin. apply list_elem_of_fmap in Hin as (c & Hc & Hin).
  assert (existsb (fun c => String.eqb (idOf c) id) l = true); [|congruence].
  apply existsb_exists. exists c. split; [now apply list_elem_of_In|].
  rewrite Hc. apply String.eqb_refl.
Qed.

(** A delivery in an orderly schedule. *)
Lemma deliver_calm (viewId threadKey : string) (raw : RawMessage) (w : World)
    (ms : list Message) :
  Calm threadKey w ms -> orderlyEvent (Deliver raw) w = true ->
  exists w',
    step viewId threadKey (Deliver raw) w = Ret w' /\
    Calm threadKey w' ms /\
    (r_id raw ∈ map m_id ms \/ r_id raw ∈ map idOf (waiting w')) /\
    (forall x, x ∈ map idOf (waiting w) -> x ∈ map idOf (waiting w')).
Proof.
  intros [[Hp Hc Ht Hn Hs] Hl Hf Ha Hnew] Ho. cbn [orderlyEvent] in Ho.
  apply andb_true_iff in Ho as [Ho Hw]. apply andb_true_iff in Ho as [Hm Htmp].
  apply negb_true_iff in Hm, Hw. apply bool_decide_eq_true in Htmp.
  assert (Hmid : matchIdOf raw = r_id raw) by (unfold matchIdOf; now rewrite Htmp).
  cbn [step]. unfold begin. fold (ledger threadKey (appOf w)).
  set (s0 := set_processedMessageIds _ (appOf w)).
  assert (Hl0 : ledger threadKey s0 = ledger threadKey (appOf w)) by apply ledger_created.
  assert (Hq0 : Nav.Quiet threadKey s0 ms) by (constructor; assumption).
  destruct (bool_decide (r_id raw ∈ ledger threadKey (appOf w))) eqn:Hin.
  { apply bool_decide_eq_true in Hin. eexists. split; [reflexivity|].
    cbn [fst snd option_list]. rewrite app_nil_r.
    split; [constructor; cbn [appOf waiting]; try assumption; now rewrite Hl0|].
    split; [left; auto | auto]. }
  rewrite Hm, orb_false_r.
  change (pendingMessages s0) with (pendingMessages (appOf w)). rewrite Hp, lookup_empty.
  rewrite bool_decide_eq_false_2 by (intros [x Hx]; discriminate).
  change (messagesCache s0) with (messagesCache (appOf w)). rewrite Hc.
  fold (same_id raw). rewrite ArrFacts.some_objs. cbn [mbind res_bind].
  destruct (existsb (same_id raw) ms) eqn:He.
  - pose proof (in_ids raw ms He) as Hid.
    eexists. split; [reflexivity|]. cbn [fst snd option_list]. rewrite app_nil_r.
    split; [|split; [left; exact Hid | auto]].
    constructor; cbn [appOf waiting]; try assumption.
    + constructor; assumption.
    + intros x Hx. rewrite ledger_marked, Hl0 in Hx. apply elem_of_union in Hx as [Hx|Hx]; [|auto].
      apply elem_of_singleton in Hx. now subst x.
  - eexists. split; [reflexivity|]. cbn [fst snd option_list].
    assert (Habs : r_id raw ∉ map m_id ms).
    { apply CacheFacts.some_absent. now rewrite ArrFacts.some_objs, He. }
    split; [|split].
    + constructor; cbn [appOf waiting].
      * exact Hq0.
      * now rewrite Hl0.
      * apply Forall_app. split; [exact Hf | repeat constructor; eauto].
      * change (NoDup (map idOf (waiting w ++ [Fresh raw]))). rewrite map_app. apply NoDup_app. split; [exact Ha|]. split; [|apply NoDup_singleton].
        intros x Hx Hx'. apply list_elem_of_singleton in Hx'. subst x.
        now apply (not_waiting _ _ Hw).
      * intros x Hx. change (x ∈ map idOf (waiting w ++ [Fresh raw])) in Hx.
        rewrite map_app in Hx. apply elem_of_app in Hx as [Hx|Hx]; [auto|].
        apply list_elem_of_singleton in Hx. now subst x.
    + right. change (r_id raw ∈ map idOf (waiting w ++ [Fresh raw])).
      rewrite map_app. apply elem_of_app. right. left.
    + intros x Hx. change (x ∈ map idOf (waiting w ++ [Fresh raw])).
      rewrite map_app. apply elem_of_app. now left.
Qed.

Lemma waiting_delete (l : list Waiting) (k : nat) (c : Waiting) :
  l !! k = Some c -> NoDup (map idOf l) ->
  NoDup (map idOf (delete k l)) /\
  (idOf c ∉ map idOf (delete k l)) /\
  (forall x, x ∈ map idOf (delete k l) -> x ∈ map idOf l) /\
  (forall x, x ∈ map idOf l -> x = idOf c \/ x ∈ map idOf (delete k l)).
Proof.
  intros Hk Hn. rewrite delete_take_drop.
  rewrite <- (take_drop_middle l k c Hk) in Hn.
  rewrite map_app, map_cons in Hn. rewrite map_app.
  apply NoDup_app in Hn as (H1 & H2 & H3). apply NoDup_cons in H3 as [H3 H4].
  split; [|split; [|split]].
  - apply NoDup_app. split; [exact H1|]. split; [|exact H4].
    intros x Hx Hx'. apply (H2 x Hx). now right.
  - intros Hin. apply elem_of_app in Hin as [Hin|Hin]; [|contradiction].
    apply (H2 _ Hin). left.
  - intros x Hx. rewrite <- (take_drop_middle l k c Hk), map_app, map_cons.
    apply elem_of_app in Hx as [Hx|Hx]; apply elem_of_app; [now left | right; now right].
  - intros x Hx. rewrite <- (take_drop_middle l k c Hk), map_app, map_cons in Hx.
    apply elem_of_app in Hx as [Hx|Hx]; [right; apply elem_of_app; now left|].
    apply elem_of_cons in Hx as [Hx|Hx]; [now left | right; apply elem_of_app; now right].
Qed.

(** A settled enrichment in an orderly schedule. *)
Lemma settle_calm (viewId threadKey : string) (k : nat) (r : res (option Message)) (w : World)
    (ms : list Message) :
  Calm threadKey w ms -> orderlyEvent (Settle k r) w = true ->
  exists w' ms',
    step viewId threadKey (Settle k r) w = Ret w' /\
    Calm threadKey w' ms' /\
    (forall x, x ∈ map m_id ms -> x ∈ map m_id ms') /\
    (forall x, x ∈ map idOf (waiting w') -> x ∈ map idOf (waiting w)) /\
    ((exists fm, r = Ret (Some fm)) ->
     forall x, x ∈ map idOf (waiting w) -> x ∈ map m_id ms' \/ x ∈ map idOf (waiting w')).
Proof.
  intros [[Hp Hc Ht Hn Hs] Hl Hf Ha Hnew] Ho. cbn [orderlyEvent step] in *.
  destruct (waiting w !! k) as [c|] eqn:Hk.
  2:{ exists w, ms. split; [reflexivity|]. split; [repeat (constructor; try assumption)|].
      split; [auto|]. split; [auto|]. intros _ x Hx. now right. }
  destruct (waiting_delete _ _ _ Hk Ha) as (Ha' & Hc' & Hsub & Hcov).
  assert (Hf' : Forall (fun c => exists raw, c = Fresh raw) (delete k (waiting w))).
  { rewrite delete_take_drop. apply Forall_app. split.
    - now apply Forall_take.
    - now apply Forall_drop. }
  assert (Hcin : idOf c ∈ map idOf (waiting w)).
  { apply list_elem_of_fmap. exists c. split; [reflexivity|]. eapply list_elem_of_lookup_2, Hk. }
  assert (Hstay : Calm threadKey (mkWorld (appOf w) (delete k (waiting w))) ms).
  { constructor; cbn [appOf waiting]; try assumption; [constructor; assumption | auto]. }
  rewrite Forall_lookup in Hf. destruct (Hf k c Hk) as [raw ->]. cbn [idOf rawOf] in *.
  unfold resume.
  destruct r as [[fm|]|].
  3:{ cbn [mbind res_bind]. eexists _, ms. split; [reflexivity|]. split; [exact Hstay|].
      split; [auto|]. split; [exact Hsub|]. intros [fm Hfm]. discriminate. }
  2:{ cbn [mbind res_bind]. eexists _, ms. split; [reflexivity|].
      split; [exact Hstay|]. split; [auto|]. split; [exact Hsub|]. intros [fm Hfm]. discriminate. }
  cbn [shaped idOf rawOf] in Ho. apply andb_true_iff in Ho as [Hid Hft].
  apply String.eqb_eq in Hid. apply bool_decide_eq_true in Hft.
  rewrite Hc.
  assert (Hcache : (Some <$> ms) ++ [Some fm] = Some <$> (ms ++ [fm])) by now rewrite fmap_app.
  rewrite Hcache.
  destruct (CacheFacts.sort_total (ms ++ [fm])) as [sorted Hsort]. rewrite Hsort.
  pose proof (CacheFacts.sorted_is_objs _ _ _ (CacheFacts.objs_fmap (ms ++ [fm])) Hsort) as ->.
  cbn [mbind res_bind].
  set (ms' := Arr.sortMessages (ms ++ [fm])).
  assert (Hperm : ms' ≡ₚ ms ++ [fm]) by apply SortFacts.sort_by_perm.
  assert (Hids : forall x, x ∈ map m_id ms' <-> x ∈ map m_id ms \/ x = r_id raw).
  { intros x. rewrite (Permutation_map m_id Hperm), map_app, elem_of_app. simpl.
    rewrite Hid, list_elem_of_singleton. reflexivity. }
  set (s1 := set_messagesCache (<[threadKey := Some <$> ms']> (messagesCache (appOf w))) (appOf w)).
  set (s2 := Driver2.markProcessed threadKey (r_id raw) s1).
  assert (Hq : Nav.Quiet threadKey s2 ms').
  { constructor.
    - exact Hp.
    - apply lookup_insert_eq.
    - rewrite Hperm. apply Forall_app. split; [exact Ht | now constructor].
    - rewrite (Permutation_map m_id Hperm), map_app. apply NoDup_app. split; [exact Hn|].
      split; [|apply NoDup_singleton].
      intros y Hy Hy'. apply list_elem_of_singleton in Hy'. subst y. simpl in Hy.
      rewrite Hid in Hy. exact (Hnew _ Hcin Hy).
    - apply SortFacts.sorted_by_strongly, SortFacts.sort_by_sorted. }
  assert (Hl2 : forall x, x ∈ ledger threadKey s2 -> x ∈ map m_id ms').
  { intros x Hx. unfold s2 in Hx. rewrite ledger_marked in Hx. apply Hids.
    apply elem_of_union in Hx as [Hx|Hx]; [right; now apply elem_of_singleton in Hx|].
    left. apply Hl. exact Hx. }
  assert (Hnew2 : forall x, x ∈ map idOf (delete k (waiting w)) -> x ∉ map m_id ms').
  { intros x Hx Hin. apply Hids in Hin as [Hin| ->]; [exact (Hnew x (Hsub x Hx) Hin)|].
    contradiction. }
  assert (Hcov2 : forall x, x ∈ map idOf (waiting w) ->
            x ∈ map m_id ms' \/ x ∈ map idOf (delete k (waiting w))).
  { intros x Hx. destruct (Hcov x Hx) as [-> | Hx']; [left; apply Hids; now right | now right]. }
  assert (Hgrow : forall x, x ∈ map m_id ms -> x ∈ map m_id ms').
  { intros x Hx. apply Hids. now left. }
  destruct Hq as [Hp2 Hc2 Ht2 Hn2 Hs2].
  match goal with
  | |- context [Driver2.renderChat ?l ?t] => change t with s2; change l with (Some <$> ms')
  end.
  destruct (viewing viewId s2).
  - destruct (CacheFacts.renderChat2_total ms' s2) as [s3 Hr]. rewrite Hr.
    cbn [mbind res_bind].
    assert (Hk3 : pendingMessages s3 = pendingMessages s2 /\ messagesCache s3 = messagesCache s2 /\
                  processedMessageIds s3 = processedMessageIds s2).
    { revert Hr. unfold Driver2.renderChat. destruct (Some <$> ms') as [|a l'].
      - intros [= <-]. auto.
      - destruct (Arr.sort (a :: l')) as [srt|]; simpl; [|discriminate].
        destruct (Arr.objs srt); [|discriminate]. intros [= <-]. auto. }
    destruct Hk3 as (Hp3 & Hc3 & Hl3).
    eexists _, ms'. split; [reflexivity|]. split; [|auto].
    constructor; cbn [appOf waiting]; try assumption.
    + constructor; congruence.
    + unfold ledger. rewrite Hl3. exact Hl2.
  - cbn [mbind res_bind]. eexists _, ms'. split; [reflexivity|]. split; [|auto].
    constructor; cbn [appOf waiting]; try assumption. now constructor.
Qed.

Lemma run_calm (viewId threadKey : string) (evs : list event) (w : World) (ms : list Message)
    (seen : list string) :
  Calm threadKey w ms -> orderly viewId threadKey evs w = true ->
  (forall x, x ∈ seen -> x ∈ map m_id ms \/ x ∈ map idOf (waiting w)) ->
  exists w' ms',
    run viewId threadKey evs w = Ret w' /\
    Calm threadKey w' ms' /\
    (forall x, x ∈ map m_id ms -> x ∈ map m_id ms') /\
    (succeeds evs = true ->
     forall x, x ∈ seen ++ delivered evs ->
       x ∈ map m_id ms' \/ x ∈ map idOf (waiting w')).
Proof.
  revert w ms seen. induction evs as [|e rest IH]; intros w ms seen Hcalm Ho Hseen.
  - exists w, ms. split; [reflexivity|]. split; [exact Hcalm|]. split; [auto|].
    intros _ x Hx. rewrite app_nil_r in Hx. auto.
  - cbn [orderly] in Ho. apply andb_true_iff in Ho as [He Ho]. cbn [run].
    destruct e as [raw | k r].
    + destruct (deliver_calm viewId threadKey raw w ms Hcalm He) as (w1 & H1 & Hc1 & Hin & Hkeep).
      rewrite H1 in Ho |- *. cbn [mbind res_bind].
      destruct (IH w1 ms (seen ++ [r_id raw]) Hc1 Ho) as (w2 & ms2 & H2 & Hc2 & Hg2 & Hcov2).
      { intros x Hx. apply elem_of_app in Hx as [Hx|Hx].
        - destruct (Hseen x Hx) as [Hx'|Hx']; [now left | right; auto].
        - apply list_elem_of_singleton in Hx. now subst x. }
      exists w2, ms2. split; [exact H2|]. split; [exact Hc2|]. split; [exact Hg2|].
      intros Hs x Hx. apply Hcov2; [exact Hs|].
      cbn [delivered flat_map] in Hx. now rewrite <- app_assoc.
    + destruct (settle_calm viewId threadKey k r w ms Hcalm He)
        as (w1 & ms1 & H1 & Hc1 & Hg1 & Hsub1 & Hcov1).
      rewrite H1 in Ho |- *. cbn [mbind res_bind].
      destruct (succeeds (Settle k r :: rest)) eqn:Hs.
      * cbn [succeeds forallb] in Hs. apply andb_true_iff in Hs as [Hr Hs].
        assert (Hfm : exists fm, r = Ret (Some fm)).
        { destruct r as [[fm|]|]; try discriminate. eauto. }
        destruct (IH w1 ms1 seen Hc1 Ho) as (w2 & ms2 & H2 & Hc2 & Hg2 & Hcov2).
        { intros x Hx. destruct (Hseen x Hx) as [Hx'|Hx']; [left; auto | exact (Hcov1 Hfm x Hx')]. }
        exists w2, ms2. split; [exact H2|]. split; [exact Hc2|]. split; [auto|].
        intros _ x Hx. apply Hcov2; [exact Hs | exact Hx].
      * destruct (IH w1 ms1 [] Hc1 Ho) as (w2 & ms2 & H2 & Hc2 & Hg2 & _).
        { intros x Hx. inversion Hx. }
        exists w2, ms2. split; [exact H2|]. split; [exact Hc2|]. split; [auto|].
        intros Hf. discriminate.
Qed.


(** X26.  Overlapping calls of the listener of the second driver.  The
    thread is at rest (nothing pending, the cache without duplicate and
    in [createdAt] order) and its ledger names cached messages only.
    Records are then delivered and enrichments settle in any order, the
    calls overlapping as they may, in a schedule that is orderly: the
    ids name no member of [Object.prototype], no record is delivered
    while a call for the same id is suspended, and an enrichment throws,
    returns [null] or returns a message with the id of its record.
    Then every call returns and the thread is at rest again: the cache
    holds every message it held, no id twice, in [createdAt] order, and
    the ledger still names cached messages only.  When every enrichment
    returns a message, every delivered record is in the cache, or its
    call is still suspended.  A record delivered twice in one burst, on
    the other hand, is cached twice. *)
Theorem X26_overlapping_calls_keep_the_cache_sorted
    (viewId threadKey : string) (evs : list event) (s : State) (ms : list Message) :
  Nav.Quiet threadKey s ms ->
  (forall x, x ∈ ledger threadKey s -> x ∈ map m_id ms) ->
  orderly viewId threadKey evs (mkWorld s []) = true ->
  (exists w' ms',
     run viewId threadKey evs (mkWorld s []) = Ret w' /\
     Nav.Quiet threadKey (appOf w') ms' /\
     (forall x, x ∈ ledger threadKey (appOf w') -> x ∈ map m_id ms') /\
     (forall x, x ∈ map m_id ms -> x ∈ map m_id ms') /\
     (succeeds evs = true ->
      forall x, x ∈ delivered evs -> x ∈ map m_id ms' \/ x ∈ map idOf (waiting w'))) /\
  orderly "general" "room:general" twice (mkWorld Fixture.loading []) = false /\
  (w ← run "general" "room:general" twice (mkWorld Fixture.loading []);
   Ret (cached "room:general" w)) = Ret [Some "-b1"; Some "-b1"].
Proof.
  intros Hq Hl Ho. split; [|split; vm_compute; reflexivity].
  destruct (run_calm viewId threadKey evs (mkWorld s []) ms [] ) as (w' & ms' & Hr & Hc & Hg & Hcov).
  - constructor; cbn [appOf waiting]; try assumption.
    + constructor.
    + constructor.
    + intros x Hx. inversion Hx.
  - exact Ho.
  - intros x Hx. inversion Hx.
  - exists w', ms'. destruct Hc as [Hq' Hl' _ _ _].
    split; [exact Hr|]. split; [exact Hq'|]. split; [exact Hl'|]. split; [exact Hg|].
    intros Hs x Hx. now apply Hcov.
Qed.

Lemma X26_witness :
  exists w' ms',
    run "general" "room:general" burst (mkWorld Fixture.loading []) = Ret w' /\
    Nav.Quiet "room:general" (appOf w') ms' /\
    cached "room:general" w' = [Some "-b1"; Some "-b2"] /\
    (forall x, x ∈ delivered burst -> x ∈ map m_id ms' \/ x ∈ map idOf (waiting w')).
Proof.
  destruct (X26_overlapping_calls_keep_the_cache_sorted "general" "room:general" burst
              Fixture.loading []) as [(w' & ms' & Hr & Hq & _ & _ & Hcov) _].
  - constructor.
    + reflexivity.
    + reflexivity.
    + constructor.
    + constructor.
    + reflexivity.
  - intros x Hx. apply elem_of_empty in Hx. contradiction.
  - vm_compute. reflexivity.
  - exists w', ms'. split; [exact Hr|]. split; [exact Hq|]. split; [|apply Hcov; reflexivity].
    assert (Hw : Ret w' = run "general" "room:general" burst (mkWorld Fixture.loading []))
      by (symmetry; exact Hr).
    vm_compute in Hw. injection Hw as ->. vm_compute. reflexivity.
Defined.

End CallsFacts.

(** ** Runs of the identifier generator *)

Module PushRunFacts.
Import PushId PushRun PushIdOrder.

Lemma timeStampChars_acc (n : nat) (now : Z) (acc : string) :
  timeStampChars n now acc = timeStampChars n now "" +:+ acc.
Proof.
  revert now acc. induction n as [|n IH]; intros now acc; [reflexivity|].
  cbn [timeStampChars]. rewrite IH, (IH _ (_ +:+ "")).
  rewrite StrFacts.append_assoc, (StrFacts.append_assoc _ "" acc). reflexivity.
Qed.

Lemma symbol_order (v w : Z) (x y : string) :
  0 <= v < w -> w <= 63 ->
  String.ltb (charAt PUSH_CHARS (Some (Num v)) +:+ x)
             (charAt PUSH_CHARS (Some (Num w)) +:+ y) = true.
Proof.
  intros Hv Hw.
  assert (H : forallb (fun a => forallb (fun b =>
              if a <? b then
                match charAt PUSH_CHARS (Some (Num a)), charAt PUSH_CHARS (Some (Num b)) with
                | String c1 EmptyString, String c2 EmptyString =>
                    match Ascii.compare c1 c2 with Lt => true | _ => false end
                | _, _ => false
                end
              else true) (seqZ 0 64)) (seqZ 0 64) = true) by (vm_compute; reflexivity).
  rewrite forallb_forall in H.
  specialize (H v ltac:(apply list_elem_of_In, elem_of_seqZ; lia)).
  rewrite forallb_forall in H.
  specialize (H w ltac:(apply list_elem_of_In, elem_of_seqZ; lia)).
  cbv beta in H.
  destruct (v <? w) eqn:E; [|apply Z.ltb_ge in E; lia].
  destruct (charAt PUSH_CHARS (Some (Num v))) as [|c1 [|? ?]]; try discriminate.
  destruct (charAt PUSH_CHARS (Some (Num w))) as [|c2 [|? ?]]; try discriminate.
  change (String c1 "" +:+ x) with (String c1 x).
  change (String c2 "" +:+ y) with (String c2 y).
  unfold String.ltb. simpl. destruct (Ascii.compare c1 c2); try discriminate. reflexivity.
Qed.

Lemma timeStampChars_order (n : nat) (a b : Z) (x y : string) :
  0 <= a < b -> b < 64 ^ Z.of_nat n ->
  String.ltb (timeStampChars n a x) (timeStampChars n b y) = true.
Proof.
  revert a b x y. induction n as [|n IH]; intros a b x y Hab Hb.
  - simpl in Hb. lia.
  - cbn [timeStampChars].
    assert (H64 : 64 ^ Z.of_nat (S n) = 64 * 64 ^ Z.of_nat n).
    { rewrite Nat2Z.inj_succ, Z.pow_succ_r by lia. reflexivity. }
    assert (Hq : a / 64 <= b / 64) by (apply Z.div_le_mono; lia).
    destruct (decide (a / 64 = b / 64)) as [E|E].
    + rewrite E, (timeStampChars_acc n (b / 64) (_ +:+ x)),
        (timeStampChars_acc n (b / 64) (_ +:+ y)), ltb_append_prefix.
      rewrite !Z.rem_mod_nonneg by lia.
      pose proof (Z.mod_pos_bound a 64 ltac:(lia)).
      pose proof (Z.mod_pos_bound b 64 ltac:(lia)).
      pose proof (Z.div_mod a 64 ltac:(lia)). pose proof (Z.div_mod b 64 ltac:(lia)).
      apply symbol_order; lia.
    + apply IH.
      * split; [apply Z.div_pos; lia | lia].
      * apply Z.div_lt_upper_bound; lia.
Qed.

Lemma later_stamp_is_greater (t1 t2 : Z) (x y : string) :
  0 <= t1 < t2 -> t2 < 64 ^ 8 ->
  String.ltb ("-" +:+ timeStampChars 8 t1 "" +:+ x) ("-" +:+ timeStampChars 8 t2 "" +:+ y)
  = true.
Proof.
  intros H1 H2. rewrite ltb_append_prefix, <- !timeStampChars_acc.
  now apply timeStampChars_order.
Qed.

Lemma spelled_after (now : Z) (rnd : nat -> Z) (st : state) :
  spelled (snd (genTempId now rnd st)) = fst (genTempId now rnd st).
Proof. reflexivity. Qed.

Lemma issue_increasing (calls : list (Z * (nat -> Z))) (st : state) :
  0 <= _lastPushTime st -> in_range (_lastRandChars st) -> steady calls st ->
  increasing (spelled st :: issue calls st) = true.
Proof.
  revert st. induction calls as [|[now rnd] rest IH]; intros st H0 Hr Hs; [reflexivity|].
  destruct Hs as (Ht & Hrnd & Hmax & Hrest).
  cbn [issue increasing].
  destruct (key_shape_kept now rnd st ltac:(lia) Hrnd Hr) as [_ Hr'].
  assert (Hstep : String.ltb (spelled st) (fst (genTempId now rnd st)) = true).
  { destruct (decide (now = _lastPushTime st)) as [E|E].
    - unfold spelled. rewrite <- E.
      apply same_millisecond_key_increases; [now symmetry | exact Hr | now apply Hmax].
    - unfold spelled, genTempId. cbn [fst]. apply later_stamp_is_greater; lia.
  }
  rewrite Hstep. cbn [andb].
  specialize (IH (snd (genTempId now rnd st))).
  rewrite spelled_after in IH. apply IH; [cbn; lia | exact Hr' | exact Hrest].
Qed.

Lemma increasing_tail (k : string) (keys : list string) :
  increasing (k :: keys) = true -> increasing keys = true.
Proof.
  destruct keys as [|k' r]; [reflexivity|]. cbn [increasing].
  intros H. now apply andb_true_iff in H as [_ H].
Qed.

(** X20.  The keys of [genTempId] sort in the order they were issued.
    A key issued at a later millisecond is greater than any key issued
    at an earlier one, whatever the random draws and the state of the
    generator; and in a run that starts from the initial state with a
    clock that never goes back, every key is strictly greater than the
    one issued before it, hence different from it, as long as no call
    falls into a millisecond whose suffix is at its maximum. *)
Theorem X20_keys_sort_in_the_order_of_issue
    (t1 t2 : Z) (rnd1 rnd2 : nat -> Z) (st1 st2 : state) (calls : list (Z * (nat -> Z))) :
  (0 <= t1 < t2 -> t2 < 64 ^ 8 ->
   String.ltb (fst (genTempId t1 rnd1 st1)) (fst (genTempId t2 rnd2 st2)) = true) /\
  (steady calls init -> increasing (issue calls init) = true).
Proof.
  split.
  - intros H1 H2. unfold genTempId. cbn [fst]. now apply later_stamp_is_greater.
  - intros Hs. apply (increasing_tail (spelled init)).
    apply issue_increasing; [simpl; lia | apply in_range_init | exact Hs].
Qed.

Lemma X20_witness :
  increasing (issue [(Fixture.T, fun _ => 7); (Fixture.T, fun _ => 9);
                     (Fixture.T + 5000, fun _ => 63)] init) = true.
Proof.
  apply (proj2 (X20_keys_sort_in_the_order_of_issue 0 0 (fun _ => 0) (fun _ => 0) init init
                  [(Fixture.T, fun _ => 7); (Fixture.T, fun _ => 9);
                   (Fixture.T + 5000, fun _ => 63)])).
  cbn [steady]. repeat split; try (vm_compute; congruence); try lia.
  intros _ H. specialize (H 0 ltac:(lia)). vm_compute in H. discriminate.
Defined.

Lemma issue_shape (calls : list (Z * (nat -> Z))) (st : state) :
  in_range (_lastRandChars st) ->
  Forall (fun c => 0 <= fst c /\ forall i, 0 <= snd c i <= 63) calls ->
  Forall (fun k => key_shape k = true) (issue calls st).
Proof.
  intros Hr H. revert st Hr. induction H as [|[now rnd] rest [Hn Hd] Hrest IH]; intros st Hr.
  - constructor.
  - cbn [issue]. destruct (key_shape_kept now rnd st Hn Hd Hr) as [Hk Hr'].
    constructor; [exact Hk | now apply IH].
Qed.

(** X21.  Every key the generator issues, from its initial state on and
    through any number of calls, is a valid key: 21 symbols of the push
    alphabet, the first a dash.  This needs the clock not to be before
    the epoch and the draws to be symbol indices; it does not need the
    clock to be monotone, and holds across the wrap-around of the
    suffix. *)
Theorem X21_every_issued_key_is_well_formed (calls : list (Z * (nat -> Z))) :
  Forall (fun c => 0 <= fst c /\ forall i, 0 <= snd c i <= 63) calls ->
  Forall (fun k => key_shape k = true) (issue calls init).
Proof. apply issue_shape, in_range_init. Qed.

Lemma X21_witness :
  Forall (fun k => key_shape k = true)
    (issue [(Fixture.T, fun _ => 63); (Fixture.T, fun _ => 0); (5, fun _ => 1)] init).
Proof.
  apply (X21_every_issued_key_is_well_formed
           [(Fixture.T, fun _ => 63); (Fixture.T, fun _ => 0); (5, fun _ => 1)]).
  repeat constructor; simpl; try lia; unfold Fixture.T; lia.
Defined.

End PushRunFacts.

(** ** A thread without messages *)

Module EmptyThreadFacts.
Import Common.



End EmptyThreadFacts.

(** ** Signing in *)

Module LoginFacts.
Import Login.
#[local] Arguments String.append : simpl nomatch.

Lemma usernameChar_lower (c : ascii) : usernameChar c = true -> lowerChar c = c.
Proof.
  unfold usernameChar, lowerChar. intros H.
  destruct ((65 <=? nat_of_ascii c)%nat && (nat_of_ascii c <=? 90)%nat) eqn:E; [|reflexivity].
  exfalso. apply andb_true_iff in E as [E1 E2]. apply Nat.leb_le in E1, E2.
  repeat (apply orb_true_iff in H as [H|H]);
    try (apply andb_true_iff in H as [H1 H2]; apply Nat.leb_le in H1, H2; lia);
    apply Nat.eqb_eq in H; lia.
Qed.

Lemma usernameChar_solid (c : ascii) : usernameChar c = true -> Js.is_space c = false.
Proof.
  unfold usernameChar, Js.is_space. intros H.
  apply orb_false_iff. split; [apply andb_false_iff|apply Nat.eqb_neq];
  repeat (apply orb_true_iff in H as [H|H]);
    try (apply andb_true_iff in H as [H1 H2]; apply Nat.leb_le in H1, H2);
    try apply Nat.eqb_eq in H;
    try (right; apply Nat.leb_gt; lia); try lia.
Qed.

Lemma valid_lower (s : string) :
  forallb usernameChar (list_ascii_of_string s) = true -> lowerAscii s = s.
Proof.
  induction s as [|c r IH]; simpl; [reflexivity|].
  intros H. apply andb_true_iff in H as [Hc Hr]. now rewrite (usernameChar_lower c Hc), IH.
Qed.

Lemma valid_solid (s : string) :
  forallb usernameChar (list_ascii_of_string s) = true -> Render.solid s = true.
Proof.
  unfold Render.solid. induction s as [|c r IH]; simpl; [reflexivity|].
  intros H. apply andb_true_iff in H as [Hc Hr]. now rewrite (usernameChar_solid c Hc), IH.
Qed.

Lemma asciiText_keeps (s : string) :
  forallb usernameChar (list_ascii_of_string s) = true ->
  trim asciiText s = s /\ toLowerCase asciiText s = s.
Proof.
  intros H. split; [apply RenderFacts.trim_solid, valid_solid, H | apply valid_lower, H].
Qed.

Lemma prefix_at (c : ascii) (r : string) :
  c <> "@"%char -> String.prefix "@" (String c r) = false.
Proof.
  intros Hne. cbn [String.prefix]. destruct (ascii_dec "@" c) as [E|_]; [congruence|reflexivity].
Qed.

Lemma valid_index_at (s t : string) :
  forallb usernameChar (list_ascii_of_string s) = true ->
  String.index 0 "@" (s +:+ String "@" t) = Some (String.length s).
Proof.
  induction s as [|c r IH]; intros H.
  - cbn [String.append String.index String.prefix String.length].
    destruct (ascii_dec "@" "@") as [_|E]; [|congruence]. destruct t; reflexivity.
  - cbn [list_ascii_of_string forallb] in H. apply andb_true_iff in H as [Hc Hr].
    assert (Hne : c <> "@"%char) by (intros ->; discriminate).
    change (String c r +:+ String "@" t) with (String c (r +:+ String "@" t)).
    cbn [String.index]. rewrite (prefix_at c _ Hne), (IH Hr). reflexivity.
Qed.

Lemma substring_append (s t : string) :
  String.substring 0 (String.length s) (s +:+ t) = s.
Proof.
  induction s as [|c r IH]; simpl.
  - destruct t; reflexivity.
  - now rewrite IH.
Qed.

Lemma valid_before_at (s t : string) :
  forallb usernameChar (list_ascii_of_string s) = true ->
  Common.before_at (s +:+ String "@" t) = s.
Proof.
  intros H. unfold Common.before_at. rewrite (valid_index_at s t H).
  apply substring_append.
Qed.

(** X24.  Signing in.  [trim] and [toLowerCase] leave a string of
    username characters as it is.  Whenever [handleLogin] gets past its
    checks, the address it signs in with is the typed username, trimmed
    and in lower case, followed by '@sink.in', and the password is the
    typed one, of six code units at least; that username is made of two
    or more characters of the username class, so that [constructEmail]
    changed nothing in it, and the name the drivers fall back on for a
    user without display name, the part of the e-mail before the at
    sign, is exactly that username. *)
Theorem X24_the_account_is_the_username_at_sink_in
    (tx : Text) (usernameValue passwordValue email password uid : string) :
  (forall s, forallb usernameChar (list_ascii_of_string s) = true ->
             trim tx s = s /\ toLowerCase tx s = s) ->
  handleLogin tx usernameValue passwordValue = SignIn email password ->
  let username := toLowerCase tx (trim tx usernameValue) in
  validateUsername username = true /\
  email = username +:+ "@sink.in" /\
  password = passwordValue /\ (6 <= length tx passwordValue)%nat /\
  Common.senderNameOf (mkUser uid None (Some email)) = username.
Proof.
  intros Htx. unfold handleLogin. cbn zeta.
  set (username := toLowerCase tx (trim tx usernameValue)).
  destruct (String.eqb_spec username "") as [|Hne]; [discriminate|].
  destruct (validateUsername username) eqn:Hv; [|discriminate]. cbn [negb].
  destruct (String.eqb passwordValue ""); [discriminate|].
  destruct (length tx passwordValue <? 6)%nat eqn:Hlen; [discriminate|].
  apply Nat.ltb_ge in Hlen.
  intros [= <- <-].
  unfold validateUsername in Hv. apply andb_true_iff in Hv as [_ Hchars].
  destruct (Htx username Hchars) as [Ht Hl].
  assert (He : constructEmail tx username = username +:+ "@sink.in").
  { unfold constructEmail. now rewrite Ht, Hl. }
  split; [reflexivity|]. split; [exact He|].
  split; [reflexivity|]. split; [exact Hlen|].
  unfold Common.senderNameOf. cbn [displayName email fmap option_fmap option_map Js.or_str].
  rewrite He. change (username +:+ "@sink.in") with (username +:+ String "@" "sink.in").
  rewrite (valid_before_at username "sink.in" Hchars).
  destruct (String.eqb_spec username ""); [contradiction|reflexivity].
Qed.

Lemma X24_witness :
  Common.senderNameOf (mkUser "u9" None (Some "tony@sink.in")) = "tony".
Proof.
  apply (X24_the_account_is_the_username_at_sink_in asciiText "  Tony " "secret1"
           "tony@sink.in" "secret1" "u9").
  - exact asciiText_keeps.
  - reflexivity.
Defined.

End LoginFacts.

(** ** Thread ids of direct messages *)

Module SeedFacts.
Import Seed.
#[local] Arguments String.append : simpl nomatch.

Lemma ltb_asym (a b : string) : String.ltb a b = true -> String.ltb b a = false.
Proof.
  unfold String.ltb. rewrite (String.compare_antisym a b).
  destruct (String.compare b a); simpl; congruence.
Qed.

Lemma ltb_total (a b : string) : String.ltb a b = false -> String.ltb b a = false -> a = b.
Proof.
  unfold String.ltb. rewrite (String.compare_antisym a b).
  destruct (String.compare b a) eqn:E; simpl; try discriminate.
  intros _ _. symmetry. now apply String.compare_eq_iff.
Qed.

Lemma plain_split (a b c d : string) :
  plain a = true -> plain c = true ->
  a +:+ "_" +:+ b = c +:+ "_" +:+ d -> a = c /\ b = d.
Proof.
  unfold plain. revert c. induction a as [|x r IH]; intros [|y t]; simpl.
  - intros _ _ [= ->]. auto.
  - intros _ H [= <- _]. discriminate.
  - intros H _ [= -> _]. discriminate.
  - intros Hx Hy [= -> E]. apply andb_true_iff in Hx as [_ Hx], Hy as [_ Hy].
    destruct (IH t Hx Hy E) as [-> ->]. auto.
Qed.

(** X25.  The thread id of a direct message does not depend on the
    order in which the two users are given; and for user ids without
    underscore, two pairs of users get the same thread id only if they
    are the same pair. *)
Theorem X25_dm_thread_id_is_symmetric (a b c d : string) :
  generateDmThreadId a b = generateDmThreadId b a /\
  (plain a = true -> plain b = true -> plain c = true -> plain d = true ->
   generateDmThreadId a b = generateDmThreadId c d ->
   (a = c /\ b = d) \/ (a = d /\ b = c)).
Proof.
  split.
  - unfold generateDmThreadId.
    destruct (String.ltb b a) eqn:E1, (String.ltb a b) eqn:E2; try reflexivity.
    + apply ltb_asym in E1. congruence.
    + now rewrite (ltb_total a b E2 E1).
  - intros Ha Hb Hc Hd. unfold generateDmThreadId.
    destruct (String.ltb b a), (String.ltb d c); intros H;
      apply plain_split in H as [-> ->]; auto.
Qed.

Lemma X25_witness :
  ("alice" = "alice" /\ "bob" = "bob") \/ ("alice" = "bob" /\ "bob" = "alice").
Proof.
  apply (proj2 (X25_dm_thread_id_is_symmetric "alice" "bob" "alice" "bob"));
    reflexivity.
Defined.

End SeedFacts.
